(** * Cross-chain query (CCQ) request validation and orchestration

    A shallow embedding of the CCQ request path of the guardian node:

    - [validateRequest] and its helpers, from [node/cmd/ccq/utils.go];
    - the per-chain query-response forwarder installed by
      [GuardianOptionWatchers], from the node options;
    - the mock watchers of [node/pkg/query/query_test.go];
    - the orchestrator (pending-query store, dispatch, audit sweep), whose
      Go source is not among the sources at hand and is modelled from
      the specification.

    Go state is threaded explicitly: a function that pegs a metric or
    assigns a field of its pointer argument returns the new value. *)

From Stdlib Require Import ZArith NArith List Lia Bool Ascii String.
From stdpp Require Import base option gmap strings list pretty.

Open Scope Z_scope.

(** ** Basic data *)

Definition Bytes := list Byte.byte.

(** [vaa.ChainID] is a [uint16]. *)
Definition ChainID := N.

(** [net/http] status codes used by the validator. *)
Definition StatusOK : Z := 200.
Definition StatusBadRequest : Z := 400.
Definition StatusForbidden : Z := 403.
Definition StatusInternalServerError : Z := 500.

(** [common.Environment]. *)
Inductive Environment := MainNet | UnsafeDevNet | TestNet | GoTest | AccountantMock.

(** The character [0x22], used by the [call "%s" not authorized] format. *)
Definition dquote : string := String (ascii_of_nat 34) EmptyString.

Module gossipv1.
(** [gossipv1.SignedQueryRequest]: the serialized request and its
    signature ([0] or [N] bytes). *)
Record SignedQueryRequest := {
  QueryRequest : Bytes;
  Signature : Bytes;
}.
End gossipv1.

Module query.
(** [solana.PublicKey] is a [[32]byte]. *)
Definition PublicKey := Bytes.

Record SolanaAccountQueryRequest := {
  Commitment : string;
  MinContextSlot : N;
  DataSliceOffset : N;
  DataSliceLength : N;
  Accounts : list PublicKey;
}.

Record SolanaPDAEntry := {
  ProgramAddress : PublicKey;
  Seeds : list Bytes;
}.

Record SolanaPdaQueryRequest := {
  PdaCommitment : string;
  PdaMinContextSlot : N;
  PdaDataSliceOffset : N;
  PdaDataSliceLength : N;
  PDAs : list SolanaPDAEntry;
}.

(** The [ChainSpecificQuery] interface, as a closed sum.  The type switch of
    [validateRequest] distinguishes the two Solana variants; every other
    dynamic type (the EVM call variants, or a nil interface) is
    [OtherQuery], tagged with its wire query type. *)
Inductive ChainSpecificQuery :=
| SolanaAccountQuery (q : SolanaAccountQueryRequest)
| SolanaPdaQuery (q : SolanaPdaQueryRequest)
| OtherQuery (queryType : N) (payload : Bytes).

Record PerChainQueryRequest := {
  ChainId : ChainID;
  Query : ChainSpecificQuery;
}.

Record QueryRequest := {
  Nonce : N;
  PerChainQueries : list PerChainQueryRequest;
}.

(** The identifier under which a request is pending: the digest of its
    serialized bytes, in hexadecimal. *)
Definition RequestID := string.

(** A [ChainSpecificResponse], by its serialized payload. *)
Definition ChainSpecificResponse := Bytes.

Record PerChainQueryResponse := {
  RespChainId : ChainID;
  Response : ChainSpecificResponse;
}.

Inductive QueryStatus := QuerySuccess | QueryRetryNeeded | QueryFatalError.

(** What the query handler sends to a watcher.  [RequestIdx] is an [int]
    that only ever holds a position of [PerChainQueries]. *)
Record PerChainQueryInternal := {
  RequestID_ : RequestID;
  RequestIdx_ : nat;
  Request : PerChainQueryRequest;
}.

(** What a watcher answers. *)
Record PerChainQueryResponseInternal := {
  RespRequestID : RequestID;
  RespRequestIdx : nat;
  RespChain : ChainID;
  Status : QueryStatus;
  RespPayload : ChainSpecificResponse;
}.

(** [CreatePerChainQueryResponseInternal(reqId, reqIdx, chainId, status, response)] *)
Definition CreatePerChainQueryResponseInternal (reqId : RequestID) (reqIdx : nat)
    (chainId : ChainID) (status : QueryStatus) (response : ChainSpecificResponse)
    : PerChainQueryResponseInternal :=
  {| RespRequestID := reqId; RespRequestIdx := reqIdx; RespChain := chainId;
     Status := status; RespPayload := response |}.

Record QueryResponsePublication := {
  PubRequest : gossipv1.SignedQueryRequest;
  PerChainResponses : list PerChainQueryResponse;
}.
End query.

(** ** Errors

    One constructor per [fmt.Errorf] site of [utils.go]; errors of the
    libraries ([ethCrypto.Sign], [Unmarshal], [Validate]) are kept by their
    message and wrapped as [%w] does. *)
Definition goError := string.

Inductive error :=
| ErrInvalidApiKey
| ErrRequestNotSigned
| ErrFailedToSign (e : goError)
| ErrFailedToUnmarshal (e : goError)
| ErrFailedToValidate (e : goError)
| ErrUnsupportedQueryType
| ErrCallNotAuthorized (callKey : string).

(** [err.Error()]. *)
Definition errorMessage (e : error) : string :=
  match e with
  | ErrInvalidApiKey => "invalid api key"
  | ErrRequestNotSigned => "request not signed"
  | ErrFailedToSign e => "failed to sign request: " +:+ e
  | ErrFailedToUnmarshal e => "failed to unmarshal request: " +:+ e
  | ErrFailedToValidate e => "failed to validate request: " +:+ e
  | ErrUnsupportedQueryType => "unsupported query type"
  | ErrCallNotAuthorized callKey => "call " +:+ dquote +:+ callKey +:+ dquote +:+ " not authorized"
  end.

(** ** Metrics

    The two Prometheus counter vectors of the CCQ server; a vector is a map
    from label value to count, and a label never seen counts zero. *)
Record Metrics := {
  invalidQueryRequestReceived : gmap string nat;
  totalRequestedCallsByChain : gmap string nat;
}.

Definition counterValue (label : string) (c : gmap string nat) : nat :=
  default 0%nat (c !! label).

(** [vec.WithLabelValues(label).Inc()]. *)
Definition Inc (label : string) (c : gmap string nat) : gmap string nat :=
  <[label := S (counterValue label c)]> c.

Definition pegInvalid (label : string) (m : Metrics) : Metrics :=
  {| invalidQueryRequestReceived := Inc label (invalidQueryRequestReceived m);
     totalRequestedCallsByChain := totalRequestedCallsByChain m |}.

Definition pegRequested (label : string) (m : Metrics) : Metrics :=
  {| invalidQueryRequestReceived := invalidQueryRequestReceived m;
     totalRequestedCallsByChain := Inc label (totalRequestedCallsByChain m) |}.

(** ** Permissions *)

Record permissionEntry := {
  userName : string;
  allowUnsigned : bool;
  allowedCalls : gset string;
}.

(** Modelled from the spec: the [Permissions] table, whose declaration is in
    a file of the package that is not at hand: a static mapping
    from caller identity (API key) to the caller's entry. *)
Record Permissions := {
  permMap : gmap string permissionEntry;
}.

Definition GetUserEntry (perms : Permissions) (apiKey : string) : option permissionEntry :=
  permMap perms !! apiKey.

(** ** The request validator ([node/cmd/ccq/utils.go]) *)

(** What a call of [validateRequest] leaves behind: the three returned
    values, the request as the caller sees it afterwards (the function
    assigns [qr.Signature] through the pointer), and the metrics. *)
Record Validation := {
  status : Z;
  queryRequest : option query.QueryRequest;
  err : option error;
  signedRequest : gossipv1.SignedQueryRequest;
  metrics : Metrics;
}.

Section Validator.
(** Library functions the validator calls; their code is outside the
    repository. *)
Context {PrivateKey : Type}.
(** [query.QueryRequestDigest(env, bytes).Bytes()]. *)
Variable QueryRequestDigest : Environment -> Bytes -> Bytes.
(** [ethCrypto.Sign(digest, key)]: both returned values. *)
Variable Sign : Bytes -> PrivateKey -> Bytes * option goError.
(** [queryRequest.Unmarshal(bytes)]. *)
Variable Unmarshal : Bytes -> query.QueryRequest + goError.
(** [queryRequest.Validate()]. *)
Variable Validate : query.QueryRequest -> option goError.
(** [solana.PublicKey(acct).String()], the base58 form. *)
Variable PublicKeyString : query.PublicKey -> string.
(** [chainId.String()]. *)
Variable ChainIDString : ChainID -> string.

(** [fmt.Sprintf("%s:%d:%s", callTag, chainId, solana.PublicKey(acct).String())] *)
Definition callKeyOf (callTag : string) (chainId : ChainID) (acct : query.PublicKey) : string :=
  callTag +:+ ":" +:+ pretty chainId +:+ ":" +:+ PublicKeyString acct.

(** The loop shared, word for word, by [validateSolanaAccountQuery]
    (over [q.Accounts]) and [validateSolanaPdaQuery] (over [q.PDAs], reading
    [acct.ProgramAddress]). *)
Fixpoint validateCalls {A : Type} (address : A -> query.PublicKey)
    (permsForUser : permissionEntry) (callTag : string) (chainId : ChainID)
    (accts : list A) (m : Metrics) : Z * option error * Metrics :=
  match accts with
  | [] => (StatusOK, None, m)
  | acct :: rest =>
      let callKey := callKeyOf callTag chainId (address acct) in
      if decide (callKey ∈ allowedCalls permsForUser) then
        validateCalls address permsForUser callTag chainId rest
          (pegRequested (ChainIDString chainId) m)
      else
        (StatusForbidden, Some (ErrCallNotAuthorized callKey),
         pegInvalid "call_not_authorized" m)
  end.

Definition validateSolanaAccountQuery (permsForUser : permissionEntry) (callTag : string)
    (chainId : ChainID) (q : query.SolanaAccountQueryRequest) (m : Metrics)
    : Z * option error * Metrics :=
  validateCalls (fun acct => acct) permsForUser callTag chainId (query.Accounts q) m.

Definition validateSolanaPdaQuery (permsForUser : permissionEntry) (callTag : string)
    (chainId : ChainID) (q : query.SolanaPdaQueryRequest) (m : Metrics)
    : Z * option error * Metrics :=
  validateCalls query.ProgramAddress permsForUser callTag chainId (query.PDAs q) m.

(** The body of [for _, pcq := range queryRequest.PerChainQueries]: one
    sub-query. *)
Definition validatePerChainQuery (permsForUser : permissionEntry)
    (pcq : query.PerChainQueryRequest) (m : Metrics) : Z * option error * Metrics :=
  match query.Query pcq with
  | query.SolanaAccountQuery q =>
      validateSolanaAccountQuery permsForUser "solAccount" (query.ChainId pcq) q m
  | query.SolanaPdaQuery q =>
      validateSolanaPdaQuery permsForUser "solPDA" (query.ChainId pcq) q m
  | query.OtherQuery _ _ =>
      (StatusBadRequest, Some ErrUnsupportedQueryType,
       pegInvalid "unsupported_query_type" m)
  end.

(** The loop itself: the first sub-query that fails ends it. *)
Fixpoint validatePerChainQueries (permsForUser : permissionEntry)
    (pcqs : list query.PerChainQueryRequest) (m : Metrics) : Z * option error * Metrics :=
  match pcqs with
  | [] => (StatusOK, None, m)
  | pcq :: rest =>
      match validatePerChainQuery permsForUser pcq m with
      | (st, Some e, m') => (st, Some e, m')
      | (_, None, m') => validatePerChainQueries permsForUser rest m'
      end
  end.

Definition reject (st : Z) (e : error) (label : string)
    (qr : gossipv1.SignedQueryRequest) (m : Metrics) : Validation :=
  {| status := st; queryRequest := None; err := Some e;
     signedRequest := qr; metrics := pegInvalid label m |}.

(** [validateRequest] from the unmarshal step on. *)
Definition validateSigned (permsForUser : permissionEntry)
    (qr : gossipv1.SignedQueryRequest) (m : Metrics) : Validation :=
  match Unmarshal (gossipv1.QueryRequest qr) with
  | inr e => reject StatusBadRequest (ErrFailedToUnmarshal e) "failed_to_unmarshal_request" qr m
  | inl req =>
      match Validate req with
      | Some e => reject StatusBadRequest (ErrFailedToValidate e) "failed_to_validate_request" qr m
      | None =>
          match validatePerChainQueries permsForUser (query.PerChainQueries req) m with
          | (st, Some e, m') =>
              {| status := st; queryRequest := None; err := Some e;
                 signedRequest := qr; metrics := m' |}
          | (_, None, m') =>
              {| status := StatusOK; queryRequest := Some req; err := None;
                 signedRequest := qr; metrics := m' |}
          end
      end
  end.

Definition validateRequest (env : Environment) (perms : Permissions)
    (signerKey : option PrivateKey) (apiKey : string)
    (qr : gossipv1.SignedQueryRequest) (m : Metrics) : Validation :=
  match GetUserEntry perms apiKey with
  | None => reject StatusForbidden ErrInvalidApiKey "invalid_api_key" qr m
  | Some permsForUser =>
      match gossipv1.Signature qr with
      | [] =>
          match allowUnsigned permsForUser, signerKey with
          | true, Some key =>
              let digest := QueryRequestDigest env (gossipv1.QueryRequest qr) in
              let '(sig, signErr) := Sign digest key in
              let qr' := {| gossipv1.QueryRequest := gossipv1.QueryRequest qr;
                            gossipv1.Signature := sig |} in
              match signErr with
              | Some e =>
                  reject StatusInternalServerError (ErrFailedToSign e)
                    "failed_to_sign_request" qr' m
              | None => validateSigned permsForUser qr' m
              end
          | _, _ =>
              reject StatusBadRequest ErrRequestNotSigned "request_not_signed" qr m
          end
      | _ :: _ => validateSigned permsForUser qr m
      end
  end.

(** *** Vocabulary of the claims *)

(** The call keys a sub-query asks for, in the order the validator looks at
    them; a query of another kind has none. *)
Definition callKeysOf (pcq : query.PerChainQueryRequest) : list string :=
  match query.Query pcq with
  | query.SolanaAccountQuery q =>
      map (callKeyOf "solAccount" (query.ChainId pcq)) (query.Accounts q)
  | query.SolanaPdaQuery q =>
      map (fun e => callKeyOf "solPDA" (query.ChainId pcq) (query.ProgramAddress e))
          (query.PDAs q)
  | query.OtherQuery _ _ => []
  end.

Definition requestCallKeys (req : query.QueryRequest) : list string :=
  concat (map callKeysOf (query.PerChainQueries req)).

Definition isSupported (pcq : query.PerChainQueryRequest) : bool :=
  match query.Query pcq with
  | query.OtherQuery _ _ => false
  | _ => true
  end.

(** The caller's authorized call set; a caller without entry has none. *)
Definition authorizedCalls (perms : Permissions) (apiKey : string) : gset string :=
  match GetUserEntry perms apiKey with
  | Some e => allowedCalls e
  | None => ∅
  end.

(** The labels pegged on [totalRequestedCallsByChain] by a request all of
    whose calls pass: one per call. *)
Definition requestedLabels (pcq : query.PerChainQueryRequest) : list string :=
  map (fun _ => ChainIDString (query.ChainId pcq)) (callKeysOf pcq).

(** The label of [invalidQueryRequestReceived] that names the reason of a
    rejection. *)
Definition reasonLabel (e : error) : string :=
  match e with
  | ErrInvalidApiKey => "invalid_api_key"
  | ErrRequestNotSigned => "request_not_signed"
  | ErrFailedToSign _ => "failed_to_sign_request"
  | ErrFailedToUnmarshal _ => "failed_to_unmarshal_request"
  | ErrFailedToValidate _ => "failed_to_validate_request"
  | ErrUnsupportedQueryType => "unsupported_query_type"
  | ErrCallNotAuthorized _ => "call_not_authorized"
  end.

(** [Inc] once for each label of the list, in order. *)
Definition IncAll (labels : list string) (c : gmap string nat) : gmap string nat :=
  foldl (fun c label => Inc label c) c labels.

(** [pegRequested] once for each label of the list, in order. *)
Definition pegRequestedAll (labels : list string) (m : Metrics) : Metrics :=
  foldl (fun m label => pegRequested label m) m labels.

(** How a sub-query is turned down: for its kind, or for the first of its
    calls that the caller has no entry for. *)
Definition rejectedAt (p : permissionEntry) (pcq : query.PerChainQueryRequest)
    (m : Metrics) (st : Z) (e : error) (m' : Metrics) : Prop :=
  (isSupported pcq = false /\ st = StatusBadRequest /\ e = ErrUnsupportedQueryType
   /\ m' = pegInvalid "unsupported_query_type" m)
  \/ (isSupported pcq = true /\ st = StatusForbidden
      /\ exists kpre k kpost,
           callKeysOf pcq = kpre ++ k :: kpost
           /\ Forall (fun k => k ∈ allowedCalls p) kpre
           /\ (k ∉ allowedCalls p)
           /\ e = ErrCallNotAuthorized k
           /\ m' = pegInvalid "call_not_authorized"
                     (pegRequestedAll
                        (replicate (length kpre) (ChainIDString (query.ChainId pcq))) m)).

(** What a rejection leaves in the metrics: the failure counter pegged once
    under the label of the reason; the requested-calls counter as it was
    when the rejection comes before the loop, and otherwise pegged once for
    every call of the sub-queries before the offending one and once for
    every call of the offending sub-query before the call that is turned
    down ([passed]).  The offending sub-query is the first one that is of
    another kind or asks for a call outside [allowed]. *)
Definition rejectionMetrics (allowed : gset string) (bytes : Bytes) (m : Metrics)
    (e : error) (m' : Metrics) : Prop :=
  invalidQueryRequestReceived m' = Inc (reasonLabel e) (invalidQueryRequestReceived m)
  /\ match e with
     | ErrUnsupportedQueryType | ErrCallNotAuthorized _ =>
         exists req pre pcq post passed,
           Unmarshal bytes = inl req
           /\ query.PerChainQueries req = pre ++ pcq :: post
           /\ forallb isSupported pre = true
           /\ Forall (fun k => k ∈ allowed) (concat (map callKeysOf pre) ++ passed)
           /\ match e with
              | ErrCallNotAuthorized k =>
                  isSupported pcq = true /\ (k ∉ allowed)
                  /\ exists rest, callKeysOf pcq = passed ++ k :: rest
              | _ => isSupported pcq = false /\ passed = []
              end
           /\ totalRequestedCallsByChain m'
              = IncAll (concat (map requestedLabels pre)
                        ++ replicate (length passed) (ChainIDString (query.ChainId pcq)))
                  (totalRequestedCallsByChain m)
     | _ => totalRequestedCallsByChain m' = totalRequestedCallsByChain m
     end.

End Validator.


(** ** The per-chain query-response forwarder ([GuardianOptionWatchers])

    For every chain the node starts a goroutine that reads the chain's
    response channel and copies what it reads to the query handler's
    channel [g.queryResponseC].  A response whose [ChainId] is not the chain
    of the channel it came through is reported with [logger.Fatal], which
    ends the process. *)
Record NodeProcess := {
  (** What has been written to [g.queryResponseC.writeC], oldest first. *)
  queryResponseC : list query.PerChainQueryResponseInternal;
  (** Whether [logger.Fatal] has ended the process. *)
  exited : bool;
}.

Definition nodeStart : NodeProcess := {| queryResponseC := []; exited := false |}.

(** One [case response := <-c] of the goroutine for [chainId]. *)
Definition forwardQueryResponse (chainId : ChainID)
    (response : query.PerChainQueryResponseInternal) (g : NodeProcess) : NodeProcess :=
  if exited g then g
  else if negb (query.RespChain response =? chainId)%N then
    {| queryResponseC := queryResponseC g; exited := true |}
  else
    {| queryResponseC := queryResponseC g ++ [response]; exited := false |}.

(** The responses the watchers hand to their channels, each with the chain
    of the channel, in the order the goroutines pick them up. *)
Definition forwardAll (arrivals : list (ChainID * query.PerChainQueryResponseInternal))
    (g : NodeProcess) : NodeProcess :=
  foldl (fun g a => forwardQueryResponse a.1 a.2 g) g arrivals.

(** ** The mock watchers and the test helpers ([node/pkg/query/query_test.go]) *)

#[global] Instance byte_eq_dec : EqDecision Byte.byte.
Proof.
  intros x y. destruct (Byte.eqb x y) eqn:H.
  - left. by apply Byte.byte_dec_bl.
  - right. by apply Byte.eqb_false.
Defined.

#[global] Instance SignedQueryRequest_eq_dec : EqDecision gossipv1.SignedQueryRequest.
Proof. solve_decision. Defined.

#[global] Instance PerChainQueryResponse_eq_dec : EqDecision query.PerChainQueryResponse.
Proof. solve_decision. Defined.

(** Go's [int] on the 64-bit targets of the node: arithmetic wraps. *)
Definition MaxInt : Z := 2 ^ 63 - 1.
Definition wrapInt (z : Z) : Z := (z + 2 ^ 63) mod 2 ^ 64 - 2 ^ 63.

(** Magic retry values used to cause special behavior in the watchers. *)
Definition fatalError : Z := MaxInt.
Definition ignoreQuery : Z := MaxInt - 1.

(** Speed things up for testing purposes (in milliseconds). *)
Definition requestTimeoutForTest : Z := 100.
Definition retryIntervalForTest : Z := 10.
Definition auditIntervalForTest : Z := 10.
Definition pollIntervalForTest : Z := 5.

(** The fields of [mockData] behind its mutex. *)
Record mockData := {
  queryResponsePublication : option query.QueryResponsePublication;
  expectedResults : list query.PerChainQueryResponse;
  requestsPerChain : gmap ChainID Z;
  retriesPerChain : gmap ChainID Z;
}.

Definition resetState (md : mockData) : mockData :=
  {| queryResponsePublication := None; expectedResults := [];
     requestsPerChain := ∅; retriesPerChain := ∅ |}.

Definition setExpectedResults (expected : list query.PerChainQueryResponse)
    (md : mockData) : mockData :=
  {| queryResponsePublication := queryResponsePublication md; expectedResults := expected;
     requestsPerChain := requestsPerChain md; retriesPerChain := retriesPerChain md |}.

Definition setRetries (chainId : ChainID) (count : Z) (md : mockData) : mockData :=
  {| queryResponsePublication := queryResponsePublication md;
     expectedResults := expectedResults md;
     requestsPerChain := requestsPerChain md;
     retriesPerChain := <[chainId := count]> (retriesPerChain md) |}.

Definition incrementRequestsPerChainAlreadyLocked (chainId : ChainID) (md : mockData)
    : mockData :=
  {| queryResponsePublication := queryResponsePublication md;
     expectedResults := expectedResults md;
     requestsPerChain :=
       match requestsPerChain md !! chainId with
       | Some val => <[chainId := wrapInt (val + 1)]> (requestsPerChain md)
       | None => <[chainId := 1]> (requestsPerChain md)
       end;
     retriesPerChain := retriesPerChain md |}.

Definition getQueryResponsePublication (md : mockData)
    : option query.QueryResponsePublication :=
  queryResponsePublication md.

Definition getRequestsPerChain (chainId : ChainID) (md : mockData) : Z :=
  match requestsPerChain md !! chainId with
  | Some ret => ret
  | None => 0
  end.

Definition withRetries (retries : gmap ChainID Z) (md : mockData) : mockData :=
  {| queryResponsePublication := queryResponsePublication md;
     expectedResults := expectedResults md;
     requestsPerChain := requestsPerChain md;
     retriesPerChain := retries |}.

Definition shouldIgnoreAlreadyLocked (chainId : ChainID) (md : mockData) : bool * mockData :=
  match retriesPerChain md !! chainId with
  | Some val =>
      if val =? ignoreQuery then (true, withRetries (delete chainId (retriesPerChain md)) md)
      else (false, md)
  | None => (false, md)
  end.

Definition getStatusAlreadyLocked (chainId : ChainID) (md : mockData)
    : query.QueryStatus * mockData :=
  match retriesPerChain md !! chainId with
  | Some val =>
      if val =? fatalError then (query.QueryFatalError, md)
      else
        let val := wrapInt (val - 1) in
        if 0 <? val then
          (query.QueryRetryNeeded, withRetries (<[chainId := val]> (retriesPerChain md)) md)
        else
          (query.QueryRetryNeeded, withRetries (delete chainId (retriesPerChain md)) md)
  | None => (query.QuerySuccess, md)
  end.

(** What the watcher of [chainId] reports when it is asked [n] times in a
    row. *)
Fixpoint statusSequence (n : nat) (chainId : ChainID) (md : mockData)
    : list query.QueryStatus :=
  match n with
  | O => []
  | S n =>
      let '(status, md) := getStatusAlreadyLocked chainId md in
      status :: statusSequence n chainId md
  end.

(** One [case pcqr := <-chainQueryReqC] of the watcher routine for
    [chainId]: the new mock data and the response written to
    [queryResponseWriteC], if any.  [None] is a test that stops: the
    [require.Equal] on the chain fails, or [expectedResults] has no entry at
    [RequestIdx] and the index expression panics. *)
Definition watcher (chainId : ChainID) (pcqr : query.PerChainQueryInternal) (md : mockData)
    : option (mockData * option query.PerChainQueryResponseInternal) :=
  if negb (chainId =? query.ChainId (query.Request pcqr))%N then None
  else
    let md := incrementRequestsPerChainAlreadyLocked chainId md in
    let '(ignore, md) := shouldIgnoreAlreadyLocked chainId md in
    if ignore then Some (md, None)
    else
      match expectedResults md !! query.RequestIdx_ pcqr with
      | None => None
      | Some expected =>
          let results := query.Response expected in
          let '(status, md) := getStatusAlreadyLocked chainId md in
          Some (md, Some (query.CreatePerChainQueryResponseInternal
                            (query.RequestID_ pcqr) (query.RequestIdx_ pcqr)
                            (query.ChainId (query.Request pcqr)) status results))
      end.

(** The response listener: [md.queryResponsePublication = qrp]. *)
Definition startResponseListener (qrp : query.QueryResponsePublication) (md : mockData)
    : mockData :=
  {| queryResponsePublication := Some qrp; expectedResults := expectedResults md;
     requestsPerChain := requestsPerChain md; retriesPerChain := retriesPerChain md |}.

(** [validateResponseForTest]: [true] when every [require] passes.
    [SignedQueryRequestEqual] and [PerChainQueryResponse.Equal] compare
    field by field. *)
Definition validateResponseForTest (response : option query.QueryResponsePublication)
    (signedRequest : gossipv1.SignedQueryRequest) (queryRequest : query.QueryRequest)
    (expectedResults : list query.PerChainQueryResponse) : bool :=
  match response with
  | None => false
  | Some response =>
      bool_decide (signedRequest = query.PubRequest response)
      && (length (query.PerChainQueries queryRequest)
          =? length (query.PerChainResponses response))%nat
      && bool_decide (gossipv1.Signature (query.PubRequest response)
                      = gossipv1.Signature signedRequest)
      && (length (query.PerChainResponses response) =? length expectedResults)%nat
      && forallb (fun idx =>
                    bool_decide (query.PerChainResponses response !! idx
                                 = expectedResults !! idx))
           (seq 0 (length (query.PerChainResponses response)))
  end.

(** ** The per-chain message forwarder ([GuardianOptionWatchers])

    For every chain the node starts a goroutine that reads the chain's
    message channel and copies what it reads to [g.msgC], after three
    checks.  A message that fails the first or the second is logged at
    [FatalLevel], which ends the process, except under [GoTest], where it is
    logged at [ErrorLevel] and dropped; a message of the governance emitter
    is logged as an error and dropped in every environment. *)
Module common.
(** The fields of [common.MessagePublication] the forwarder reads, and the
    payload for the rest of the message. *)
Record MessagePublication := {
  TxHash : Bytes;
  Timestamp : Z;
  Nonce : N;
  Sequence : N;
  EmitterChain : ChainID;
  EmitterAddress : Bytes;
  Payload : Bytes;
}.
End common.

Module zapcore.
Inductive Level := ErrorLevel | FatalLevel.
End zapcore.

(** [vaa.Address{}]: thirty-two zero bytes. *)
Definition zeroAddress : Bytes := replicate 32 Byte.x00.

Record MessageForwarder := {
  (** What has been written to [g.msgC.writeC], oldest first. *)
  msgC : list common.MessagePublication;
  (** The levels and messages of the log entries written, oldest first. *)
  logged : list (zapcore.Level * string);
  (** Whether a log entry at [FatalLevel] has ended the process. *)
  halted : bool;
}.

Definition forwarderStart : MessageForwarder := {| msgC := []; logged := []; halted := false |}.

(** [logger.Log(level, msg, ...)]: an entry at [FatalLevel] ends the
    process after it is written. *)
Definition logAt (level : zapcore.Level) (text : string) (g : MessageForwarder)
    : MessageForwarder :=
  {| msgC := msgC g; logged := logged g ++ [(level, text)];
     halted := match level with zapcore.FatalLevel => true | zapcore.ErrorLevel => false end |}.

(** The level of the two security entries: [FatalLevel], lowered to
    [ErrorLevel] under [GoTest]. *)
Definition securityLevel (env : Environment) : zapcore.Level :=
  match env with GoTest => zapcore.ErrorLevel | _ => zapcore.FatalLevel end.

Section MessageForwarding.
Variable GovernanceEmitter : Bytes.
Variable GovernanceChain : ChainID.

(** One [case msg := <-c] of the goroutine for [chainId]. *)
Definition forwardMessage (env : Environment) (chainId : ChainID)
    (msg : common.MessagePublication) (g : MessageForwarder) : MessageForwarder :=
  if halted g then g
  else if negb (common.EmitterChain msg =? chainId)%N then
    logAt (securityLevel env)
      "SECURITY CRITICAL: Received observation from a chain that was not marked as originating from that chain"
      g
  else if bool_decide (common.EmitterAddress msg = zeroAddress) then
    logAt (securityLevel env)
      "SECURITY ERROR: Received observation with EmitterAddress == 0x00" g
  else if bool_decide (common.EmitterAddress msg = GovernanceEmitter)
          && (common.EmitterChain msg =? GovernanceChain)%N then
    logAt zapcore.ErrorLevel
      "EMERGENCY: PLEASE REPORT THIS IMMEDIATELY! A Solana message was emitted from the governance emitter. This should never be possible."
      g
  else
    {| msgC := msgC g ++ [msg]; logged := logged g; halted := false |}.

(** The messages the watchers hand to their channels, each with the chain
    of the channel, in the order the goroutines pick them up. *)
Definition forwardMessages (env : Environment)
    (arrivals : list (ChainID * common.MessagePublication)) (g : MessageForwarder)
    : MessageForwarder :=
  foldl (fun g a => forwardMessage env a.1 a.2 g) g arrivals.

End MessageForwarding.

(** ** Setting up the watchers ([GuardianOptionWatchers])

    After the forwarders are started, the option walks through the watcher
    configurations in the order given, creates each watcher and records its
    runnable and its L1 finalizer.  A network configured twice and a failing
    [Create] end the walk with an error; a watcher that requires the L1
    finalizer of a network that has not been set up before it, or whose
    finalizer is nil, ends the process. *)
Module watchers.
Definition NetworkID := string.

Section Interface.
Variables L1Finalizer Runnable : Type.

(** The interface [watchers.WatcherConfig].  [Create] is given the finalizer
    handed to [SetL1Finalizer] before it ([None] when it was not called) and
    the environment; the channels it is given are those of [GetChainID].
    An [interfaces.L1Finalizer] that is nil is [None]. *)
Record WatcherConfig := {
  GetNetworkID : NetworkID;
  GetChainID : ChainID;
  RequiredL1Finalizer : NetworkID;
  Create : option L1Finalizer -> Environment -> (option L1Finalizer * Runnable) + goError;
}.
End Interface.

Arguments GetNetworkID {_ _} _.
Arguments GetChainID {_ _} _.
Arguments RequiredL1Finalizer {_ _} _.
Arguments Create {_ _} _ _ _.
End watchers.

Section WatcherSetup.
Variables L1Finalizer Runnable : Type.
(** The registry of the readiness package, outside this repository:
    [MustRegisterReadinessSyncing] returns the new registry, or [None] when
    it panics. *)
Variable Readiness : Type.
Variable MustRegisterReadinessSyncing : ChainID -> Readiness -> option Readiness.

Abbreviation WatcherConfig := (watchers.WatcherConfig L1Finalizer Runnable).

(** What the walk reads and writes: the local maps [watchers] and
    [chainObsvReqC] (by their keys), and of the node [g.chainQueryReqC] (by
    its keys) and [g.runnablesWithScissors]. *)
Record Setup := {
  watchersMap : gmap watchers.NetworkID (option L1Finalizer);
  chainObsvReqC : gset ChainID;
  chainQueryReqC : gset ChainID;
  runnablesWithScissors : gmap string Runnable;
  readiness : Readiness;
}.

Inductive SetupResult :=
  | Configured (s : Setup)
  | SetupError (e : goError) (s : Setup)
  | SetupFatal (s : Setup)
  | SetupPanic.

(** The maps after the readiness component and the two request channels of
    the chain are in place. *)
Definition withChannels (chain : ChainID) (r : Readiness) (s : Setup) : Setup :=
  {| watchersMap := watchersMap s;
     chainObsvReqC := {[chain]} ∪ chainObsvReqC s;
     chainQueryReqC := {[chain]} ∪ chainQueryReqC s;
     runnablesWithScissors := runnablesWithScissors s;
     readiness := r |}.

Definition withWatcher (id : watchers.NetworkID) (l1finalizer : option L1Finalizer)
    (runnable : Runnable) (s : Setup) : Setup :=
  {| watchersMap := <[id := l1finalizer]> (watchersMap s);
     chainObsvReqC := chainObsvReqC s;
     chainQueryReqC := chainQueryReqC s;
     runnablesWithScissors := <[id +:+ "_watch" := runnable]> (runnablesWithScissors s);
     readiness := readiness s |}.

(** The finalizer handed to [SetL1Finalizer]: [inl None] when none is
    required, [inr tt] when the required one is missing or nil. *)
Definition requiredFinalizer (wc : WatcherConfig) (s : Setup)
    : option L1Finalizer + unit :=
  if bool_decide (watchers.RequiredL1Finalizer wc = "") then inl None
  else
    match watchersMap s !! watchers.RequiredL1Finalizer wc with
    | Some (Some l1watcher) => inl (Some l1watcher)
    | Some None | None => inr tt
    end.

Definition createWatcher (env : Environment) (wc : WatcherConfig) (s : Setup)
    : SetupResult :=
  match requiredFinalizer wc s with
  | inr _ => SetupFatal s
  | inl l1 =>
      match watchers.Create wc l1 env with
      | inr e => SetupError ("error creating watcher: " +:+ e) s
      | inl (l1finalizer, runnable) =>
          Configured (withWatcher (watchers.GetNetworkID wc) l1finalizer runnable s)
      end
  end.

(** One round of [for _, wc := range watcherConfigs]. *)
Definition configureWatcher (env : Environment) (wc : WatcherConfig) (s : Setup)
    : SetupResult :=
  match watchersMap s !! watchers.GetNetworkID wc with
  | Some _ =>
      SetupError ("NetworkID already configured: " +:+ watchers.GetNetworkID wc) s
  | None =>
      if bool_decide (watchers.GetNetworkID wc = "solana-confirmed")
      then createWatcher env wc s
      else
        match MustRegisterReadinessSyncing (watchers.GetChainID wc) (readiness s) with
        | None => SetupPanic
        | Some r => createWatcher env wc (withChannels (watchers.GetChainID wc) r s)
        end
  end.

Fixpoint configureWatchers (env : Environment) (watcherConfigs : list WatcherConfig)
    (s : Setup) : SetupResult :=
  match watcherConfigs with
  | [] => Configured s
  | wc :: rest =>
      match configureWatcher env wc s with
      | Configured s => configureWatchers env rest s
      | stopped => stopped
      end
  end.

(** The walk of [GuardianOptionWatchers]: [watchers] and [chainObsvReqC]
    are made empty, the maps of the node are as the node has them. *)
Definition setupStart (queryReqC : gset ChainID) (runnables : gmap string Runnable)
    (r : Readiness) : Setup :=
  {| watchersMap := ∅; chainObsvReqC := ∅; chainQueryReqC := queryReqC;
     runnablesWithScissors := runnables; readiness := r |}.

End WatcherSetup.

Arguments watchersMap {_ _ _} _.
Arguments chainObsvReqC {_ _ _} _.
Arguments chainQueryReqC {_ _ _} _.
Arguments runnablesWithScissors {_ _ _} _.
Arguments readiness {_ _ _} _.
Arguments Configured {_ _ _} _.
Arguments SetupError {_ _ _} _ _.
Arguments SetupFatal {_ _ _} _.
Arguments SetupPanic {_ _ _}.
Arguments withChannels {_ _ _} _ _ _.
Arguments withWatcher {_ _ _} _ _ _ _.
Arguments requiredFinalizer {_ _ _} _ _.
Arguments createWatcher {_ _ _} _ _ _.
Arguments setupStart {_ _ _} _ _ _.

(** ** The orchestrator

    Modelled from the spec: the query handler ([handleQueryRequestsImpl]) and
    its pending-query store are not among the sources; what follows is the
    data model of section 3 and the behaviour of sections 4.2 and 4.3 of the
    specification.  Times and durations are integers in one unit. *)

(** Modelled from the spec: the [status] of a [PerChainState]. *)
Inductive SubQueryStatus := Pending | Success | RetryNeeded | FatalError.

#[global] Instance SubQueryStatus_eq_dec : EqDecision SubQueryStatus.
Proof. solve_decision. Defined.

(** Modelled from the spec: [PerChainState]; [requestIdx] is the position in
    [perChainQueries]. *)
Record PerChainState := {
  chainId : ChainID;
  subStatus : SubQueryStatus;
  result : option query.PerChainQueryResponse;
  retryCount : nat;
  requestIdx : nat;
}.

(** Modelled from the spec: [PendingQuery], owned by the orchestrator. *)
Record PendingQuery := {
  requestID : query.RequestID;
  pendingRequest : gossipv1.SignedQueryRequest;
  (** [signedRequest.queryRequest], deserialized. *)
  pendingQueries : query.QueryRequest;
  perChainState : list PerChainState;
  createdAt : Z;
  lastRetryAt : Z;
}.

(** Modelled from the spec: the durations of the configuration surface and
    the chains that have a worker queue (the dispatch table). *)
Record Config := {
  routes : gset ChainID;
  requestTimeout : Z;
  retryInterval : Z;
  auditInterval : Z;
}.

(** Modelled from the spec: the terminal errors of section 7 that the
    orchestrator raises. *)
Inductive Failure :=
| DuplicateRequest
| UnsupportedChain
| ChainMismatch (idx : nat)
| FatalChainError (idx : nat)
| Timeout.

(** Modelled from the spec: what the control task emits, a sub-query put on
    a chain's worker queue, an aggregate response handed to the signer, or a
    request given up. *)
Inductive Output :=
| Dispatch (queue : ChainID) (pcq : query.PerChainQueryInternal)
| Publish (pub : query.QueryResponsePublication)
| Failed (id : query.RequestID) (why : Failure).

(** Modelled from the spec: what the control task receives, a validated
    request, a watcher's answer, or the tick of the audit timer. *)
Inductive Event :=
| NewRequest (now : Z) (signedRequest : gossipv1.SignedQueryRequest)
    (queryRequest : query.QueryRequest)
| ResponseArrived (now : Z) (response : query.PerChainQueryResponseInternal)
| AuditTick (now : Z).

Section Orchestrator.
(** The digest of the serialized request, as the identifier. *)
Variable RequestIDOf : Bytes -> query.RequestID.
Variable cfg : Config.

Definition initialState (idx : nat) (pcq : query.PerChainQueryRequest) : PerChainState :=
  {| chainId := query.ChainId pcq; subStatus := Pending; result := None;
     retryCount := 0; requestIdx := idx |}.

Definition dispatchOf (id : query.RequestID) (idx : nat) (pcq : query.PerChainQueryRequest)
    : Output :=
  Dispatch (query.ChainId pcq)
    {| query.RequestID_ := id; query.RequestIdx_ := idx; query.Request := pcq |}.

(** Modelled from the spec: on a validated request, refuse a duplicate of a
    pending request and a request with a chain that has no route, before
    anything is sent; otherwise register the pending query and send every
    sub-query to its chain's queue. *)
Definition handleRequest (now : Z) (signedRequest : gossipv1.SignedQueryRequest)
    (queryRequest : query.QueryRequest) (store : gmap query.RequestID PendingQuery)
    : gmap query.RequestID PendingQuery * list Output :=
  let id := RequestIDOf (gossipv1.QueryRequest signedRequest) in
  let pcqs := query.PerChainQueries queryRequest in
  match store !! id with
  | Some _ => (store, [Failed id DuplicateRequest])
  | None =>
      if forallb (fun pcq => bool_decide (query.ChainId pcq ∈ routes cfg)) pcqs then
        (<[id := {| requestID := id; pendingRequest := signedRequest;
                    pendingQueries := queryRequest;
                    perChainState := imap initialState pcqs;
                    createdAt := now; lastRetryAt := now |}]> store,
         imap (dispatchOf id) pcqs)
      else (store, [Failed id UnsupportedChain])
  end.

Definition isSuccess (st : PerChainState) : bool := bool_decide (subStatus st = Success).

(** Modelled from the spec: the aggregate response, in the order of the
    request. *)
Definition buildPublication (pq : PendingQuery) : query.QueryResponsePublication :=
  {| query.PubRequest := pendingRequest pq;
     query.PerChainResponses := omap result (perChainState pq) |}.

Definition withStates (states : list PerChainState) (last : Z) (pq : PendingQuery)
    : PendingQuery :=
  {| requestID := requestID pq; pendingRequest := pendingRequest pq;
     pendingQueries := pendingQueries pq; perChainState := states;
     createdAt := createdAt pq; lastRetryAt := last |}.

Definition recordSuccess (response : query.PerChainQueryResponseInternal)
    (st : PerChainState) : PerChainState :=
  {| chainId := chainId st; subStatus := Success;
     result := Some {| query.RespChainId := query.RespChain response;
                       query.Response := query.RespPayload response |};
     retryCount := retryCount st; requestIdx := requestIdx st |}.

Definition retried (status : SubQueryStatus) (st : PerChainState) : PerChainState :=
  {| chainId := chainId st; subStatus := status; result := result st;
     retryCount := S (retryCount st); requestIdx := requestIdx st |}.

(** The sub-query at [idx], sent again. *)
Definition redispatch (pq : PendingQuery) (idx : nat) : list Output :=
  match query.PerChainQueries (pendingQueries pq) !! idx with
  | Some pcq => [dispatchOf (requestID pq) idx pcq]
  | None => []
  end.

(** Modelled from the spec: on a watcher's answer, an answer for no pending
    request is dropped; an answer whose chain is not the one recorded at its
    index (or whose index has no record) fails the request; a success is
    recorded, unless one is recorded already, and completes the request when
    it was the last one; a retry is counted and the sub-query sent again at
    once when the retry interval has passed, and otherwise left for the
    audit; a fatal error fails the request. *)
Definition handleResponse (now : Z) (response : query.PerChainQueryResponseInternal)
    (store : gmap query.RequestID PendingQuery)
    : gmap query.RequestID PendingQuery * list Output :=
  let id := query.RespRequestID response in
  let idx := query.RespRequestIdx response in
  match store !! id with
  | None => (store, [])
  | Some pq =>
      match perChainState pq !! idx with
      | None => (delete id store, [Failed id (ChainMismatch idx)])
      | Some st =>
          if negb (query.RespChain response =? chainId st)%N then
            (delete id store, [Failed id (ChainMismatch idx)])
          else
            match query.Status response with
            | query.QuerySuccess =>
                if isSuccess st then (store, [])
                else
                  let pq' := withStates (<[idx := recordSuccess response st]> (perChainState pq))
                               (lastRetryAt pq) pq in
                  if forallb isSuccess (perChainState pq') then
                    (delete id store, [Publish (buildPublication pq')])
                  else (<[id := pq']> store, [])
            | query.QueryRetryNeeded =>
                if isSuccess st then (store, [])
                else if retryInterval cfg <? now - lastRetryAt pq then
                  (<[id := withStates (<[idx := retried Pending st]> (perChainState pq)) now pq]>
                     store,
                   redispatch pq idx)
                else
                  (<[id := withStates (<[idx := retried RetryNeeded st]> (perChainState pq))
                             (lastRetryAt pq) pq]> store,
                   [])
            | query.QueryFatalError =>
                (delete id store, [Failed id (FatalChainError idx)])
            end
      end
  end.

Definition needsRetry (st : PerChainState) : bool :=
  match subStatus st with
  | Pending | RetryNeeded => true
  | Success | FatalError => false
  end.

(** Modelled from the spec: the audit of one pending query.  Past its
    deadline it is given up; otherwise, when the retry interval has passed
    since the last dispatch, every sub-query still without answer is sent
    again and counted. *)
Definition auditOne (now : Z) (pq : PendingQuery) : option PendingQuery * list Output :=
  if requestTimeout cfg <? now - createdAt pq then (None, [Failed (requestID pq) Timeout])
  else if retryInterval cfg <? now - lastRetryAt pq then
    (Some (withStates
             (map (fun st => if needsRetry st then retried Pending st else st)
                (perChainState pq))
             now pq),
     concat (map (fun st => if needsRetry st then redispatch pq (requestIdx st) else [])
               (perChainState pq)))
  else (Some pq, []).

(** Modelled from the spec: the audit sweep over all pending queries. *)
Definition auditSweep (now : Z) (store : gmap query.RequestID PendingQuery)
    : gmap query.RequestID PendingQuery * list Output :=
  (omap (fun pq => (auditOne now pq).1) store,
   concat (map (fun entry => (auditOne now entry.2).2) (map_to_list store))).

(** Modelled from the spec: the control task on one event. *)
Definition step (ev : Event) (store : gmap query.RequestID PendingQuery)
    : gmap query.RequestID PendingQuery * list Output :=
  match ev with
  | NewRequest now signedRequest queryRequest => handleRequest now signedRequest queryRequest store
  | ResponseArrived now response => handleResponse now response store
  | AuditTick now => auditSweep now store
  end.

(** Modelled from the spec: the control task on a sequence of events, the
    store it ends with and everything it emitted, oldest first. *)
Fixpoint run (evs : list Event) (store : gmap query.RequestID PendingQuery)
    : gmap query.RequestID PendingQuery * list Output :=
  match evs with
  | [] => (store, [])
  | ev :: rest =>
      let '(store', out) := step ev store in
      let '(store'', out') := run rest store' in
      (store'', out ++ out')
  end.

End Orchestrator.
(** ** The test environment: orchestrator and mock watchers, wired

    [createQueryHandlerForTest] starts the query handler, one watcher
    routine per chain and the response listener, connected by channels.
    The routines run side by side.  Here a schedule says whose turn it is:
    the watcher of a chain takes the next sub-query from its channel and
    answers it, the handler takes the next answer from the response channel,
    the audit timer fires, or the listener takes the next publication.  The
    schedule also says what time it is when the handler or the timer runs,
    so that any time may pass between a dispatch, its answer and the
    handling of the answer.  The watcher routines and the listener are those
    of [query_test.go]; the handler is the orchestrator above.  A channel is
    a queue without bound, oldest first: this allows every order in which
    the routines can get to run on the channels of the test, and more. *)
Inductive Turn :=
| WatcherTurn (chainId : ChainID)
| HandlerTurn (now : Z)
| AuditTurn (now : Z)
| ListenerTurn.

Record TestEnv := {
  pendingStore : gmap query.RequestID PendingQuery;
  md : mockData;
  (** What is on the channels [chainQueryReqC], oldest first, each
      sub-query with the chain of its channel. *)
  queued : list (ChainID * query.PerChainQueryInternal);
  (** What is on the response channel, oldest first. *)
  answers : list query.PerChainQueryResponseInternal;
  (** What is on the publication channel, oldest first. *)
  unread : list query.QueryResponsePublication;
  (** Everything that was ever put on the channels of the watchers, on the
      response channel and on the publication channel, oldest first. *)
  dispatched : list (ChainID * query.PerChainQueryInternal);
  reported : list query.PerChainQueryResponseInternal;
  published : list query.QueryResponsePublication;
  (** The requests the handler gave up. *)
  failures : list (query.RequestID * Failure);
}.

(** The environment of a test before anything is sent. *)
Definition testStart (m : mockData) : TestEnv :=
  {| pendingStore := ∅; md := m; queued := []; answers := []; unread := [];
     dispatched := []; reported := []; published := []; failures := [] |}.

(** What the handler emits goes where the channels lead. *)
Definition emit (h : TestEnv) (out : Output) : TestEnv :=
  match out with
  | Dispatch queue pcq =>
      {| pendingStore := pendingStore h; md := md h;
         queued := queued h ++ [(queue, pcq)]; answers := answers h; unread := unread h;
         dispatched := dispatched h ++ [(queue, pcq)]; reported := reported h;
         published := published h; failures := failures h |}
  | Publish pub =>
      {| pendingStore := pendingStore h; md := md h;
         queued := queued h; answers := answers h; unread := unread h ++ [pub];
         dispatched := dispatched h; reported := reported h;
         published := published h ++ [pub]; failures := failures h |}
  | Failed id why =>
      {| pendingStore := pendingStore h; md := md h;
         queued := queued h; answers := answers h; unread := unread h;
         dispatched := dispatched h; reported := reported h;
         published := published h; failures := failures h ++ [(id, why)] |}
  end.

Definition absorb (outs : list Output) (h : TestEnv) : TestEnv := foldl emit h outs.

Definition withStore (store : gmap query.RequestID PendingQuery) (h : TestEnv) : TestEnv :=
  {| pendingStore := store; md := md h; queued := queued h; answers := answers h;
     unread := unread h; dispatched := dispatched h; reported := reported h;
     published := published h; failures := failures h |}.

(** The oldest sub-query on the channel of [chainId], and what stays on the
    channels. *)
Fixpoint takeFor (chainId : ChainID) (l : list (ChainID * query.PerChainQueryInternal))
    : option (query.PerChainQueryInternal * list (ChainID * query.PerChainQueryInternal)) :=
  match l with
  | [] => None
  | item :: rest =>
      if (item.1 =? chainId)%N then Some (item.2, rest)
      else
        match takeFor chainId rest with
        | Some (pcqr, rest') => Some (pcqr, item :: rest')
        | None => None
        end
  end.

Section TestEnvironment.
Variable RequestIDOf : Bytes -> query.RequestID.
Variable cfg : Config.

(** The watcher routine of [chainId] takes a sub-query from its channel:
    the mock changes, and the answer, if there is one, goes on the response
    channel.  With nothing on its channel the routine goes on waiting. *)
Definition watcherTurn (chainId : ChainID) (h : TestEnv) : option TestEnv :=
  match takeFor chainId (queued h) with
  | None => Some h
  | Some (pcqr, rest) =>
      match watcher chainId pcqr (md h) with
      | None => None
      | Some (m, response) =>
          Some {| pendingStore := pendingStore h; md := m; queued := rest;
                  answers := answers h ++ option_list response; unread := unread h;
                  dispatched := dispatched h;
                  reported := reported h ++ option_list response;
                  published := published h; failures := failures h |}
      end
  end.

(** The handler takes an answer from the response channel, at time [now]. *)
Definition handlerTurn (now : Z) (h : TestEnv) : TestEnv :=
  match answers h with
  | [] => h
  | response :: rest =>
      let '(store, outs) := handleResponse cfg now response (pendingStore h) in
      absorb outs
        {| pendingStore := store; md := md h; queued := queued h; answers := rest;
           unread := unread h; dispatched := dispatched h; reported := reported h;
           published := published h; failures := failures h |}
  end.

(** The audit timer fires at time [now]. *)
Definition auditTurn (now : Z) (h : TestEnv) : TestEnv :=
  let '(store, outs) := auditSweep cfg now (pendingStore h) in
  absorb outs (withStore store h).

(** The response listener takes a publication from its channel. *)
Definition listenerTurn (h : TestEnv) : TestEnv :=
  match unread h with
  | [] => h
  | qrp :: rest =>
      {| pendingStore := pendingStore h; md := startResponseListener qrp (md h);
         queued := queued h; answers := answers h; unread := rest;
         dispatched := dispatched h; reported := reported h;
         published := published h; failures := failures h |}
  end.

(** One turn.  [None]: a watcher stopped the test. *)
Definition turn (t : Turn) (h : TestEnv) : option TestEnv :=
  match t with
  | WatcherTurn chainId => watcherTurn chainId h
  | HandlerTurn now => Some (handlerTurn now h)
  | AuditTurn now => Some (auditTurn now h)
  | ListenerTurn => Some (listenerTurn h)
  end.

Fixpoint runSchedule (sched : list Turn) (h : TestEnv) : option TestEnv :=
  match sched with
  | [] => Some h
  | t :: rest =>
      match turn t h with
      | None => None
      | Some h' => runSchedule rest h'
      end
  end.

(** A request reaches the handler at time [now]. *)
Definition submit (now : Z) (signedRequest : gossipv1.SignedQueryRequest)
    (queryRequest : query.QueryRequest) (h : TestEnv) : TestEnv :=
  let '(store, outs) :=
    handleRequest RequestIDOf cfg now signedRequest queryRequest (pendingStore h) in
  absorb outs (withStore store h).

(** A test: the mock as the test set it up, one request sent at time
    [now], and the routines taking turns as the schedule says. *)
Definition runTest (sched : list Turn) (m : mockData) (now : Z)
    (signedRequest : gossipv1.SignedQueryRequest) (queryRequest : query.QueryRequest)
    : option TestEnv :=
  runSchedule sched (submit now signedRequest queryRequest (testStart m)).

(** *** When a schedule is timely

    An audit tick at [now] is timely for a pending query when its deadline
    has not passed and, if more than the retry interval has passed since the
    query was last dispatched, none of its sub-queries is on its way:
    nothing is on the channels of the watchers and nothing on the response
    channel. *)
Definition idle (h : TestEnv) : bool :=
  match queued h, answers h with
  | [], [] => true
  | _, _ => false
  end.

Definition timelyFor (now : Z) (h : TestEnv) (pq : PendingQuery) : bool :=
  (now - createdAt pq <=? requestTimeout cfg)
  && ((now - lastRetryAt pq <=? retryInterval cfg) || idle h).

Definition timelyAudit (now : Z) (h : TestEnv) : bool :=
  forallb (fun entry => timelyFor now h entry.2) (map_to_list (pendingStore h)).

(** A schedule is timely from [h] on when each of its audit ticks is, in
    the state in which it fires. *)
Fixpoint timely (sched : list Turn) (h : TestEnv) : bool :=
  match sched with
  | [] => true
  | t :: rest =>
      match t with
      | AuditTurn now => timelyAudit now h
      | _ => true
      end
      && match turn t h with
         | Some h' => timely rest h'
         | None => true
         end
  end.

End TestEnvironment.

(** How often sub-query [idx] was put on a watcher's channel. *)
Definition dispatchesOf (idx : nat) (h : TestEnv) : nat :=
  length (filter (fun item => query.RequestIdx_ item.2 = idx) (dispatched h)).

(** What the watcher answered to sub-query [idx], oldest first. *)
Definition reportsOf (idx : nat) (h : TestEnv) : list query.QueryStatus :=
  query.Status <$> filter (fun r => query.RespRequestIdx r = idx) (reported h).

(** A mock without magic values: no watcher is told to report a fatal error
    or to ignore a query, nor to retry the least [int] times, which the
    count-down turns into a fatal error. *)
Definition steady (m : mockData) : Prop :=
  forall chainId val, retriesPerChain m !! chainId = Some val ->
    - 2 ^ 63 < val < ignoreQuery.

(** ** The node: forwarders and query handler on one channel

    [GuardianOptionQueryHandler] gives the read end of [g.queryResponseC] to
    the query handler, and the forwarders of [GuardianOptionWatchers] write
    to its other end: an answer reaches the orchestrator only if the
    forwarder of the channel it came through has passed it on. *)
Section Node.
Variable cfg : Config.

(** An answer arrives through the response channel of chain [channel]. *)
Definition nodeReceive (channel : ChainID) (now : Z)
    (response : query.PerChainQueryResponseInternal)
    (node : NodeProcess * gmap query.RequestID PendingQuery)
    : NodeProcess * gmap query.RequestID PendingQuery * list Output :=
  let g := forwardQueryResponse channel response node.1 in
  if exited g then (g, node.2, [])
  else
    let '(store, outs) := handleResponse cfg now response node.2 in
    (g, store, outs).

End Node.

(** ** Vocabulary of the orchestrator's properties *)

(** A watcher's successful answer for sub-query [idx] of request [id], on
    chain [c], with payload [payload], is among the events. *)
Definition delivered (evs : list Event) (id : query.RequestID) (idx : nat) (c : ChainID)
    (payload : query.ChainSpecificResponse) : Prop :=
  exists now,
    ResponseArrived now
      (query.CreatePerChainQueryResponseInternal id idx c query.QuerySuccess payload) ∈ evs.

(** The record of sub-query [i] agrees with the request: it sits at its own
    index, on the chain of the query at that index, and a recorded success
    is an answer that was delivered for this index and chain. *)
Definition stateAgrees (evs : list Event) (id : query.RequestID)
    (pcqs : list query.PerChainQueryRequest) (i : nat) (st : PerChainState) : Prop :=
  requestIdx st = i
  /\ (exists pcq, pcqs !! i = Some pcq /\ chainId st = query.ChainId pcq)
  /\ (subStatus st = Success ->
      exists payload,
        result st = Some {| query.RespChainId := chainId st; query.Response := payload |}
        /\ delivered evs id i (chainId st) payload).

Section OrchestratorInvariant.
Variable RequestIDOf : Bytes -> query.RequestID.

(** The invariant of section 3 for one pending query, after the events
    [evs]. *)
Definition pendingAgrees (evs : list Event) (id : query.RequestID) (pq : PendingQuery) : Prop :=
  requestID pq = id
  /\ id = RequestIDOf (gossipv1.QueryRequest (pendingRequest pq))
  /\ (exists now, NewRequest now (pendingRequest pq) (pendingQueries pq) ∈ evs)
  /\ length (perChainState pq) = length (query.PerChainQueries (pendingQueries pq))
  /\ forall i st, perChainState pq !! i = Some st ->
       stateAgrees evs id (query.PerChainQueries (pendingQueries pq)) i st.

Definition storeAgrees (evs : list Event) (store : gmap query.RequestID PendingQuery) : Prop :=
  forall id pq, store !! id = Some pq -> pendingAgrees evs id pq.

(** The position invariant of a publication: it answers a request that was
    submitted, has one response per sub-query of that request, and the
    response at each position is a delivered answer for the sub-query at
    that position, on that sub-query's chain. *)
Definition publicationAgrees (evs : list Event) (pub : query.QueryResponsePublication) : Prop :=
  exists now req,
    NewRequest now (query.PubRequest pub) req ∈ evs
    /\ length (query.PerChainResponses pub) = length (query.PerChainQueries req)
    /\ forall i pcq, query.PerChainQueries req !! i = Some pcq ->
         exists r,
           query.PerChainResponses pub !! i = Some r
           /\ query.RespChainId r = query.ChainId pcq
           /\ delivered evs (RequestIDOf (gossipv1.QueryRequest (query.PubRequest pub)))
                i (query.ChainId pcq) (query.Response r).

End OrchestratorInvariant.

(** ** Vocabulary of the retry scenario

    One request is sent to the test environment at time [sentAt].  The
    definitions below say how the environment and the handler's record of
    the request go together while the request is pending, and what is left
    when it has been answered. *)
Section ScenarioStates.
Variable id : query.RequestID.
Variable signedRequest : gossipv1.SignedQueryRequest.
Variable queryRequest : query.QueryRequest.
Variable expected : list query.PerChainQueryResponse.
Variable sentAt : Z.

Definition payloadAt (i : nat) : query.ChainSpecificResponse :=
  match expected !! i with
  | Some e => query.Response e
  | None => []
  end.

(** Sub-query [i] as it is put on the channel of its chain. *)
Definition workItem (i : nat) (pcq : query.PerChainQueryRequest)
    : ChainID * query.PerChainQueryInternal :=
  (query.ChainId pcq,
   {| query.RequestID_ := id; query.RequestIdx_ := i; query.Request := pcq |}).

(** The answer of the mock watcher to sub-query [i], with status [s]. *)
Definition answerOf (i : nat) (pcq : query.PerChainQueryRequest) (s : query.QueryStatus)
    : query.PerChainQueryResponseInternal :=
  query.CreatePerChainQueryResponseInternal id i (query.ChainId pcq) s (payloadAt i).

Definition ownItem (item : ChainID * query.PerChainQueryInternal) : Prop :=
  exists i pcq, query.PerChainQueries queryRequest !! i = Some pcq /\ item = workItem i pcq.

Definition ownAnswer (r : query.PerChainQueryResponseInternal) : Prop :=
  exists i pcq s,
    query.PerChainQueries queryRequest !! i = Some pcq /\ r = answerOf i pcq s
    /\ s <> query.QueryFatalError.

(** The sub-queries that are on their way: on a watcher's channel, or
    answered and on the response channel. *)
Definition inFlight (h : TestEnv) : list nat :=
  ((fun item => query.RequestIdx_ item.2) <$> queued h)
  ++ (query.RespRequestIdx <$> answers h).

(** The answers to sub-query [i] the handler has not taken yet. *)
Definition awaited (i : nat) (h : TestEnv) : list query.QueryStatus :=
  query.Status <$> filter (fun r => query.RespRequestIdx r = i) (answers h).

(** The handler's record [st] of sub-query [i] goes with the environment:
    the sub-query is on its way exactly when the record says [Pending];
    the watcher has answered [RetryNeeded] some [m] times, followed by
    [QuerySuccess] when the record says so and by what the handler has not
    taken yet otherwise; and the sub-query has been dispatched once for each
    of these retries and once more, unless it is waiting to be sent
    again. *)
Definition subQueryAgrees (h : TestEnv) (i : nat) (pcq : query.PerChainQueryRequest)
    (st : PerChainState) : Prop :=
  chainId st = query.ChainId pcq
  /\ requestIdx st = i
  /\ subStatus st <> FatalError
  /\ (i ∈ inFlight h <-> subStatus st = Pending)
  /\ (subStatus st = Success ->
      result st = Some {| query.RespChainId := query.ChainId pcq;
                          query.Response := payloadAt i |})
  /\ exists m,
       reportsOf i h
       = replicate m query.QueryRetryNeeded
         ++ (if isSuccess st then [query.QuerySuccess] else awaited i h)
       /\ dispatchesOf i h
          = (m + if bool_decide (subStatus st = RetryNeeded) then 0 else 1)%nat.

Definition pendingOf (states : list PerChainState) (last : Z) : PendingQuery :=
  {| requestID := id; pendingRequest := signedRequest; pendingQueries := queryRequest;
     perChainState := states; createdAt := sentAt; lastRetryAt := last |}.

Definition thePublication : query.QueryResponsePublication :=
  {| query.PubRequest := signedRequest; query.PerChainResponses := expected |}.

(** The environment while the request is pending, with the records
    [states] and the time [last] of the last dispatch. *)
Definition runningWith (states : list PerChainState) (last : Z) (h : TestEnv) : Prop :=
  pendingStore h = {[id := pendingOf states last]}
  /\ length states = length (query.PerChainQueries queryRequest)
  /\ (forall i pcq st,
        query.PerChainQueries queryRequest !! i = Some pcq -> states !! i = Some st ->
        subQueryAgrees h i pcq st)
  /\ NoDup (inFlight h)
  /\ Forall ownItem (queued h)
  /\ Forall ownAnswer (answers h)
  /\ Forall ownItem (dispatched h)
  /\ expectedResults (md h) = expected
  /\ steady (md h)
  /\ published h = [] /\ unread h = [] /\ failures h = [].

Definition runningAgrees (h : TestEnv) : Prop :=
  exists states last, runningWith states last h.

(** The environment when the request has been answered. *)
Definition doneAgrees (h : TestEnv) : Prop :=
  pendingStore h = ∅ /\ queued h = [] /\ answers h = []
  /\ failures h = []
  /\ published h = [thePublication]
  /\ (unread h = [thePublication]
      \/ (unread h = [] /\ getQueryResponsePublication (md h) = Some thePublication))
  /\ Forall ownItem (dispatched h)
  /\ forall i pcq,
       query.PerChainQueries queryRequest !! i = Some pcq ->
       exists m,
         reportsOf i h = replicate m query.QueryRetryNeeded ++ [query.QuerySuccess]
         /\ dispatchesOf i h = S m.

End ScenarioStates.

(** The retries the watchers still have to ask for: for each chain with an
    entry in the retry table, the count of the entry, and one for a count
    of zero or below. *)
Definition remainingRetries (m : mockData) : nat :=
  map_fold (fun _ val sum => (Z.to_nat (Z.max 1 val) + sum)%nat) 0%nat (retriesPerChain m).

Definition isAudit (t : Turn) : bool :=
  match t with
  | AuditTurn _ => true
  | _ => false
  end.

(** ** Vocabulary of the further properties *)

(** The decimal form of a chain identifier holds no colon. *)
Fixpoint noColon (s : string) : Prop :=
  match s with
  | EmptyString => True
  | String a s => a <> ":"%char /\ noColon s
  end.


Section ValidatorVocabulary.
Context {PrivateKey : Type}.
Variable QueryRequestDigest : Environment -> Bytes -> Bytes.
Variable Sign : Bytes -> PrivateKey -> Bytes * option goError.

(** The request can get past the signature step: it is signed, or the
    caller may send unsigned requests, a signer key is configured and
    signing succeeds. *)
Definition cosignable (env : Environment) (p : permissionEntry)
    (signerKey : option PrivateKey) (qr : gossipv1.SignedQueryRequest) : Prop :=
  gossipv1.Signature qr <> []
  \/ exists key,
       allowUnsigned p = true /\ signerKey = Some key
       /\ (Sign (QueryRequestDigest env (gossipv1.QueryRequest qr)) key).2 = None.

End ValidatorVocabulary.

(** The status that goes with each error of the validator. *)
Definition statusOf (e : error) : Z :=
  match e with
  | ErrInvalidApiKey | ErrCallNotAuthorized _ => StatusForbidden
  | ErrFailedToSign _ => StatusInternalServerError
  | ErrRequestNotSigned | ErrFailedToUnmarshal _ | ErrFailedToValidate _
  | ErrUnsupportedQueryType => StatusBadRequest
  end.

(** *** The vocabulary of the statements about the message forwarder *)

(** A message that came through the channel of its own chain, from an
    emitter other than the zero address. *)
Definition wellOriginated (a : ChainID * common.MessagePublication) : Prop :=
  common.EmitterChain a.2 = a.1 /\ common.EmitterAddress a.2 <> zeroAddress.

#[global] Instance wellOriginated_dec a : Decision (wellOriginated a).
Proof. unfold wellOriginated. apply _. Defined.

Section MessageVocabulary.
Variable GovernanceEmitter : Bytes.
Variable GovernanceChain : ChainID.

Definition fromGovernance (msg : common.MessagePublication) : Prop :=
  common.EmitterAddress msg = GovernanceEmitter /\ common.EmitterChain msg = GovernanceChain.

Definition forwardable (a : ChainID * common.MessagePublication) : Prop :=
  wellOriginated a /\ ~ fromGovernance a.2.

#[global] Instance forwardable_dec a : Decision (forwardable a).
Proof. unfold forwardable, fromGovernance. apply _. Defined.

End MessageVocabulary.

(** ** Sample data

    Small concrete instances of the library functions and of the
    configuration, on which the statements below are evaluated. *)
Module Sample.
Definition acctA : query.PublicKey := [Byte.x41].
Definition acctB : query.PublicKey := [Byte.x42].

Definition PublicKeyString (pk : query.PublicKey) : string := string_of_list_byte pk.

Definition ChainIDString (c : ChainID) : string :=
  if (c =? 1)%N then "solana" else "chain-" +:+ pretty c.

Definition QueryRequestDigest (env : Environment) (bs : Bytes) : Bytes :=
  match env with MainNet => Byte.x01 | _ => Byte.x02 end :: bs.

(** The key [0] is not a valid scalar: signing with it fails. *)
Definition Sign (digest : Bytes) (key : N) : Bytes * option goError :=
  if (key =? 0)%N then ([], Some "invalid private key")
  else (digest ++ [Byte.x1b], None).

Definition solAccount (accts : list query.PublicKey) : query.PerChainQueryRequest :=
  {| query.ChainId := 1%N;
     query.Query := query.SolanaAccountQuery
       {| query.Commitment := "finalized"; query.MinContextSlot := 0%N;
          query.DataSliceOffset := 0%N; query.DataSliceLength := 0%N;
          query.Accounts := accts |} |}.

Definition solPda (progs : list query.PublicKey) : query.PerChainQueryRequest :=
  {| query.ChainId := 1%N;
     query.Query := query.SolanaPdaQuery
       {| query.PdaCommitment := "finalized"; query.PdaMinContextSlot := 0%N;
          query.PdaDataSliceOffset := 0%N; query.PdaDataSliceLength := 0%N;
          query.PDAs := map (fun p => {| query.ProgramAddress := p; query.Seeds := [] |}) progs |} |}.

(** An [eth_call] query (wire type 1) on chain 2. *)
Definition ethCall : query.PerChainQueryRequest :=
  {| query.ChainId := 2%N; query.Query := query.OtherQuery 1%N [] |}.

Definition request (pcqs : list query.PerChainQueryRequest) : query.QueryRequest :=
  {| query.Nonce := 1%N; query.PerChainQueries := pcqs |}.

(** The requests the sample decoder knows, by the first byte of the
    serialized form. *)
Definition requests : list query.QueryRequest :=
  [ request [solAccount [acctA]];
    request [solAccount [acctA; acctB]];
    request [ethCall; solAccount [acctB]];
    request [solAccount [acctB]; ethCall];
    request [];
    request [solAccount [acctA]; solPda [acctA]] ].

Definition Unmarshal (bs : Bytes) : query.QueryRequest + goError :=
  match bs with
  | [] => inr "unexpected end of input"
  | b :: _ =>
      match requests !! Byte.to_nat b with
      | Some req => inl req
      | None => inr "unsupported message version"
      end
  end.

Definition Validate (req : query.QueryRequest) : option goError :=
  match query.PerChainQueries req with
  | [] => Some "request does not contain any per chain queries"
  | _ => None
  end.

(** One caller, who may submit unsigned requests and is authorized for
    account [acctA] and program [acctA] on chain 1. *)
Definition alice : permissionEntry :=
  {| userName := "alice"; allowUnsigned := true;
     allowedCalls := {[ "solAccount:1:A"; "solPDA:1:A" ]} |}.

Definition perms : Permissions := {| permMap := {[ "key-alice" := alice ]} |}.

Definition noMetrics : Metrics :=
  {| invalidQueryRequestReceived := ∅; totalRequestedCallsByChain := ∅ |}.

Definition signed (b : Byte.byte) : gossipv1.SignedQueryRequest :=
  {| gossipv1.QueryRequest := [b]; gossipv1.Signature := [Byte.x53] |}.

Definition unsigned (b : Byte.byte) : gossipv1.SignedQueryRequest :=
  {| gossipv1.QueryRequest := [b]; gossipv1.Signature := [] |}.

Definition validate (signerKey : option N) (apiKey : string)
    (qr : gossipv1.SignedQueryRequest) (m : Metrics) : Validation :=
  validateRequest QueryRequestDigest Sign Unmarshal Validate PublicKeyString ChainIDString
    GoTest perms signerKey apiKey qr m.
End Sample.

(** The end-to-end scenario of the specification: three chains, one call
    per chain, the second chain asks for retries. *)
Module Scenario.
Definition ChainIDPolygon : ChainID := 5%N.
Definition ChainIDBSC : ChainID := 4%N.
Definition ChainIDArbitrum : ChainID := 23%N.

Definition watcherChainsForTest : list ChainID :=
  [ChainIDPolygon; ChainIDBSC; ChainIDArbitrum].

Definition RequestIDOf (bs : Bytes) : query.RequestID := string_of_list_byte bs.

Definition cfg : Config :=
  {| routes := list_to_set watcherChainsForTest;
     requestTimeout := requestTimeoutForTest;
     retryInterval := retryIntervalForTest;
     auditInterval := auditIntervalForTest |}.

Definition call (c : ChainID) : query.PerChainQueryRequest :=
  {| query.ChainId := c; query.Query := query.OtherQuery 1%N [Byte.x2a] |}.

Definition queryRequest : query.QueryRequest :=
  {| query.Nonce := 1%N; query.PerChainQueries := map call watcherChainsForTest |}.

Definition signedRequest : gossipv1.SignedQueryRequest :=
  {| gossipv1.QueryRequest := [Byte.x71]; gossipv1.Signature := [Byte.x53] |}.

Definition expected : list query.PerChainQueryResponse :=
  [ {| query.RespChainId := ChainIDPolygon; query.Response := [Byte.x0a] |};
    {| query.RespChainId := ChainIDBSC; query.Response := [Byte.x0b] |};
    {| query.RespChainId := ChainIDArbitrum; query.Response := [Byte.x0c] |} ].

Definition mock (retries : Z) : mockData :=
  setRetries ChainIDBSC retries
    (setExpectedResults expected
       (resetState {| queryResponsePublication := None; expectedResults := [];
                      requestsPerChain := ∅; retriesPerChain := ∅ |})).

(** The mock of a test without retries. *)
Definition quiet : mockData :=
  setExpectedResults expected
    (resetState {| queryResponsePublication := None; expectedResults := [];
                   requestsPerChain := ∅; retriesPerChain := ∅ |}).

Definition test (sched : list Turn) (m : mockData) : option TestEnv :=
  runTest RequestIDOf cfg sched m 0 signedRequest queryRequest.

(** Every watcher takes a sub-query, and the handler takes what they
    answered, at time [now]. *)
Definition round (now : Z) : list Turn :=
  map WatcherTurn watcherChainsForTest ++ replicate 3 (HandlerTurn now).

(** A schedule for two retries on BSC: the watchers answer at once; the
    audit timer fires every 10 ms, and at 20 and at 40 it finds the retry
    interval passed and sends the sub-query of BSC again; the listener
    takes the publication at the end. *)
Definition retrying : list Turn :=
  round 1
  ++ [AuditTurn 10; AuditTurn 20; WatcherTurn ChainIDBSC; HandlerTurn 21]
  ++ [AuditTurn 30; AuditTurn 40; WatcherTurn ChainIDBSC; HandlerTurn 41]
  ++ [ListenerTurn].

(** A schedule on which the watchers get their turn only after the audit
    tick at 20 has found the retry interval passed. *)
Definition late : list Turn :=
  [AuditTurn 10; AuditTurn 20] ++ round 21 ++ [ListenerTurn].

(** A schedule on which the watchers of Polygon and Arbitrum get no turn
    before the deadline of the request. *)
Definition starved : list Turn :=
  [WatcherTurn ChainIDBSC; HandlerTurn 1; AuditTurn 101].
End Scenario.

(** Events of the scenario: the request, then the three answers, the last
    chain first. *)
Module Trace.
Definition answer (idx : nat) (c : ChainID) (payload : Bytes)
    : query.PerChainQueryResponseInternal :=
  query.CreatePerChainQueryResponseInternal "q" idx c query.QuerySuccess payload.

Definition events : list Event :=
  [ NewRequest 0 Scenario.signedRequest Scenario.queryRequest;
    ResponseArrived 1 (answer 2 Scenario.ChainIDArbitrum [Byte.x0c]);
    ResponseArrived 2 (answer 0 Scenario.ChainIDPolygon [Byte.x0a]);
    ResponseArrived 3 (answer 1 Scenario.ChainIDBSC [Byte.x0b]) ].

Definition publication : query.QueryResponsePublication :=
  {| query.PubRequest := Scenario.signedRequest;
     query.PerChainResponses := Scenario.expected |}.

(** The request pending, nothing answered yet. *)
Definition pending : PendingQuery :=
  {| requestID := "q"; pendingRequest := Scenario.signedRequest;
     pendingQueries := Scenario.queryRequest;
     perChainState := imap initialState (query.PerChainQueries Scenario.queryRequest);
     createdAt := 0; lastRetryAt := 0 |}.

(** An answer for sub-query 0, which is on Polygon, that names BSC. *)
Definition foreign : query.PerChainQueryResponseInternal :=
  answer 0 Scenario.ChainIDBSC [Byte.x0b].
End Trace.

(** More sample data for the validator: two requests that ask for the same
    calls in another order and with a repetition, and a table in which the
    sample caller has one more call. *)
Module Reordered.
Definition requests : list query.QueryRequest :=
  [ Sample.request [Sample.solAccount [Sample.acctA]; Sample.solPda [Sample.acctA]];
    Sample.request [Sample.solPda [Sample.acctA];
                    Sample.solAccount [Sample.acctA; Sample.acctA]] ].

Definition Unmarshal (bs : Bytes) : query.QueryRequest + goError :=
  match bs with
  | [] => inr "unexpected end of input"
  | b :: _ =>
      match requests !! Byte.to_nat b with
      | Some req => inl req
      | None => inr "unsupported message version"
      end
  end.

Definition alice : permissionEntry :=
  {| userName := "alice"; allowUnsigned := true;
     allowedCalls := {[ "solAccount:1:A"; "solPDA:1:A"; "solAccount:1:B" ]} |}.

Definition perms : Permissions := {| permMap := {[ "key-alice" := alice ]} |}.
End Reordered.

(** Sample messages for the forwarder: the governance emitter is address
    [0x00..04] on chain 1. *)
Module Messages.
Definition GovernanceEmitter : Bytes := replicate 31 Byte.x00 ++ [Byte.x04].
Definition GovernanceChain : ChainID := 1%N.

Definition emitter : Bytes := replicate 31 Byte.x00 ++ [Byte.x2a].

Definition message (chain : ChainID) (address : Bytes) (sequence : N)
    : common.MessagePublication :=
  {| common.TxHash := [Byte.x07]; common.Timestamp := 0; common.Nonce := 0%N;
     common.Sequence := sequence; common.EmitterChain := chain;
     common.EmitterAddress := address; common.Payload := [] |}.

(** Two good messages with a governance message between them. *)
Definition good : list (ChainID * common.MessagePublication) :=
  [ (2%N, message 2%N emitter 1%N);
    (1%N, message 1%N GovernanceEmitter 2%N);
    (1%N, message 1%N emitter 3%N) ].

(** A message of chain 2 on the channel of chain 5. *)
Definition foreign : ChainID * common.MessagePublication := (5%N, message 2%N emitter 4%N).
End Messages.

(** Sample watcher configurations: finalizers are numbers, runnables are
    names, and the sample readiness registry panics on a chain registered
    twice. *)
Module Networks.
Definition WatcherConfig := watchers.WatcherConfig nat string.

Definition MustRegisterReadinessSyncing (chain : ChainID) (registry : list ChainID)
    : option (list ChainID) :=
  if bool_decide (chain ∈ registry) then None else Some (chain :: registry).

Definition ethereum : WatcherConfig :=
  {| watchers.GetNetworkID := "ethereum"; watchers.GetChainID := 2%N;
     watchers.RequiredL1Finalizer := "";
     watchers.Create := fun _ _ => inl (Some 2%nat, "ethereum watcher") |}.

(** A watcher that needs the finalizer of [ethereum] and has none of its
    own. *)
Definition arbitrum : WatcherConfig :=
  {| watchers.GetNetworkID := "arbitrum"; watchers.GetChainID := 23%N;
     watchers.RequiredL1Finalizer := "ethereum";
     watchers.Create := fun l1 _ =>
       match l1 with
       | Some _ => inl (None, "arbitrum watcher")
       | None => inr "no L1 finalizer"
       end |}.

Definition solanaConfirmed : WatcherConfig :=
  {| watchers.GetNetworkID := "solana-confirmed"; watchers.GetChainID := 1%N;
     watchers.RequiredL1Finalizer := "";
     watchers.Create := fun _ _ => inl (None, "solana-confirmed watcher") |}.

Definition solanaFinalized : WatcherConfig :=
  {| watchers.GetNetworkID := "solana-finalized"; watchers.GetChainID := 1%N;
     watchers.RequiredL1Finalizer := "";
     watchers.Create := fun _ _ => inl (None, "solana-finalized watcher") |}.

Definition watcherConfigs : list WatcherConfig :=
  [ solanaConfirmed; solanaFinalized; ethereum; arbitrum ].

Definition start : Setup nat string (list ChainID) := setupStart ∅ ∅ [].

Definition configure (configs : list WatcherConfig)
    : SetupResult nat string (list ChainID) :=
  configureWatchers nat string (list ChainID) MustRegisterReadinessSyncing GoTest configs start.

(** The maps after the walk through [configs], when it goes through. *)
Definition configured (configs : list WatcherConfig) : Setup nat string (list ChainID) :=
  match configure configs with
  | Configured s => s
  | _ => start
  end.
End Networks.

(** Sample mock data: two expected results and no retries. *)
Module Mock.
Definition expected : list query.PerChainQueryResponse :=
  [ {| query.RespChainId := 5%N; query.Response := [Byte.x0a] |};
    {| query.RespChainId := 4%N; query.Response := [Byte.x0b] |} ].

Definition md : mockData :=
  {| queryResponsePublication := None; expectedResults := expected;
     requestsPerChain := ∅; retriesPerChain := ∅ |}.

Definition pcqr (idx : nat) (chain : ChainID) : query.PerChainQueryInternal :=
  {| query.RequestID_ := "request"; query.RequestIdx_ := idx;
     query.Request := {| query.ChainId := chain; query.Query := query.OtherQuery 1%N [] |} |}.
End Mock.

(** * Properties of the validator *)

Lemma pegRequestedAll_invalid labels m :
  invalidQueryRequestReceived (pegRequestedAll labels m) = invalidQueryRequestReceived m.
Proof. revert m. induction labels as [|l ls IH]; intros m; simpl; [done|]. by rewrite IH. Qed.

Lemma pegRequestedAll_requested labels m :
  totalRequestedCallsByChain (pegRequestedAll labels m)
  = IncAll labels (totalRequestedCallsByChain m).
Proof. revert m. induction labels as [|l ls IH]; intros m; simpl; [done|]. by rewrite IH. Qed.

Lemma pegRequestedAll_app ls1 ls2 m :
  pegRequestedAll (ls1 ++ ls2) m = pegRequestedAll ls2 (pegRequestedAll ls1 m).
Proof. unfold pegRequestedAll. by rewrite foldl_app. Qed.

Lemma Inc_counterValue label c : counterValue label (Inc label c) = S (counterValue label c).
Proof. unfold Inc, counterValue at 1. by rewrite lookup_insert_eq. Qed.

Lemma Inc_counterValue_ne label label' c :
  label <> label' -> counterValue label' (Inc label c) = counterValue label' c.
Proof. intros Hne. unfold Inc, counterValue. by rewrite lookup_insert_ne. Qed.

Lemma Inc_neq label c : Inc label c <> c.
Proof.
  intros Heq. pose proof (Inc_counterValue label c) as H. rewrite Heq in H. lia.
Qed.

Section ValidatorFacts.
Context {PrivateKey : Type}.
Variable QueryRequestDigest : Environment -> Bytes -> Bytes.
Variable Sign : Bytes -> PrivateKey -> Bytes * option goError.
Variable Unmarshal : Bytes -> query.QueryRequest + goError.
Variable Validate : query.QueryRequest -> option goError.
Variable PublicKeyString : query.PublicKey -> string.
Variable ChainIDString : ChainID -> string.

Abbreviation callKeyOf := (callKeyOf PublicKeyString).
Abbreviation callKeysOf := (callKeysOf PublicKeyString).
Abbreviation requestCallKeys := (requestCallKeys PublicKeyString).
Abbreviation requestedLabels := (requestedLabels PublicKeyString ChainIDString).
Abbreviation validateCalls := (validateCalls PublicKeyString ChainIDString).
Abbreviation validatePerChainQuery := (validatePerChainQuery PublicKeyString ChainIDString).
Abbreviation validatePerChainQueries := (validatePerChainQueries PublicKeyString ChainIDString).
Abbreviation validateSigned := (validateSigned Unmarshal Validate PublicKeyString ChainIDString).
Abbreviation rejectedAt := (rejectedAt PublicKeyString ChainIDString).
Abbreviation rejectionMetrics := (rejectionMetrics Unmarshal PublicKeyString ChainIDString).
Abbreviation validateRequest :=
  (validateRequest QueryRequestDigest Sign Unmarshal Validate PublicKeyString ChainIDString).

(** *** The inner loop over the accounts of one sub-query *)

Lemma validateCalls_accept {A} (address : A -> query.PublicKey) p tag c accts m st m' :
  validateCalls address p tag c accts m = (st, None, m') ->
  st = StatusOK
  /\ Forall (fun a => callKeyOf tag c (address a) ∈ allowedCalls p) accts
  /\ m' = pegRequestedAll (replicate (length accts) (ChainIDString c)) m.
Proof.
  revert m. induction accts as [|a rest IH]; intros m; simpl.
  - intros [= <- <-]. auto.
  - case_decide as Hin; [|discriminate].
    intros Heq. destruct (IH _ Heq) as (-> & Hall & ->). auto.
Qed.

Lemma validateCalls_reject {A} (address : A -> query.PublicKey) p tag c accts m st e m' :
  validateCalls address p tag c accts m = (st, Some e, m') ->
  st = StatusForbidden
  /\ exists pre a post,
       accts = pre ++ a :: post
       /\ Forall (fun a => callKeyOf tag c (address a) ∈ allowedCalls p) pre
       /\ (callKeyOf tag c (address a) ∉ allowedCalls p)
       /\ e = ErrCallNotAuthorized (callKeyOf tag c (address a))
       /\ m' = pegInvalid "call_not_authorized"
                 (pegRequestedAll (replicate (length pre) (ChainIDString c)) m).
Proof.
  revert m. induction accts as [|a rest IH]; intros m; simpl; [discriminate|].
  case_decide as Hin.
  - intros Heq. destruct (IH _ Heq) as (-> & pre & b & post & -> & Hpre & Hb & -> & ->).
    split; [done|]. exists (a :: pre), b, post. simpl. auto.
  - intros [= <- <- <-]. split; [done|]. exists [], a, rest. simpl. auto.
Qed.

Lemma validateCalls_total {A} (address : A -> query.PublicKey) p tag c accts m :
  (Forall (fun a => callKeyOf tag c (address a) ∈ allowedCalls p) accts
   /\ exists m', validateCalls address p tag c accts m = (StatusOK, None, m'))
  \/ (exists e m', validateCalls address p tag c accts m = (StatusForbidden, Some e, m')).
Proof.
  destruct (validateCalls address p tag c accts m) as [[st [e|]] m'] eqn:Heq.
  - right. apply validateCalls_reject in Heq as [-> _]. eauto.
  - left. apply validateCalls_accept in Heq as (-> & ? & _). eauto.
Qed.

(** *** One sub-query, and the loop over the sub-queries *)

Lemma requestedLabels_replicate pcq :
  requestedLabels pcq
  = replicate (length (callKeysOf pcq)) (ChainIDString (query.ChainId pcq)).
Proof.
  unfold requestedLabels. induction (callKeysOf pcq) as [|k ks IH]; simpl; [done|].
  by rewrite IH.
Qed.

Lemma validatePerChainQuery_accept p pcq m st m' :
  validatePerChainQuery p pcq m = (st, None, m') ->
  st = StatusOK
  /\ isSupported pcq = true
  /\ Forall (fun k => k ∈ allowedCalls p) (callKeysOf pcq)
  /\ m' = pegRequestedAll (requestedLabels pcq) m.
Proof.
  rewrite requestedLabels_replicate.
  unfold validatePerChainQuery, validateSolanaAccountQuery, validateSolanaPdaQuery,
    callKeysOf, isSupported.
  destruct (query.Query pcq) as [q|q|ty pl]; [| |discriminate].
  - intros Heq. apply validateCalls_accept in Heq as (-> & Hall & ->).
    rewrite length_map, Forall_map. auto.
  - intros Heq. apply validateCalls_accept in Heq as (-> & Hall & ->).
    rewrite length_map, Forall_map. auto.
Qed.

Lemma validatePerChainQuery_reject p pcq m st e m' :
  validatePerChainQuery p pcq m = (st, Some e, m') -> rejectedAt p pcq m st e m'.
Proof.
  unfold validatePerChainQuery, validateSolanaAccountQuery, validateSolanaPdaQuery,
    rejectedAt, callKeysOf, isSupported.
  destruct (query.Query pcq) as [q|q|ty pl].
  - intros Heq. right.
    apply validateCalls_reject in Heq as (-> & pre & a & post & Hq & Hpre & Ha & -> & ->).
    do 2 (split; [done|]).
    exists (map (callKeyOf "solAccount" (query.ChainId pcq)) pre),
      (callKeyOf "solAccount" (query.ChainId pcq) a),
      (map (callKeyOf "solAccount" (query.ChainId pcq)) post).
    rewrite Hq, map_app, length_map, Forall_map. simpl. auto.
  - intros Heq. right.
    apply validateCalls_reject in Heq as (-> & pre & a & post & Hq & Hpre & Ha & -> & ->).
    do 2 (split; [done|]).
    exists (map (fun e => callKeyOf "solPDA" (query.ChainId pcq) (query.ProgramAddress e)) pre),
      (callKeyOf "solPDA" (query.ChainId pcq) (query.ProgramAddress a)),
      (map (fun e => callKeyOf "solPDA" (query.ChainId pcq) (query.ProgramAddress e)) post).
    rewrite Hq, map_app, length_map, Forall_map. simpl. auto.
  - intros [= <- <- <-]. left. auto.
Qed.

Lemma validatePerChainQueries_accept p pcqs m st m' :
  validatePerChainQueries p pcqs m = (st, None, m') ->
  st = StatusOK
  /\ forallb isSupported pcqs = true
  /\ Forall (fun k => k ∈ allowedCalls p) (concat (map callKeysOf pcqs))
  /\ m' = pegRequestedAll (concat (map requestedLabels pcqs)) m.
Proof.
  revert m. induction pcqs as [|pcq rest IH]; intros m; simpl.
  - intros [= <- <-]. auto.
  - destruct (validatePerChainQuery p pcq m) as [[st1 [e1|]] m1] eqn:H1; [discriminate|].
    apply validatePerChainQuery_accept in H1 as (_ & Hs & Hk & ->).
    intros Heq. apply IH in Heq as (-> & Hs' & Hk' & ->).
    rewrite Hs, Hs', pegRequestedAll_app, Forall_app. auto.
Qed.

Lemma validatePerChainQueries_reject p pcqs m st e m' :
  validatePerChainQueries p pcqs m = (st, Some e, m') ->
  exists pre pcq post,
    pcqs = pre ++ pcq :: post
    /\ forallb isSupported pre = true
    /\ Forall (fun k => k ∈ allowedCalls p) (concat (map callKeysOf pre))
    /\ rejectedAt p pcq (pegRequestedAll (concat (map requestedLabels pre)) m) st e m'.
Proof.
  revert m. induction pcqs as [|pcq rest IH]; intros m; simpl; [discriminate|].
  destruct (validatePerChainQuery p pcq m) as [[st1 [e1|]] m1] eqn:H1.
  - intros [= <- <- <-]. exists [], pcq, rest. simpl.
    apply validatePerChainQuery_reject in H1. auto.
  - apply validatePerChainQuery_accept in H1 as (_ & Hs & Hk & ->).
    intros Heq. apply IH in Heq as (pre & q & post & -> & Hs' & Hk' & Hrej).
    exists (pcq :: pre), q, post. simpl.
    rewrite Hs, Hs', pegRequestedAll_app, Forall_app. auto.
Qed.

(** *** The validator from the unmarshal step on *)

Lemma validateSigned_frame p qr m : signedRequest (validateSigned p qr m) = qr.
Proof.
  unfold validateSigned.
  destruct (Unmarshal _) as [req|e]; [|done].
  destruct (Validate req); [done|].
  by destruct (validatePerChainQueries _ _ _) as [[st [e|]] m'].
Qed.

Lemma validateSigned_signature_irrelevant p bytes sig1 sig2 m :
  let v1 := validateSigned p {| gossipv1.QueryRequest := bytes; gossipv1.Signature := sig1 |} m in
  let v2 := validateSigned p {| gossipv1.QueryRequest := bytes; gossipv1.Signature := sig2 |} m in
  status v1 = status v2 /\ queryRequest v1 = queryRequest v2 /\ err v1 = err v2
  /\ metrics v1 = metrics v2.
Proof.
  unfold validateSigned; simpl.
  destruct (Unmarshal bytes) as [req|e]; [|done].
  destruct (Validate req); [done|].
  by destruct (validatePerChainQueries _ _ _) as [[st [e|]] m'].
Qed.

Lemma validateSigned_unmarshal_error p qr m e :
  Unmarshal (gossipv1.QueryRequest qr) = inr e ->
  validateSigned p qr m
  = reject StatusBadRequest (ErrFailedToUnmarshal e) "failed_to_unmarshal_request" qr m.
Proof. unfold validateSigned. by intros ->. Qed.

Lemma validateSigned_validate_error p qr m req e :
  Unmarshal (gossipv1.QueryRequest qr) = inl req -> Validate req = Some e ->
  validateSigned p qr m
  = reject StatusBadRequest (ErrFailedToValidate e) "failed_to_validate_request" qr m.
Proof. unfold validateSigned. by intros -> ->. Qed.

Lemma validateSigned_loop p qr m req :
  Unmarshal (gossipv1.QueryRequest qr) = inl req -> Validate req = None ->
  let r := validatePerChainQueries p (query.PerChainQueries req) m in
  validateSigned p qr m
  = match r.1.2 with
    | Some e => {| status := r.1.1; queryRequest := None; err := Some e;
                   signedRequest := qr; metrics := r.2 |}
    | None => {| status := StatusOK; queryRequest := Some req; err := None;
                 signedRequest := qr; metrics := r.2 |}
    end.
Proof.
  unfold validateSigned. intros -> ->. simpl.
  by destruct (validatePerChainQueries _ _ _) as [[st [e|]] m'].
Qed.

(** Status, returned request and error go together: [200] with a request
    and no error, or another status with an error and no request. *)
Lemma validateSigned_outcome p qr m :
  let v := validateSigned p qr m in
  (status v = StatusOK /\ err v = None /\ exists req, queryRequest v = Some req)
  \/ (queryRequest v = None /\ (exists e, err v = Some e)
      /\ (status v = StatusBadRequest \/ status v = StatusForbidden)).
Proof.
  unfold validateSigned.
  destruct (Unmarshal _) as [req|e]; [|right; simpl; eauto].
  destruct (Validate req); [right; simpl; eauto|].
  destruct (validatePerChainQueries _ _ _) as [[st [e|]] m'] eqn:Heq; simpl.
  - right. apply validatePerChainQueries_reject in Heq
      as (pre & pcq & post & _ & _ & _ & [(_ & -> & _)|(_ & -> & _)]); eauto.
  - left. eauto.
Qed.

Lemma validateRequest_outcome env perms signerKey apiKey qr m :
  let v := validateRequest env perms signerKey apiKey qr m in
  (status v = StatusOK /\ err v = None /\ exists req, queryRequest v = Some req)
  \/ (queryRequest v = None /\ (exists e, err v = Some e) /\ status v <> StatusOK).
Proof.
  assert (Hs : forall p qr' m',
    let v := validateSigned p qr' m' in
    (status v = StatusOK /\ err v = None /\ exists req, queryRequest v = Some req)
    \/ (queryRequest v = None /\ (exists e, err v = Some e) /\ status v <> StatusOK)).
  { intros p qr' m'. cbv zeta.
    destruct (validateSigned_outcome p qr' m') as [?|(? & ? & [H|H])];
      [by left|right; rewrite H..]; done. }
  unfold validateRequest.
  destruct (GetUserEntry perms apiKey) as [p|]; [|right; simpl; eauto].
  destruct (gossipv1.Signature qr) as [|b sig]; [|apply Hs].
  destruct (allowUnsigned p), signerKey as [key|]; try (right; simpl; by eauto).
  destruct (Sign _ key) as [sig [e|]]; [right; simpl; by eauto|apply Hs].
Qed.

(** *** Authorization is all or nothing *)

Lemma forallb_isSupported_elem pcqs pcq :
  forallb isSupported pcqs = true -> pcq ∈ pcqs -> isSupported pcq = true.
Proof.
  rewrite forallb_forall. intros Hall Hin. apply Hall. by apply list_elem_of_In.
Qed.

(** C1 (as amended).  A signed request that asks for a call the caller has no
    entry for is turned down as a whole: no [QueryRequest] is returned and an
    error is.  The status is 403 or 400: it is 403 when the caller is unknown,
    and when the request passes [Validate] and holds only Solana account and
    PDA queries; it is 400 only when [Validate] fails or the request holds a
    query of another kind. *)
Theorem validateRequest_unauthorized_call_rejected env perms signerKey apiKey qr m req key :
  gossipv1.Signature qr <> [] ->
  Unmarshal (gossipv1.QueryRequest qr) = inl req ->
  key ∈ requestCallKeys req ->
  key ∉ authorizedCalls perms apiKey ->
  let v := validateRequest env perms signerKey apiKey qr m in
  queryRequest v = None
  /\ (exists e, err v = Some e)
  /\ (status v = StatusForbidden \/ status v = StatusBadRequest)
  /\ (GetUserEntry perms apiKey = None -> status v = StatusForbidden)
  /\ (Validate req = None -> forallb isSupported (query.PerChainQueries req) = true ->
      status v = StatusForbidden)
  /\ (status v = StatusBadRequest ->
      Validate req <> None \/ forallb isSupported (query.PerChainQueries req) = false).
Proof.
  intros Hsig Hreq Hkey Hauth. unfold validateRequest, authorizedCalls in *.
  destruct (GetUserEntry perms apiKey) as [p|]; simpl.
  2:{ repeat split; eauto; try discriminate. }
  destruct (gossipv1.Signature qr) as [|b sig]; [done|].
  destruct (Validate req) as [e|] eqn:Hval.
  { rewrite (validateSigned_validate_error _ _ _ _ _ Hreq Hval). simpl.
    repeat split; eauto; try discriminate. }
  rewrite (validateSigned_loop _ _ _ _ Hreq Hval). cbv zeta.
  destruct (validatePerChainQueries p _ m) as [[st [e|]] m'] eqn:Hloop; simpl.
  - apply validatePerChainQueries_reject in Hloop
      as (pre & pcq & post & Hpcqs & _ & _ & [(Hs & -> & _)|(Hs & -> & _)]).
    + repeat split; eauto; try discriminate.
      * intros _ Hall. exfalso.
        assert (isSupported pcq = true) as Hs'.
        { apply (forallb_isSupported_elem _ _ Hall). rewrite Hpcqs, elem_of_app, elem_of_cons. auto. }
        congruence.
      * intros _. right. rewrite Hpcqs, forallb_app. simpl. rewrite Hs.
        by rewrite andb_false_r.
    + repeat split; eauto; discriminate.
  - exfalso. apply validatePerChainQueries_accept in Hloop as (_ & _ & Hall & _).
    rewrite Forall_forall in Hall. by apply Hauth, Hall.
Qed.

(** *** Signatures *)

(** C3.  The validator never looks at the bytes of a signature that is
    present: two requests with the same serialized query and any two
    non-empty signatures get the same status, the same returned request, the
    same error and the same metrics, and each keeps the signature it came
    with.  This holds for a known caller, and for an unknown one as well. *)
Theorem validateRequest_signature_not_verified env perms signerKey apiKey bytes sig1 sig2 m :
  sig1 <> [] -> sig2 <> [] ->
  let v1 := validateRequest env perms signerKey apiKey
              {| gossipv1.QueryRequest := bytes; gossipv1.Signature := sig1 |} m in
  let v2 := validateRequest env perms signerKey apiKey
              {| gossipv1.QueryRequest := bytes; gossipv1.Signature := sig2 |} m in
  status v1 = status v2 /\ queryRequest v1 = queryRequest v2 /\ err v1 = err v2
  /\ metrics v1 = metrics v2
  /\ gossipv1.Signature (signedRequest v1) = sig1
  /\ gossipv1.Signature (signedRequest v2) = sig2.
Proof.
  intros H1 H2. unfold validateRequest.
  destruct (GetUserEntry perms apiKey) as [p|]; [|done]. simpl.
  destruct sig1 as [|b1 s1]; [done|]. destruct sig2 as [|b2 s2]; [done|].
  rewrite !validateSigned_frame. simpl.
  pose proof (validateSigned_signature_irrelevant p bytes (b1 :: s1) (b2 :: s2) m) as H.
  cbv zeta in H. tauto.
Qed.

(** C4.  A request of a known caller that arrives without signature is
    turned down (400, "request not signed") when the caller lacks
    [allowUnsigned] or no signer key is configured.  When both hold, the
    digest of the raw request bytes is signed with the signer key and what
    [Sign] returns is stored in [Signature]; the rest of the validation runs
    on the request so completed, unless [Sign] reports an error. *)
Theorem validateRequest_unsigned env perms signerKey apiKey qr m p :
  GetUserEntry perms apiKey = Some p ->
  gossipv1.Signature qr = [] ->
  let v := validateRequest env perms signerKey apiKey qr m in
  (allowUnsigned p = false \/ signerKey = None ->
   v = reject StatusBadRequest ErrRequestNotSigned "request_not_signed" qr m)
  /\ (forall key, allowUnsigned p = true -> signerKey = Some key ->
      let signed := Sign (QueryRequestDigest env (gossipv1.QueryRequest qr)) key in
      let qr' := {| gossipv1.QueryRequest := gossipv1.QueryRequest qr;
                    gossipv1.Signature := signed.1 |} in
      signedRequest v = qr'
      /\ match signed.2 with
         | Some e => v = reject StatusInternalServerError (ErrFailedToSign e)
                           "failed_to_sign_request" qr' m
         | None => v = validateSigned p qr' m
         end).
Proof.
  intros Hp Hsig. unfold validateRequest. rewrite Hp, Hsig. split.
  - intros [Hu| ->]; [rewrite Hu; done|]. by destruct (allowUnsigned p).
  - intros key -> ->. cbv zeta. destruct (Sign _ key) as [sig [e|]]; simpl.
    + done.
    + by rewrite validateSigned_frame.
Qed.

(** *** The request argument *)

(** C9.  The serialized query is never changed; a request that arrives
    signed comes back as it was; and when the request does come back changed,
    it arrived unsigned from a caller with [allowUnsigned], a signer key is
    configured, and the only change is that [Signature] now holds what [Sign]
    returned for the digest of the request bytes. *)
Theorem validateRequest_frame env perms signerKey apiKey qr m :
  let v := validateRequest env perms signerKey apiKey qr m in
  gossipv1.QueryRequest (signedRequest v) = gossipv1.QueryRequest qr
  /\ (gossipv1.Signature qr <> [] -> signedRequest v = qr)
  /\ (signedRequest v <> qr ->
      gossipv1.Signature qr = []
      /\ exists p key,
           GetUserEntry perms apiKey = Some p /\ allowUnsigned p = true
           /\ signerKey = Some key
           /\ gossipv1.Signature (signedRequest v)
              = (Sign (QueryRequestDigest env (gossipv1.QueryRequest qr)) key).1).
Proof.
  unfold validateRequest.
  destruct (GetUserEntry perms apiKey) as [p|]; [|by simpl].
  destruct qr as [bytes [|b sig]]; simpl.
  - destruct (allowUnsigned p) eqn:Hu, signerKey as [key|]; simpl; try done.
    destruct (Sign _ key) as [sig [e|]] eqn:Hs; simpl;
      rewrite ?validateSigned_frame; simpl.
    all: split; [reflexivity|].
    all: split; [intros H; by destruct H|].
    all: intros _; split; [reflexivity|].
    all: exists p, key; by rewrite Hs.
  - rewrite validateSigned_frame. simpl. done.
Qed.

(** C10.  Co-signing comes before the remaining checks and is not undone
    when one of them fails: for an unsigned request of an [allowUnsigned]
    caller with a signer key configured and [Sign] succeeding, the request
    the caller holds afterwards carries the computed signature, whatever the
    validation answers; a failure to unmarshal or to validate answers 400
    with that signature in place. *)
Theorem validateRequest_cosigned_before_rejection env perms signerKey apiKey qr m p key sig :
  GetUserEntry perms apiKey = Some p ->
  allowUnsigned p = true ->
  signerKey = Some key ->
  gossipv1.Signature qr = [] ->
  Sign (QueryRequestDigest env (gossipv1.QueryRequest qr)) key = (sig, None) ->
  let v := validateRequest env perms signerKey apiKey qr m in
  let qr' := {| gossipv1.QueryRequest := gossipv1.QueryRequest qr;
                gossipv1.Signature := sig |} in
  signedRequest v = qr'
  /\ (sig <> [] -> signedRequest v <> qr)
  /\ (forall e, Unmarshal (gossipv1.QueryRequest qr) = inr e ->
      status v = StatusBadRequest /\ queryRequest v = None
      /\ err v = Some (ErrFailedToUnmarshal e))
  /\ (forall req e, Unmarshal (gossipv1.QueryRequest qr) = inl req -> Validate req = Some e ->
      status v = StatusBadRequest /\ queryRequest v = None
      /\ err v = Some (ErrFailedToValidate e)).
Proof.
  intros Hp Hu Hk Hsig Hsign. unfold validateRequest.
  rewrite Hp, Hsig, Hu, Hk, Hsign. cbv zeta.
  rewrite validateSigned_frame. split; [done|]. split.
  { intros Hne Heq. apply Hne. rewrite <- Hsig, <- Heq. done. }
  split.
  - intros e He. by rewrite (validateSigned_unmarshal_error _ _ _ e).
  - intros req e Hreq He. by rewrite (validateSigned_validate_error _ _ _ req e).
Qed.

(** *** Accepted requests, malformed requests *)

Lemma validateSigned_accept_inv p qr m :
  err (validateSigned p qr m) = None ->
  exists req,
    Unmarshal (gossipv1.QueryRequest qr) = inl req /\ Validate req = None
    /\ forallb isSupported (query.PerChainQueries req) = true
    /\ Forall (fun k => k ∈ allowedCalls p) (requestCallKeys req)
    /\ validateSigned p qr m
       = {| status := StatusOK; queryRequest := Some req; err := None; signedRequest := qr;
            metrics := pegRequestedAll (concat (map requestedLabels (query.PerChainQueries req))) m |}.
Proof.
  unfold validateSigned.
  destruct (Unmarshal _) as [req|e]; [|discriminate].
  destruct (Validate req) eqn:Hval; [discriminate|].
  destruct (validatePerChainQueries _ _ _) as [[st [e|]] m'] eqn:Hloop; [discriminate|].
  intros _. apply validatePerChainQueries_accept in Hloop as (_ & Hs & Hk & ->).
  exists req. auto.
Qed.

Lemma validateRequest_accept_inv env perms signerKey apiKey qr m :
  let v := validateRequest env perms signerKey apiKey qr m in
  err v = None ->
  exists p req,
    GetUserEntry perms apiKey = Some p
    /\ Unmarshal (gossipv1.QueryRequest qr) = inl req /\ Validate req = None
    /\ forallb isSupported (query.PerChainQueries req) = true
    /\ Forall (fun k => k ∈ allowedCalls p) (requestCallKeys req)
    /\ status v = StatusOK /\ queryRequest v = Some req
    /\ metrics v
       = pegRequestedAll (concat (map requestedLabels (query.PerChainQueries req))) m.
Proof.
  unfold validateRequest.
  destruct (GetUserEntry perms apiKey) as [p|]; [|discriminate].
  assert (Hs : forall qr', gossipv1.QueryRequest qr' = gossipv1.QueryRequest qr ->
    let v := validateSigned p qr' m in
    err v = None ->
    exists p0 req,
      Some p = Some p0
      /\ Unmarshal (gossipv1.QueryRequest qr) = inl req /\ Validate req = None
      /\ forallb isSupported (query.PerChainQueries req) = true
      /\ Forall (fun k => k ∈ allowedCalls p0) (requestCallKeys req)
      /\ status v = StatusOK /\ queryRequest v = Some req
      /\ metrics v
         = pegRequestedAll (concat (map requestedLabels (query.PerChainQueries req))) m).
  { intros qr' Hb. cbv zeta. intros He.
    apply validateSigned_accept_inv in He as (req & Hu & Hv & Hsup & Hk & ->).
    rewrite Hb in Hu. exists p, req. simpl. auto 10. }
  destruct (gossipv1.Signature qr) as [|b sig]; [|by apply Hs].
  destruct (allowUnsigned p), signerKey as [key|]; try discriminate.
  destruct (Sign _ key) as [sig [e|]]; [discriminate|]. by apply Hs.
Qed.

(** The sub-queries before the first one of another kind pass when all
    their calls are authorized, and the loop then stops at that one. *)
Lemma validateCalls_authorized {A} (address : A -> query.PublicKey) p tag c accts m :
  Forall (fun a => callKeyOf tag c (address a) ∈ allowedCalls p) accts ->
  validateCalls address p tag c accts m
  = (StatusOK, None, pegRequestedAll (replicate (length accts) (ChainIDString c)) m).
Proof.
  intros Hall. destruct (validateCalls address p tag c accts m) as [[st [e|]] m'] eqn:Heq.
  - exfalso. apply validateCalls_reject in Heq as (_ & pre & a & post & -> & _ & Ha & _).
    apply Ha. rewrite Forall_app, Forall_cons in Hall. tauto.
  - by apply validateCalls_accept in Heq as (-> & _ & ->).
Qed.

Lemma validatePerChainQueries_authorized_prefix p pre rest m :
  forallb isSupported pre = true ->
  Forall (fun k => k ∈ allowedCalls p) (concat (map callKeysOf pre)) ->
  validatePerChainQueries p (pre ++ rest) m
  = validatePerChainQueries p rest (pegRequestedAll (concat (map requestedLabels pre)) m).
Proof.
  revert m. induction pre as [|pcq pre IH]; intros m; simpl; [done|].
  rewrite andb_true_iff, Forall_app. intros [Hs Hpre] [Hk Hks].
  destruct (validatePerChainQuery p pcq m) as [[st [e|]] m'] eqn:Heq.
  - exfalso. apply validatePerChainQuery_reject in Heq
      as [(Hs' & _)|(_ & _ & kpre & k & kpost & Hkeys & _ & Hnot & _)]; [congruence|].
    apply Hnot. rewrite Hkeys, Forall_app, Forall_cons in Hk. tauto.
  - apply validatePerChainQuery_accept in Heq as (_ & _ & _ & ->).
    rewrite IH, pegRequestedAll_app; auto.
Qed.

(** A loop that has stopped stays stopped when sub-queries are added
    behind, and sub-queries of the supported kinds, one of them with a call
    without entry, are stopped with 403. *)
Lemma validatePerChainQueries_reject_app p pre rest m st e m' :
  validatePerChainQueries p pre m = (st, Some e, m') ->
  validatePerChainQueries p (pre ++ rest) m = (st, Some e, m').
Proof.
  revert m. induction pre as [|pcq pre IH]; intros m; simpl; [discriminate|].
  destruct (validatePerChainQuery p pcq m) as [[st1 [e1|]] m1]; [done|]. apply IH.
Qed.

Lemma validatePerChainQueries_unauthorized p pre m :
  forallb isSupported pre = true ->
  ~ Forall (fun k => k ∈ allowedCalls p) (concat (map callKeysOf pre)) ->
  exists key m',
    validatePerChainQueries p pre m
    = (StatusForbidden, Some (ErrCallNotAuthorized key), m').
Proof.
  intros Hsup Hnot.
  destruct (validatePerChainQueries p pre m) as [[st [e|]] m'] eqn:Hloop.
  - apply validatePerChainQueries_reject in Hloop
      as (pre1 & pcq & post & Hpre & _ & _ & [(Hs & _)|(_ & -> & _ & k & _ & _ & _ & _ & -> & _)]).
    + exfalso. assert (isSupported pcq = true) as Hs'; [|congruence].
      apply (forallb_isSupported_elem _ _ Hsup). rewrite Hpre, elem_of_app, elem_of_cons.
      auto.
    + eauto.
  - apply validatePerChainQueries_accept in Hloop as (_ & _ & Hall & _). done.
Qed.

(** Past the signature step the validator goes on with the same bytes,
    under the signature that came or the one it made. *)
Lemma validateRequest_cosigned env perms signerKey apiKey qr m p :
  GetUserEntry perms apiKey = Some p ->
  cosignable QueryRequestDigest Sign env p signerKey qr ->
  exists qr',
    gossipv1.QueryRequest qr' = gossipv1.QueryRequest qr
    /\ validateRequest env perms signerKey apiKey qr m = validateSigned p qr' m.
Proof.
  intros Hp Hco. unfold validateRequest. rewrite Hp. unfold cosignable in Hco.
  destruct (gossipv1.Signature qr) as [|b sig] eqn:Hsig; [|exists qr; split; reflexivity].
  destruct Hco as [?|(key & -> & -> & Hsign)]; [done|].
  destruct (Sign _ key) as [sig [e|]]; [discriminate|].
  eexists. split; [|reflexivity]. reflexivity.
Qed.

(** C5 (as amended).  A request whose bytes do not unmarshal, whose
    [QueryRequest] fails [Validate], or which holds a query of a kind other
    than the two supported ones is never accepted: no [QueryRequest] is
    returned, an error is, and the status is not 200.  Which status and
    which error is decided by the first check that fails.  An unknown caller
    gets 403; a known caller whose request arrives unsigned gets 400
    "request not signed" when it may not send unsigned requests or no signer
    key is configured, and 500 when signing fails.  Once the request is
    signed, as it came or by the co-signing, the status is 400 when
    unmarshalling or [Validate] fails, with the library's error wrapped in
    the error returned, and 400 "unsupported query type" when every call
    before the first query of another kind is authorized; when a call
    without entry comes first the loop has already stopped there and the
    status is 403. *)
Theorem validateRequest_malformed_rejected env perms signerKey apiKey qr m :
  let v := validateRequest env perms signerKey apiKey qr m in
  let bytes := gossipv1.QueryRequest qr in
  ((exists e, Unmarshal bytes = inr e)
   \/ (exists req, Unmarshal bytes = inl req
         /\ (Validate req <> None
             \/ forallb isSupported (query.PerChainQueries req) = false))) ->
  queryRequest v = None /\ (exists e, err v = Some e) /\ status v <> StatusOK
  /\ (GetUserEntry perms apiKey = None ->
      status v = StatusForbidden /\ err v = Some ErrInvalidApiKey)
  /\ (forall p, GetUserEntry perms apiKey = Some p ->
      (gossipv1.Signature qr = [] -> allowUnsigned p = false \/ signerKey = None ->
       status v = StatusBadRequest /\ err v = Some ErrRequestNotSigned)
      /\ (forall key sig e,
            gossipv1.Signature qr = [] -> allowUnsigned p = true -> signerKey = Some key ->
            Sign (QueryRequestDigest env bytes) key = (sig, Some e) ->
            status v = StatusInternalServerError /\ err v = Some (ErrFailedToSign e))
      /\ (cosignable QueryRequestDigest Sign env p signerKey qr ->
          (status v = StatusBadRequest \/ status v = StatusForbidden)
          /\ (forall e, Unmarshal bytes = inr e ->
              status v = StatusBadRequest /\ err v = Some (ErrFailedToUnmarshal e)
              /\ errorMessage (ErrFailedToUnmarshal e) = "failed to unmarshal request: " +:+ e)
          /\ (forall req e, Unmarshal bytes = inl req -> Validate req = Some e ->
              status v = StatusBadRequest /\ err v = Some (ErrFailedToValidate e)
              /\ errorMessage (ErrFailedToValidate e) = "failed to validate request: " +:+ e)
          /\ (forall req pre pcq post,
                Unmarshal bytes = inl req -> Validate req = None ->
                query.PerChainQueries req = pre ++ pcq :: post ->
                forallb isSupported pre = true -> isSupported pcq = false ->
                (Forall (fun k => k ∈ allowedCalls p) (concat (map callKeysOf pre)) ->
                 status v = StatusBadRequest /\ err v = Some ErrUnsupportedQueryType)
                /\ (~ Forall (fun k => k ∈ allowedCalls p) (concat (map callKeysOf pre)) ->
                    status v = StatusForbidden
                    /\ exists key, err v = Some (ErrCallNotAuthorized key))))).
Proof.
  cbv zeta. intros Hbad.
  assert (err (validateRequest env perms signerKey apiKey qr m) <> None) as Hrej.
  { intros Hacc. apply validateRequest_accept_inv in Hacc
      as (p & req & _ & Hu & Hv & Hs & _).
    destruct Hbad as [[e He]|(req' & Hu' & [Hv'|Hs'])]; congruence. }
  destruct (validateRequest_outcome env perms signerKey apiKey qr m)
    as [(_ & Hacc & _)|(Hq & He & Hst)]; [done|].
  do 3 (split; [done|]). clear Hq He Hst Hrej. split.
  { intros Hp. unfold validateRequest. by rewrite Hp. }
  intros p Hp. split; [|split].
  - intros Hsig Hno. unfold validateRequest. rewrite Hp, Hsig.
    destruct Hno as [-> | ->]; [done|]. by destruct (allowUnsigned p).
  - intros key sig e Hsig Hu Hk Hsign. unfold validateRequest.
    by rewrite Hp, Hsig, Hu, Hk, Hsign.
  - intros Hco.
    destruct (validateRequest_cosigned env perms signerKey apiKey qr m p Hp Hco)
      as (qr' & Hbytes & ->).
    rewrite <- Hbytes. split; [|split; [|split]].
    + destruct (validateSigned_outcome p qr' m) as [(Hok & _)|(_ & _ & Hst)]; [|done].
      exfalso. revert Hok. unfold validateSigned. rewrite Hbytes.
      destruct Hbad as [[e ->]|(req & -> & [Hv|Hs])]; [done| |].
      * by destruct (Validate req).
      * destruct (Validate req); [done|].
        destruct (validatePerChainQueries _ _ _) as [[st [e|]] m'] eqn:Hloop.
        -- apply validatePerChainQueries_reject in Hloop
             as (? & ? & ? & _ & _ & _ & [(_ & -> & _)|(_ & -> & _)]); done.
        -- apply validatePerChainQueries_accept in Hloop as (_ & Hsup & _). congruence.
    + intros e He. by rewrite (validateSigned_unmarshal_error _ _ _ e).
    + intros req e Hu Hv. by rewrite (validateSigned_validate_error _ _ _ req e).
    + intros req pre pcq post Hu Hv Hpcqs Hpre Hpcq.
      rewrite (validateSigned_loop _ _ _ _ Hu Hv). cbv zeta. rewrite Hpcqs. split.
      * intros Hauth.
        rewrite validatePerChainQueries_authorized_prefix by done. simpl.
        unfold validatePerChainQuery. unfold isSupported in Hpcq.
        destruct (query.Query pcq); try discriminate. done.
      * intros Hnot.
        destruct (validatePerChainQueries_unauthorized p pre m Hpre Hnot)
          as (key & m' & Hloop).
        rewrite (validatePerChainQueries_reject_app _ _ _ _ _ _ _ Hloop). simpl. eauto.
Qed.

(** *** Metrics *)

Lemma rejectedAt_metrics p bytes req pre pcq post m st e m' :
  Unmarshal bytes = inl req ->
  query.PerChainQueries req = pre ++ pcq :: post ->
  forallb isSupported pre = true ->
  Forall (fun k => k ∈ allowedCalls p) (concat (map callKeysOf pre)) ->
  rejectedAt p pcq (pegRequestedAll (concat (map requestedLabels pre)) m) st e m' ->
  rejectionMetrics (allowedCalls p) bytes m e m'.
Proof.
  intros Hu Hpcqs Hsup Hauth
    [(Hs & _ & -> & ->)|(Hs & _ & kpre & k & kpost & Hk & Hkpre & Hnot & -> & ->)];
    (split; [simpl; by rewrite !pegRequestedAll_invalid|]).
  - exists req, pre, pcq, post, []. rewrite !app_nil_r.
    do 4 (split; [done|]). split; [done|].
    simpl. by rewrite pegRequestedAll_requested.
  - exists req, pre, pcq, post, kpre.
    do 3 (split; [done|]). split; [by apply Forall_app|].
    split; [split; [done|]; split; [done|]; by exists kpost|].
    simpl. by rewrite <- pegRequestedAll_app, pegRequestedAll_requested.
Qed.

Lemma validateSigned_reject_metrics p qr m e :
  err (validateSigned p qr m) = Some e ->
  rejectionMetrics (allowedCalls p) (gossipv1.QueryRequest qr) m e
    (metrics (validateSigned p qr m)).
Proof.
  unfold validateSigned.
  destruct (Unmarshal _) as [req|e'] eqn:Hu; [|by intros [= <-]].
  destruct (Validate req) eqn:Hval; [by intros [= <-]|].
  destruct (validatePerChainQueries _ _ _) as [[st [e'|]] m'] eqn:Hloop; [|discriminate].
  intros [= <-]. simpl.
  apply validatePerChainQueries_reject in Hloop
    as (pre & pcq & post & Hpcqs & Hsup & Hauth & Hrej).
  eapply rejectedAt_metrics; eauto.
Qed.

(** The place where a list first leaves a predicate is unique. *)
Lemma first_failure_unique {A} (P : A -> Prop) l1 x r1 l2 y r2 :
  l1 ++ x :: r1 = l2 ++ y :: r2 ->
  Forall P l1 -> ~ P x -> Forall P l2 -> ~ P y ->
  l1 = l2 /\ x = y /\ r1 = r2.
Proof.
  revert l2. induction l1 as [|a l1 IH]; intros [|b l2] Heq H1 Hx H2 Hy; simpl in Heq.
  - by injection Heq as -> ->.
  - injection Heq as -> _. apply Forall_cons in H2 as [? _]. done.
  - injection Heq as -> _. apply Forall_cons in H1 as [? _]. done.
  - injection Heq as -> Heq. apply Forall_cons in H1 as [_ H1].
    apply Forall_cons in H2 as [_ H2].
    destruct (IH l2 Heq H1 Hx H2 Hy) as (-> & -> & ->). done.
Qed.

(** [rejectionMetrics] leaves no choice: it fixes both counters. *)
Lemma rejectionMetrics_determined allowed bytes m e m1 m2 :
  rejectionMetrics allowed bytes m e m1 -> rejectionMetrics allowed bytes m e m2 ->
  invalidQueryRequestReceived m1 = invalidQueryRequestReceived m2
  /\ totalRequestedCallsByChain m1 = totalRequestedCallsByChain m2.
Proof.
  intros [Hi1 Ht1] [Hi2 Ht2]. split; [congruence|].
  set (good := fun pcq : query.PerChainQueryRequest =>
                 isSupported pcq = true /\ Forall (fun k => k ∈ allowed) (callKeysOf pcq)).
  assert (forall pre, forallb isSupported pre = true ->
            Forall (fun k => k ∈ allowed) (concat (map callKeysOf pre)) ->
            Forall good pre) as Hgood.
  { induction pre as [|pcq pre IH]; simpl; [constructor|].
    intros [Hs Hpre]%andb_true_iff [Hk Hrest]%Forall_app.
    constructor; [by split|by apply IH]. }
  assert (forall req pre pcq post passed pre' pcq' post' passed',
            query.PerChainQueries req = pre ++ pcq :: post ->
            query.PerChainQueries req = pre' ++ pcq' :: post' ->
            forallb isSupported pre = true -> forallb isSupported pre' = true ->
            Forall (fun k => k ∈ allowed) (concat (map callKeysOf pre) ++ passed) ->
            Forall (fun k => k ∈ allowed) (concat (map callKeysOf pre') ++ passed') ->
            ~ good pcq -> ~ good pcq' ->
            pre = pre' /\ pcq = pcq') as Hsame.
  { intros req pre pcq post passed pre' pcq' post' passed' Hq Hq' Hs Hs'
      [Hk _]%Forall_app [Hk' _]%Forall_app Hbad Hbad'. rewrite Hq in Hq'.
    destruct (first_failure_unique good _ _ _ _ _ _ Hq') as (? & ? & _); auto. }
  destruct e; try congruence.
  - destruct Ht1 as (req & pre & pcq & post & passed & Hu & Hq & Hs & Hk & [Hbad ->] & ->).
    destruct Ht2 as (req' & pre' & pcq' & post' & passed' & Hu' & Hq' & Hs' & Hk'
                     & [Hbad' ->] & ->).
    assert (req' = req) as -> by congruence.
    destruct (Hsame req pre pcq post [] pre' pcq' post' [] Hq Hq' Hs Hs' Hk Hk')
      as [-> ->]; [intros [? _]; congruence..|done].
  - destruct Ht1 as (req & pre & pcq & post & passed & Hu & Hq & Hs & Hk
                     & (_ & Hnot & rest & Hkeys) & ->).
    destruct Ht2 as (req' & pre' & pcq' & post' & passed' & Hu' & Hq' & Hs' & Hk'
                     & (_ & _ & rest' & Hkeys') & ->).
    assert (req' = req) as -> by congruence.
    assert (forall q r ps, callKeysOf q = ps ++ callKey :: r -> ~ good q) as Hbad.
    { intros q r ps Hq0 [_ Hall]. rewrite Hq0 in Hall.
      apply Forall_app in Hall as [_ [? _]%Forall_cons]. done. }
    destruct (Hsame req pre pcq post passed pre' pcq' post' passed' Hq Hq' Hs Hs' Hk Hk')
      as [-> ->]; [by eapply Hbad..|].
    rewrite Hkeys in Hkeys'.
    apply Forall_app in Hk as [_ Hp]. apply Forall_app in Hk' as [_ Hp'].
    destruct (first_failure_unique (fun k => k ∈ allowed) _ _ _ _ _ _ Hkeys')
      as (-> & _); auto.
Qed.

(** C8 (as amended).  Every rejection pegs the failure counter exactly once,
    under the label that names its reason, and an accepted request does not
    peg it.  The requested-calls counter is pegged once per call of an
    accepted request; a rejection before the authorization loop leaves it
    unchanged; a rejection by the loop leaves it pegged once for each call
    that comes before the offending one, that is, for every call of the
    sub-queries before the first one that is of another kind or holds a
    call the caller has no entry for, and for the calls of that sub-query
    before the call turned down, and for no other. *)
Theorem validateRequest_metrics env perms signerKey apiKey qr m :
  let v := validateRequest env perms signerKey apiKey qr m in
  (forall e, err v = Some e ->
     rejectionMetrics (authorizedCalls perms apiKey) (gossipv1.QueryRequest qr) m e
       (metrics v))
  /\ (err v = None ->
      invalidQueryRequestReceived (metrics v) = invalidQueryRequestReceived m
      /\ exists req,
           queryRequest v = Some req
           /\ totalRequestedCallsByChain (metrics v)
              = IncAll (concat (map requestedLabels (query.PerChainQueries req)))
                  (totalRequestedCallsByChain m)).
Proof.
  cbv zeta. split.
  - unfold validateRequest, authorizedCalls.
    destruct (GetUserEntry perms apiKey) as [p|]; [|by intros e [= <-]].
    destruct (gossipv1.Signature qr) as [|b sig];
      [|intros e; apply validateSigned_reject_metrics].
    destruct (allowUnsigned p), signerKey as [key|]; try by intros e [= <-].
    destruct (Sign _ key) as [sig [e'|]]; [by intros e [= <-]|].
    intros e He. by apply validateSigned_reject_metrics in He.
  - intros Hacc. apply validateRequest_accept_inv in Hacc
      as (p & req & _ & _ & _ & _ & _ & _ & Hq & ->).
    rewrite pegRequestedAll_invalid, pegRequestedAll_requested. eauto.
Qed.

End ValidatorFacts.

(** *** The statements on the sample data *)

Example sample_accept :
  let v := Sample.validate None "key-alice" (Sample.signed Byte.x00) Sample.noMetrics in
  status v = 200 /\ queryRequest v = Some (Sample.request [Sample.solAccount [Sample.acctA]]).
Proof. vm_compute. split; reflexivity. Qed.

Lemma sample_keyB_unauthorized : "solAccount:1:B" ∉ authorizedCalls Sample.perms "key-alice".
Proof. vm_compute. intros H. discriminate H. Defined.

Lemma validateRequest_unauthorized_call_rejected_witness :
  let v := Sample.validate None "key-alice" (Sample.signed Byte.x01) Sample.noMetrics in
  queryRequest v = None
  /\ (exists e, err v = Some e)
  /\ (status v = StatusForbidden \/ status v = StatusBadRequest).
Proof.
  pose proof (validateRequest_unauthorized_call_rejected
    Sample.QueryRequestDigest Sample.Sign Sample.Unmarshal Sample.Validate
    Sample.PublicKeyString Sample.ChainIDString
    GoTest Sample.perms None "key-alice" (Sample.signed Byte.x01) Sample.noMetrics
    (Sample.request [Sample.solAccount [Sample.acctA; Sample.acctB]])
    "solAccount:1:B") as H.
  cbv zeta in H. unfold Sample.validate.
  destruct H as (H1 & H2 & H3 & _).
  - discriminate.
  - reflexivity.
  - apply list_elem_of_In. vm_compute. auto.
  - exact sample_keyB_unauthorized.
  - auto.
Defined.

(** C1, the claim as first stated, fails: a request in which an [eth_call]
    query comes before the account query is turned down with 400, although
    it asks for a call the caller has no entry for. *)
Lemma validateRequest_unauthorized_call_status_400 :
  let qr := Sample.signed Byte.x02 in
  let req := Sample.request [Sample.ethCall; Sample.solAccount [Sample.acctB]] in
  let v := Sample.validate None "key-alice" qr Sample.noMetrics in
  gossipv1.Signature qr <> []
  /\ Sample.Unmarshal (gossipv1.QueryRequest qr) = inl req
  /\ "solAccount:1:B" ∈ requestCallKeys Sample.PublicKeyString req
  /\ ("solAccount:1:B" ∉ authorizedCalls Sample.perms "key-alice")
  /\ status v = StatusBadRequest
  /\ status v <> StatusForbidden
  /\ err v = Some ErrUnsupportedQueryType.
Proof.
  cbv zeta. split; [discriminate|]. split; [reflexivity|].
  split; [apply list_elem_of_In; vm_compute; auto|].
  split; [exact sample_keyB_unauthorized|].
  split; [reflexivity|]. split; [discriminate|]. reflexivity.
Qed.

Lemma validateRequest_signature_not_verified_witness :
  let v1 := Sample.validate None "key-alice" (Sample.signed Byte.x00) Sample.noMetrics in
  let v2 := Sample.validate None "key-alice"
              {| gossipv1.QueryRequest := [Byte.x00]; gossipv1.Signature := [Byte.x00; Byte.xff] |}
              Sample.noMetrics in
  status v1 = status v2 /\ queryRequest v1 = queryRequest v2 /\ err v1 = err v2
  /\ metrics v1 = metrics v2
  /\ gossipv1.Signature (signedRequest v1) = [Byte.x53]
  /\ gossipv1.Signature (signedRequest v2) = [Byte.x00; Byte.xff].
Proof.
  apply (validateRequest_signature_not_verified
    Sample.QueryRequestDigest Sample.Sign Sample.Unmarshal Sample.Validate
    Sample.PublicKeyString Sample.ChainIDString
    GoTest Sample.perms None "key-alice" [Byte.x00] [Byte.x53] [Byte.x00; Byte.xff]
    Sample.noMetrics); discriminate.
Defined.

Lemma validateRequest_unsigned_witness :
  let qr := Sample.unsigned Byte.x00 in
  let v := Sample.validate (Some 7%N) "key-alice" qr Sample.noMetrics in
  gossipv1.Signature (signedRequest v) = [Byte.x02; Byte.x00; Byte.x1b]
  /\ status v = StatusOK.
Proof.
  pose proof (validateRequest_unsigned
    Sample.QueryRequestDigest Sample.Sign Sample.Unmarshal Sample.Validate
    Sample.PublicKeyString Sample.ChainIDString
    GoTest Sample.perms (Some 7%N) "key-alice" (Sample.unsigned Byte.x00) Sample.noMetrics
    Sample.alice) as H.
  cbv zeta in H. destruct H as [_ H]; [reflexivity|reflexivity|].
  destruct (H 7%N) as [Hqr Hv]; [reflexivity|reflexivity|].
  unfold Sample.validate. split.
  - rewrite Hqr. reflexivity.
  - reflexivity.
Defined.

Lemma validateRequest_malformed_rejected_witness :
  let v := Sample.validate (Some 7%N) "key-alice" (Sample.unsigned Byte.x02)
             Sample.noMetrics in
  queryRequest v = None /\ status v = StatusBadRequest
  /\ err v = Some ErrUnsupportedQueryType.
Proof.
  pose proof (validateRequest_malformed_rejected
    Sample.QueryRequestDigest Sample.Sign Sample.Unmarshal Sample.Validate
    Sample.PublicKeyString Sample.ChainIDString
    GoTest Sample.perms (Some 7%N) "key-alice" (Sample.unsigned Byte.x02)
    Sample.noMetrics) as H.
  cbv zeta in H. unfold Sample.validate.
  destruct H as (H1 & _ & _ & _ & Hknown).
  { right. exists (Sample.request [Sample.ethCall; Sample.solAccount [Sample.acctB]]).
    split; [reflexivity|]. right. reflexivity. }
  destruct (Hknown Sample.alice eq_refl) as (_ & _ & Hsigned).
  destruct Hsigned as (_ & _ & _ & Hkind).
  { right. exists 7%N. split; [reflexivity|]. split; reflexivity. }
  destruct (Hkind (Sample.request [Sample.ethCall; Sample.solAccount [Sample.acctB]])
              [] Sample.ethCall [Sample.solAccount [Sample.acctB]]
              eq_refl eq_refl eq_refl eq_refl eq_refl) as [H400 _].
  destruct H400 as [Hst Herr]; [constructor|].
  split; [exact H1|]. split; [exact Hst|exact Herr].
Defined.

(** C5, the claim as first stated, fails.  A request that holds an
    [eth_call] query, but after an account query the caller has no entry
    for, is answered 403 and not 400; so is a request of an unknown caller,
    whatever its bytes.  And the error is not a generic one: it wraps the
    error of the library, so that two requests that fail to unmarshal for
    different reasons come back with different errors. *)
Lemma validateRequest_malformed_status_and_error_vary :
  let qr := Sample.signed Byte.x03 in
  let req := Sample.request [Sample.solAccount [Sample.acctB]; Sample.ethCall] in
  let v := Sample.validate None "key-alice" qr Sample.noMetrics in
  let stranger := Sample.validate None "key-nobody" (Sample.signed Byte.xff)
                    Sample.noMetrics in
  let truncated := Sample.validate None "key-alice"
                     {| gossipv1.QueryRequest := []; gossipv1.Signature := [Byte.x53] |}
                     Sample.noMetrics in
  let versioned := Sample.validate None "key-alice" (Sample.signed Byte.xff)
                     Sample.noMetrics in
  (Sample.Unmarshal (gossipv1.QueryRequest qr) = inl req
   /\ Sample.Validate req = None
   /\ forallb isSupported (query.PerChainQueries req) = false
   /\ status v = StatusForbidden
   /\ status v <> StatusBadRequest
   /\ queryRequest v = None)
  /\ (Sample.Unmarshal [Byte.xff] = inr "unsupported message version"
      /\ status stranger = StatusForbidden
      /\ status stranger <> StatusBadRequest)
  /\ (errorMessage <$> err truncated
      = Some "failed to unmarshal request: unexpected end of input"
      /\ errorMessage <$> err versioned
         = Some "failed to unmarshal request: unsupported message version"
      /\ err truncated <> err versioned).
Proof.
  cbv zeta. repeat split; try reflexivity; discriminate.
Qed.

(** C8, the claim as first stated, fails in its second half: the request
    for accounts [A] and [B] is turned down for [B], and the requested-calls
    counter of the chain has been pegged for [A] all the same. *)
Lemma validateRequest_rejected_pegs_requested_calls :
  let v := Sample.validate None "key-alice" (Sample.signed Byte.x01) Sample.noMetrics in
  status v = StatusForbidden
  /\ queryRequest v = None
  /\ err v = Some (ErrCallNotAuthorized "solAccount:1:B")
  /\ counterValue "solana" (totalRequestedCallsByChain Sample.noMetrics) = 0%nat
  /\ counterValue "solana" (totalRequestedCallsByChain (metrics v)) = 1%nat
  /\ counterValue "call_not_authorized" (invalidQueryRequestReceived (metrics v)) = 1%nat.
Proof. cbv zeta. vm_compute. repeat split; reflexivity. Qed.

Lemma validateRequest_cosigned_before_rejection_witness :
  let qr := Sample.unsigned Byte.xff in
  let v := Sample.validate (Some 7%N) "key-alice" qr Sample.noMetrics in
  signedRequest v
  = {| gossipv1.QueryRequest := [Byte.xff];
       gossipv1.Signature := [Byte.x02; Byte.xff; Byte.x1b] |}
  /\ status v = StatusBadRequest /\ queryRequest v = None
  /\ err v = Some (ErrFailedToUnmarshal "unsupported message version").
Proof.
  pose proof (validateRequest_cosigned_before_rejection
    Sample.QueryRequestDigest Sample.Sign Sample.Unmarshal Sample.Validate
    Sample.PublicKeyString Sample.ChainIDString
    GoTest Sample.perms (Some 7%N) "key-alice" (Sample.unsigned Byte.xff) Sample.noMetrics
    Sample.alice 7%N [Byte.x02; Byte.xff; Byte.x1b]) as H.
  cbv zeta in H.
  destruct H as (H1 & _ & H3 & _); try reflexivity.
  unfold Sample.validate. split; [exact H1|].
  apply H3. reflexivity.
Defined.

(** * Properties of the forwarder and the orchestrator *)

Lemma forwardQueryResponse_exited channel response g :
  exited g = true -> forwardQueryResponse channel response g = g.
Proof. unfold forwardQueryResponse. by intros ->. Qed.

Lemma forwardAll_exited arrivals g : exited g = true -> forwardAll arrivals g = g.
Proof.
  revert g. induction arrivals as [|a rest IH]; intros g Hg; [done|].
  unfold forwardAll in *. simpl. rewrite forwardQueryResponse_exited by done. by apply IH.
Qed.

Lemma forwardQueryResponse_mismatch channel response g :
  exited g = false -> query.RespChain response <> channel ->
  forwardQueryResponse channel response g
  = {| queryResponseC := queryResponseC g; exited := true |}.
Proof.
  intros Hg Hne. unfold forwardQueryResponse. rewrite Hg.
  destruct (N.eqb_spec (query.RespChain response) channel); [done|reflexivity].
Qed.

Lemma forwardQueryResponse_match channel response g :
  exited g = false -> query.RespChain response = channel ->
  forwardQueryResponse channel response g
  = {| queryResponseC := queryResponseC g ++ [response]; exited := false |}.
Proof.
  intros Hg Heq. unfold forwardQueryResponse. rewrite Hg.
  destruct (N.eqb_spec (query.RespChain response) channel); [reflexivity|done].
Qed.

(** Whatever arrives, every answer on the handler's channel came through
    the channel of its own chain, as long as that held at the start. *)
Lemma forwardAll_only_own_chain (P : query.PerChainQueryResponseInternal -> Prop) arrivals g :
  Forall P (queryResponseC g) ->
  Forall (fun a => query.RespChain a.2 = a.1 -> P a.2) arrivals ->
  Forall P (queryResponseC (forwardAll arrivals g)).
Proof.
  revert g. induction arrivals as [|[c r] rest IH]; intros g Hg Hall; [done|].
  apply Forall_cons in Hall as [Hr Hrest]. unfold forwardAll in *. simpl.
  apply IH; [|done]. unfold forwardQueryResponse.
  destruct (exited g); [done|].
  destruct (N.eqb_spec (query.RespChain r) c) as [Heq|Hne]; simpl; [|done].
  apply Forall_app. split; [done|]. apply Forall_singleton. by apply Hr.
Qed.

(** An answer with a foreign chain ends the process where it arrives:
    neither it nor anything after it is passed on. *)
Lemma forwardAll_mismatch_stops pre channel response post g :
  exited (forwardAll pre g) = false ->
  query.RespChain response <> channel ->
  forwardAll (pre ++ (channel, response) :: post) g
  = {| queryResponseC := queryResponseC (forwardAll pre g); exited := true |}.
Proof.
  intros Hpre Hne. unfold forwardAll in *. rewrite foldl_app. simpl.
  rewrite forwardQueryResponse_mismatch by done.
  by apply (forwardAll_exited post).
Qed.

Section OrchestratorFacts.
Variable RequestIDOf : Bytes -> query.RequestID.
Variable cfg : Config.

Abbreviation handleRequest := (handleRequest RequestIDOf cfg).
Abbreviation handleResponse := (handleResponse cfg).
Abbreviation auditOne := (auditOne cfg).
Abbreviation auditSweep := (auditSweep cfg).
Abbreviation step := (step RequestIDOf cfg).
Abbreviation run := (run RequestIDOf cfg).
Abbreviation nodeReceive := (nodeReceive cfg).
Abbreviation pendingAgrees := (pendingAgrees RequestIDOf).
Abbreviation storeAgrees := (storeAgrees RequestIDOf).
Abbreviation publicationAgrees := (publicationAgrees RequestIDOf).

(** *** A foreign chain is fatal *)

Lemma handleResponse_mismatch now response store pq st :
  store !! query.RespRequestID response = Some pq ->
  perChainState pq !! query.RespRequestIdx response = Some st ->
  query.RespChain response <> chainId st ->
  handleResponse now response store
  = (delete (query.RespRequestID response) store,
     [Failed (query.RespRequestID response) (ChainMismatch (query.RespRequestIdx response))]).
Proof.
  intros Hpq Hst Hne. unfold handleResponse. rewrite Hpq, Hst.
  destruct (N.eqb_spec (query.RespChain response) (chainId st)); [done|reflexivity].
Qed.

(** C6.  An answer arrives for sub-query [idx] of a pending request, and its
    chain is not the chain recorded for that sub-query.  Through a channel
    of another chain than its own it goes no further than the forwarder,
    which ends the process with the store as it was; through the channel of
    its own chain it reaches the orchestrator, which removes the request
    from the store and reports the mismatch.  Either way nothing is
    published, for this request or any other. *)
Theorem chain_mismatch_is_fatal channel now response g store pq st :
  exited g = false ->
  store !! query.RespRequestID response = Some pq ->
  perChainState pq !! query.RespRequestIdx response = Some st ->
  query.RespChain response <> chainId st ->
  let id := query.RespRequestID response in
  let '(g', store', outs) := nodeReceive channel now response (g, store) in
  (forall pub, Publish pub ∉ outs)
  /\ ((channel <> query.RespChain response
       /\ exited g' = true /\ queryResponseC g' = queryResponseC g
       /\ store' = store /\ outs = [])
      \/ (channel = query.RespChain response
          /\ exited g' = false /\ queryResponseC g' = queryResponseC g ++ [response]
          /\ store' !! id = None
          /\ (forall id', id' <> id -> store' !! id' = store !! id')
          /\ outs = [Failed id (ChainMismatch (query.RespRequestIdx response))])).
Proof.
  intros Hg Hpq Hst Hne. cbv zeta. unfold nodeReceive. simpl.
  destruct (decide (query.RespChain response = channel)) as [Heq|Hch].
  - rewrite forwardQueryResponse_match by done. simpl.
    rewrite (handleResponse_mismatch _ _ _ _ _ Hpq Hst Hne). split.
    + intros pub Hin. apply list_elem_of_singleton in Hin. discriminate.
    + right. split; [done|]. split; [done|]. split; [done|].
      split; [apply lookup_delete_eq|]. split; [|done].
      intros id' Hid. by apply lookup_delete_ne.
  - rewrite forwardQueryResponse_mismatch by done. simpl. split.
    + intros pub Hin. by apply not_elem_of_nil in Hin.
    + left. auto.
Qed.

(** *** The position invariant *)

Lemma delivered_mono evs more id idx c payload :
  delivered evs id idx c payload -> delivered (evs ++ more) id idx c payload.
Proof. intros [now H]. exists now. apply elem_of_app. by left. Qed.

Lemma stateAgrees_mono evs more id pcqs i st :
  stateAgrees evs id pcqs i st -> stateAgrees (evs ++ more) id pcqs i st.
Proof.
  intros (Hi & Hq & Hs). split; [done|]. split; [done|].
  intros Hsucc. destruct (Hs Hsucc) as (payload & Hr & Hd).
  exists payload. split; [done|]. by apply delivered_mono.
Qed.

Lemma pendingAgrees_mono evs more id pq :
  pendingAgrees evs id pq -> pendingAgrees (evs ++ more) id pq.
Proof.
  intros (H1 & H2 & [now H3] & H4 & H5). split; [done|]. split; [done|]. split.
  { exists now. apply elem_of_app. by left. }
  split; [done|]. intros i st Hst. by apply stateAgrees_mono, H5.
Qed.

Lemma storeAgrees_mono evs more store :
  storeAgrees evs store -> storeAgrees (evs ++ more) store.
Proof. intros H id pq Hpq. by apply pendingAgrees_mono, H. Qed.

Lemma publicationAgrees_mono evs more pub :
  publicationAgrees evs pub -> publicationAgrees (evs ++ more) pub.
Proof.
  intros (now & req & Hin & Hlen & Hall). exists now, req.
  split; [apply elem_of_app; by left|]. split; [done|].
  intros i pcq Hq. destruct (Hall i pcq Hq) as (r & Hr & Hc & Hd).
  exists r. split; [done|]. split; [done|]. by apply delivered_mono.
Qed.

Lemma stateAgrees_retried evs id pcqs i st status :
  status <> Success -> stateAgrees evs id pcqs i st ->
  stateAgrees evs id pcqs i (retried status st).
Proof. intros Hne (Hi & Hq & _). split; [done|]. split; [done|]. simpl. done. Qed.

Lemma stateAgrees_initial evs id pcqs i pcq :
  pcqs !! i = Some pcq -> stateAgrees evs id pcqs i (initialState i pcq).
Proof.
  intros Hq. split; [done|]. split; [by exists pcq|]. simpl. discriminate.
Qed.

(** The states of a pending query with one of them replaced. *)
Lemma pendingAgrees_update evs id pq idx st' last :
  pendingAgrees evs id pq ->
  stateAgrees evs id (query.PerChainQueries (pendingQueries pq)) idx st' ->
  pendingAgrees evs id (withStates (<[idx := st']> (perChainState pq)) last pq).
Proof.
  intros (H1 & H2 & H3 & H4 & H5) Hst'. split; [done|]. split; [done|]. split; [done|].
  simpl. split; [by rewrite length_insert|].
  intros i st Hi. destruct (decide (i = idx)) as [->|Hne].
  - apply list_lookup_insert_Some in Hi as [(_ & <- & _)|(? & _)]; done.
  - rewrite list_lookup_insert_ne in Hi by done. by apply H5.
Qed.

(** When every sub-query is a success, the results line up with the
    states. *)
Lemma omap_result_all_success states :
  forallb isSuccess states = true ->
  (forall i st, states !! i = Some st -> subStatus st = Success -> is_Some (result st)) ->
  Forall2 (fun st r => result st = Some r) states (omap result states).
Proof.
  induction states as [|st rest IH]; intros Hall Hres; [constructor|].
  simpl in Hall. apply andb_true_iff in Hall as [Hst Hrest].
  unfold isSuccess in Hst. apply bool_decide_eq_true in Hst.
  destruct (Hres 0%nat st eq_refl Hst) as [r Hr]. simpl. rewrite Hr.
  constructor; [done|]. apply IH; [done|].
  intros i st' Hi. by apply (Hres (S i)).
Qed.

Lemma buildPublication_agrees evs id pq :
  pendingAgrees evs id pq ->
  forallb isSuccess (perChainState pq) = true ->
  publicationAgrees evs (buildPublication pq).
Proof.
  intros (H1 & H2 & [now H3] & H4 & H5) Hall.
  assert (Forall2 (fun st r => result st = Some r) (perChainState pq)
            (omap result (perChainState pq))) as HF.
  { apply omap_result_all_success; [done|].
    intros i st Hi Hs. destruct (H5 i st Hi) as (_ & _ & Hr).
    destruct (Hr Hs) as (payload & -> & _). by eexists. }
  exists now, (pendingQueries pq). simpl. split; [done|]. split.
  { rewrite <- H4. symmetry. by eapply Forall2_length. }
  intros i pcq Hq.
  destruct (lookup_lt_is_Some_2 (perChainState pq) i) as [st Hst].
  { rewrite H4. by eapply lookup_lt_Some. }
  destruct (Forall2_lookup_l _ _ _ _ _ HF Hst) as (r & Hr & Hres).
  destruct (H5 i st Hst) as (_ & (pcq' & Hq' & Hc) & Hsucc).
  assert (subStatus st = Success) as Hs.
  { pose proof (proj1 (forallb_forall _ _) Hall st) as Hx.
    unfold isSuccess in Hx. eapply bool_decide_eq_true_1, Hx.
    apply list_elem_of_In. by apply list_elem_of_lookup_2 with i. }
  destruct (Hsucc Hs) as (payload & Hres' & Hd).
  rewrite Hres in Hres'. injection Hres' as ->.
  assert (pcq' = pcq) as -> by congruence.
  exists {| query.RespChainId := chainId st; query.Response := payload |}.
  simpl. split; [done|]. split; [done|]. rewrite <- H2, <- Hc. done.
Qed.

Lemma storeAgrees_delete evs id store :
  storeAgrees evs store -> storeAgrees evs (delete id store).
Proof.
  intros H id' pq Hpq. apply lookup_delete_Some in Hpq as [_ Hpq]. by apply H.
Qed.

Lemma storeAgrees_insert evs id pq store :
  storeAgrees evs store -> pendingAgrees evs id pq -> storeAgrees evs (<[id := pq]> store).
Proof.
  intros H Hpq id' pq' Hin. apply lookup_insert_Some in Hin as [[<- <-]|[_ Hin]]; [done|].
  by apply H.
Qed.

Lemma redispatch_no_publish pq idx pub : Publish pub ∉ redispatch pq idx.
Proof.
  unfold redispatch. destruct (_ !! idx); [|apply not_elem_of_nil].
  intros Hin. apply list_elem_of_singleton in Hin. discriminate.
Qed.

Lemma handleRequest_agrees evs now signedRequest queryRequest store :
  storeAgrees evs store ->
  let ev := NewRequest now signedRequest queryRequest in
  storeAgrees (evs ++ [ev]) (handleRequest now signedRequest queryRequest store).1
  /\ forall pub, Publish pub ∉ (handleRequest now signedRequest queryRequest store).2.
Proof.
  intros Hstore. cbv zeta. unfold handleRequest.
  destruct (store !! _) as [old|] eqn:Hold; simpl.
  { split; [by apply storeAgrees_mono|].
    intros pub Hin. apply list_elem_of_singleton in Hin. discriminate. }
  destruct (forallb _ _); simpl.
  2:{ split; [by apply storeAgrees_mono|].
      intros pub Hin. apply list_elem_of_singleton in Hin. discriminate. }
  split.
  - apply storeAgrees_insert; [by apply storeAgrees_mono|].
    split; [done|]. split; [done|]. simpl. split.
    { exists now. apply elem_of_app. right. by apply list_elem_of_singleton. }
    split; [apply length_imap|].
    intros i st Hi. rewrite list_lookup_imap in Hi.
    destruct (query.PerChainQueries queryRequest !! i) as [pcq|] eqn:Hq; [|discriminate].
    injection Hi as <-. by apply stateAgrees_initial.
  - intros pub Hin. apply list_elem_of_lookup in Hin as [i Hi].
    rewrite list_lookup_imap in Hi.
    destruct (query.PerChainQueries queryRequest !! i); discriminate.
Qed.

Lemma handleResponse_agrees evs now response store :
  storeAgrees evs store ->
  let ev := ResponseArrived now response in
  storeAgrees (evs ++ [ev]) (handleResponse now response store).1
  /\ forall pub, Publish pub ∈ (handleResponse now response store).2 ->
       publicationAgrees (evs ++ [ev]) pub.
Proof.
  intros Hstore. cbv zeta.
  assert (storeAgrees (evs ++ [ResponseArrived now response]) store) as Hstore'
    by by apply storeAgrees_mono.
  assert (forall id why pub, Publish pub ∈ [Failed id why] -> False) as Hfailed.
  { intros id why pub Hin. apply list_elem_of_singleton in Hin. discriminate. }
  unfold handleResponse.
  destruct (store !! query.RespRequestID response) as [pq|] eqn:Hpq; simpl.
  2:{ split; [done|]. intros pub Hin. by apply not_elem_of_nil in Hin. }
  pose proof (Hstore' _ _ Hpq) as Hagree.
  destruct (perChainState pq !! query.RespRequestIdx response) as [st|] eqn:Hst; simpl.
  2:{ split; [by apply storeAgrees_delete|]. intros pub Hin. by apply Hfailed in Hin. }
  destruct (N.eqb_spec (query.RespChain response) (chainId st)) as [Hchain|Hchain]; simpl.
  2:{ split; [by apply storeAgrees_delete|]. intros pub Hin. by apply Hfailed in Hin. }
  pose proof Hagree as (_ & _ & _ & _ & Hstates).
  pose proof (Hstates _ _ Hst) as Hstate.
  destruct (query.Status response) eqn:Hstatus.
  - (* success *)
    destruct (isSuccess st) eqn:Hdone; simpl.
    { split; [done|]. intros pub Hin. by apply not_elem_of_nil in Hin. }
    assert (pendingAgrees (evs ++ [ResponseArrived now response]) (query.RespRequestID response)
              (withStates (<[query.RespRequestIdx response := recordSuccess response st]>
                             (perChainState pq)) (lastRetryAt pq) pq)) as Hpq'.
    { apply pendingAgrees_update; [done|].
      destruct Hstate as (Hi & Hq & _). split; [done|]. split; [done|].
      intros _. simpl. exists (query.RespPayload response). rewrite Hchain. split; [done|].
      exists now. apply elem_of_app. right. apply list_elem_of_singleton. f_equal.
      destruct response; simpl in *. unfold query.CreatePerChainQueryResponseInternal.
      by subst. }
    destruct (forallb isSuccess _) eqn:Hall; simpl.
    + split; [by apply storeAgrees_delete|].
      intros pub Hin. apply list_elem_of_singleton in Hin. injection Hin as ->.
      by eapply buildPublication_agrees.
    + split; [by apply storeAgrees_insert|].
      intros pub Hin. by apply not_elem_of_nil in Hin.
  - (* retry needed *)
    destruct (isSuccess st) eqn:Hdone; simpl.
    { split; [done|]. intros pub Hin. by apply not_elem_of_nil in Hin. }
    destruct (retryInterval cfg <? now - lastRetryAt pq); simpl.
    + split.
      * apply storeAgrees_insert; [done|]. apply pendingAgrees_update; [done|].
        by apply stateAgrees_retried.
      * intros pub Hin. by apply redispatch_no_publish in Hin.
    + split.
      * apply storeAgrees_insert; [done|]. apply pendingAgrees_update; [done|].
        by apply stateAgrees_retried.
      * intros pub Hin. by apply not_elem_of_nil in Hin.
  - (* fatal error *)
    split; [by apply storeAgrees_delete|]. intros pub Hin. by apply Hfailed in Hin.
Qed.

Lemma auditOne_agrees evs id now pq pq' :
  pendingAgrees evs id pq -> (auditOne now pq).1 = Some pq' -> pendingAgrees evs id pq'.
Proof.
  intros Hpq. unfold auditOne.
  destruct (requestTimeout cfg <? now - createdAt pq); [discriminate|].
  destruct (retryInterval cfg <? now - lastRetryAt pq); simpl; [|by intros [= <-]].
  intros [= <-]. destruct Hpq as (H1 & H2 & H3 & H4 & H5).
  split; [done|]. split; [done|]. split; [done|]. simpl.
  split; [by rewrite length_map|].
  intros i st Hi.
  change (map ?f ?l) with (f <$> l) in Hi. rewrite list_lookup_fmap in Hi.
  destruct (perChainState pq !! i) as [st0|] eqn:Hst0; [|discriminate].
  injection Hi as <-. specialize (H5 _ _ Hst0).
  destruct (needsRetry st0); [|done]. by apply stateAgrees_retried.
Qed.

Lemma auditOne_no_publish now pq pub : Publish pub ∉ (auditOne now pq).2.
Proof.
  unfold auditOne.
  destruct (requestTimeout cfg <? now - createdAt pq); simpl.
  { intros Hin. apply list_elem_of_singleton in Hin. discriminate. }
  destruct (retryInterval cfg <? now - lastRetryAt pq); simpl; [|apply not_elem_of_nil].
  intros Hin. apply list_elem_of_In, in_concat in Hin as (outs & Houts & Hin).
  apply in_map_iff in Houts as (st & <- & _).
  apply list_elem_of_In in Hin. destruct (needsRetry st).
  - by apply redispatch_no_publish in Hin.
  - by apply not_elem_of_nil in Hin.
Qed.

Lemma auditSweep_agrees evs now store :
  storeAgrees evs store ->
  storeAgrees (evs ++ [AuditTick now]) (auditSweep now store).1
  /\ forall pub, Publish pub ∉ (auditSweep now store).2.
Proof.
  intros Hstore. unfold auditSweep. simpl. split.
  - intros id pq' Hin. rewrite lookup_omap in Hin.
    destruct (store !! id) as [pq|] eqn:Hpq; [|discriminate]. simpl in Hin.
    apply pendingAgrees_mono. eapply auditOne_agrees; [|done]. by apply Hstore.
  - intros pub Hin. apply list_elem_of_In, in_concat in Hin as (outs & Houts & Hin).
    apply in_map_iff in Houts as ([id pq] & <- & _).
    apply list_elem_of_In in Hin. by apply auditOne_no_publish in Hin.
Qed.

Lemma step_agrees evs ev store :
  storeAgrees evs store ->
  storeAgrees (evs ++ [ev]) (step ev store).1
  /\ forall pub, Publish pub ∈ (step ev store).2 -> publicationAgrees (evs ++ [ev]) pub.
Proof.
  intros Hstore. destruct ev as [now sr req|now response|now]; simpl.
  - destruct (handleRequest_agrees evs now sr req store Hstore) as [H1 H2].
    split; [done|]. intros pub Hin. by apply H2 in Hin.
  - by apply handleResponse_agrees.
  - destruct (auditSweep_agrees evs now store Hstore) as [H1 H2].
    split; [done|]. intros pub Hin. by apply H2 in Hin.
Qed.

(** The invariant of the pending queries holds along every run, and every
    publication of the run has the position invariant. *)
Lemma run_agrees evs past store :
  storeAgrees past store ->
  storeAgrees (past ++ evs) (run evs store).1
  /\ forall pub, Publish pub ∈ (run evs store).2 -> publicationAgrees (past ++ evs) pub.
Proof.
  revert past store. induction evs as [|ev rest IH]; intros past store Hstore; simpl.
  { rewrite app_nil_r. split; [done|]. intros pub Hin. by apply not_elem_of_nil in Hin. }
  destruct (step_agrees past ev store Hstore) as [Hs Hp].
  destruct (step ev store) as [store' out]. simpl in Hs, Hp.
  destruct (IH (past ++ [ev]) store' Hs) as [Hs' Hp'].
  destruct (run rest store') as [store'' out']. simpl in *.
  rewrite <- app_assoc in Hs', Hp'. simpl in Hs', Hp'. split; [done|].
  intros pub Hin. apply elem_of_app in Hin as [Hin|Hin].
  - replace (past ++ ev :: rest) with ((past ++ [ev]) ++ rest)
      by (by rewrite <- app_assoc).
    by apply publicationAgrees_mono, Hp.
  - by apply Hp'.
Qed.

(** The pending queries of a run from the empty store keep one record per
    sub-query, each at its index and on its chain. *)
Lemma run_pending_lengths evs id pq :
  (run evs ∅).1 !! id = Some pq ->
  length (perChainState pq) = length (query.PerChainQueries (pendingQueries pq))
  /\ forall i st, perChainState pq !! i = Some st ->
       requestIdx st = i
       /\ exists pcq, query.PerChainQueries (pendingQueries pq) !! i = Some pcq
                      /\ chainId st = query.ChainId pcq.
Proof.
  intros Hpq. destruct (run_agrees evs [] ∅) as [Hs _].
  { intros id' pq' Hin. by rewrite lookup_empty in Hin. }
  destruct (Hs _ _ Hpq) as (_ & _ & _ & Hlen & Hstates). split; [done|].
  intros i st Hst. destruct (Hstates i st Hst) as (Hi & Hq & _). done.
Qed.

(** C2.  Whatever the events and their order, a publication that the
    orchestrator emits answers a request that was submitted, holds exactly
    one response per sub-query of that request, and its response at each
    position is an answer that a watcher delivered for the sub-query at
    that position, on the chain of that sub-query. *)
Theorem publication_position_invariant evs pub :
  Publish pub ∈ (run evs ∅).2 ->
  exists now req,
    NewRequest now (query.PubRequest pub) req ∈ evs
    /\ length (query.PerChainResponses pub) = length (query.PerChainQueries req)
    /\ forall i pcq, query.PerChainQueries req !! i = Some pcq ->
         exists r,
           query.PerChainResponses pub !! i = Some r
           /\ query.RespChainId r = query.ChainId pcq
           /\ delivered evs (RequestIDOf (gossipv1.QueryRequest (query.PubRequest pub)))
                i (query.ChainId pcq) (query.Response r).
Proof.
  intros Hin. destruct (run_agrees evs [] ∅) as [_ Hp].
  { intros id' pq' Hpq. by rewrite lookup_empty in Hpq. }
  exact (Hp pub Hin).
Qed.

End OrchestratorFacts.
(** * The mock watchers and the retry scenario *)

Lemma wrapInt_small z : - 2 ^ 63 <= z < 2 ^ 63 -> wrapInt z = z.
Proof. intros Hz. unfold wrapInt. rewrite Z.mod_small; lia. Qed.

(** *** The orchestrator with one pending query *)

Section SinglePending.
Variable cfg : Config.

Lemma handleResponse_single_success now response pq st :
  perChainState pq !! query.RespRequestIdx response = Some st ->
  query.RespChain response = chainId st ->
  query.Status response = query.QuerySuccess ->
  isSuccess st = false ->
  let id := query.RespRequestID response in
  let pq' := withStates (<[query.RespRequestIdx response := recordSuccess response st]>
                           (perChainState pq)) (lastRetryAt pq) pq in
  handleResponse cfg now response {[id := pq]}
  = if forallb isSuccess (perChainState pq')
    then (∅, [Publish (buildPublication pq')])
    else ({[id := pq']}, []).
Proof.
  intros Hst Hchain Hstatus Hdone. cbv zeta. unfold handleResponse.
  rewrite lookup_singleton_eq, Hst, Hchain, N.eqb_refl, Hstatus, Hdone.
  cbn [negb]. destruct (forallb isSuccess _).
  - by rewrite delete_singleton_eq.
  - by rewrite insert_singleton_eq.
Qed.

Lemma handleResponse_single_retry now response pq st :
  perChainState pq !! query.RespRequestIdx response = Some st ->
  query.RespChain response = chainId st ->
  query.Status response = query.QueryRetryNeeded ->
  isSuccess st = false ->
  now - lastRetryAt pq <= retryInterval cfg ->
  let id := query.RespRequestID response in
  handleResponse cfg now response {[id := pq]}
  = ({[id := withStates (<[query.RespRequestIdx response := retried RetryNeeded st]>
                            (perChainState pq)) (lastRetryAt pq) pq]}, []).
Proof.
  intros Hst Hchain Hstatus Hdone Hlast. cbv zeta. unfold handleResponse.
  rewrite lookup_singleton_eq, Hst, Hchain, N.eqb_refl, Hstatus, Hdone.
  cbn [negb]. destruct (Z.ltb_spec (retryInterval cfg) (now - lastRetryAt pq)); [lia|].
  by rewrite insert_singleton_eq.
Qed.

Lemma handleResponse_single_retry_now now response pq st :
  perChainState pq !! query.RespRequestIdx response = Some st ->
  query.RespChain response = chainId st ->
  query.Status response = query.QueryRetryNeeded ->
  isSuccess st = false ->
  retryInterval cfg < now - lastRetryAt pq ->
  let id := query.RespRequestID response in
  handleResponse cfg now response {[id := pq]}
  = ({[id := withStates (<[query.RespRequestIdx response := retried Pending st]>
                            (perChainState pq)) now pq]},
     redispatch pq (query.RespRequestIdx response)).
Proof.
  intros Hst Hchain Hstatus Hdone Hlast. cbv zeta. unfold handleResponse.
  rewrite lookup_singleton_eq, Hst, Hchain, N.eqb_refl, Hstatus, Hdone.
  cbn [negb]. destruct (Z.ltb_spec (retryInterval cfg) (now - lastRetryAt pq)); [|lia].
  by rewrite insert_singleton_eq.
Qed.

Lemma auditSweep_single now id pq pq' outs :
  auditOne cfg now pq = (Some pq', outs) ->
  auditSweep cfg now {[id := pq]} = ({[id := pq']}, outs).
Proof.
  intros Hone. unfold auditSweep.
  rewrite (omap_singleton_Some _ _ _ pq') by by rewrite Hone.
  rewrite map_to_list_singleton. simpl. rewrite Hone. simpl. by rewrite app_nil_r.
Qed.

End SinglePending.

Lemma validateResponseForTest_passes signedRequest queryRequest expected :
  length (query.PerChainQueries queryRequest) = length expected ->
  validateResponseForTest
    (Some {| query.PubRequest := signedRequest; query.PerChainResponses := expected |})
    signedRequest queryRequest expected = true.
Proof.
  intros Hlen. unfold validateResponseForTest. cbn [query.PubRequest query.PerChainResponses].
  rewrite !bool_decide_eq_true_2 by done.
  rewrite Hlen, Nat.eqb_refl. simpl.
  apply forallb_forall. intros i _. by apply bool_decide_eq_true_2.
Qed.


(** *** Lists *)

Lemma filter_idx_absent {A} (f : A -> nat) (i : nat) (l : list A) :
  i ∉ f <$> l -> filter (fun x => f x = i) l = [].
Proof.
  induction l as [|x l IH]; [done|]. simpl. intros Hnot.
  apply not_elem_of_cons in Hnot as [Hne Hnot].
  rewrite filter_cons_False by done. by apply IH.
Qed.

Lemma count_idx_present {A} (f : A -> nat) (i : nat) (l : list A) :
  NoDup (f <$> l) -> i ∈ f <$> l ->
  length (filter (fun x => f x = i) l) = 1%nat.
Proof.
  induction l as [|x l IH]; [by intros _ ?%elem_of_nil|].
  rewrite fmap_cons. intros [Hx Hl]%NoDup_cons Hin.
  destruct (decide (f x = i)) as [<-|Hne].
  - rewrite filter_cons_True by done. simpl. by rewrite filter_idx_absent.
  - rewrite filter_cons_False by done. apply IH; [done|].
    apply elem_of_cons in Hin as [?|?]; [congruence|done].
Qed.

Lemma NoDup_fmap_filter {A B} (f : A -> B) (P : A -> Prop) `{!forall x, Decision (P x)}
    (l : list A) :
  NoDup (f <$> l) -> NoDup (f <$> filter P l).
Proof.
  induction l as [|x l IH]; simpl; [done|].
  intros [Hx Hl]%NoDup_cons. destruct (decide (P x)).
  - rewrite filter_cons_True by done. simpl. apply NoDup_cons. split; [|by apply IH].
    intros Hin. apply Hx. apply list_elem_of_fmap in Hin as (y & -> & Hy).
    apply list_elem_of_fmap. exists y. split; [done|].
    by apply list_elem_of_filter in Hy as [_ ?].
  - rewrite filter_cons_False by done. by apply IH.
Qed.

Lemma omap_fmap_Some {A B} (f : A -> option B) (l : list A) (l' : list B) :
  f <$> l = Some <$> l' -> omap f l = l'.
Proof.
  revert l'. induction l as [|x l IH]; intros [|y l'] Heq; simpl in *; try done.
  injection Heq as Hx Heq. rewrite Hx. f_equal. by apply IH.
Qed.

Lemma imap_idx_seq {A B} (g : nat -> A -> B) (f : B -> nat) (l : list A) :
  (forall i x, f (g i x) = i) -> f <$> imap g l = seq 0 (length l).
Proof.
  intros Hfg. apply list_eq. intros i.
  rewrite list_lookup_fmap, list_lookup_imap.
  destruct (l !! i) as [x|] eqn:Hx; simpl.
  - rewrite Hfg. symmetry. apply lookup_seq. split; [done|]. by eapply lookup_lt_Some.
  - symmetry. apply lookup_seq_ge. by apply lookup_ge_None.
Qed.

Lemma map_imap {A B C} (f : B -> C) (g : nat -> A -> B) (l : list A) :
  map f (imap g l) = imap (fun i x => f (g i x)) l.
Proof.
  revert g. induction l as [|x l IH]; intros g; simpl; [done|]. f_equal. apply IH.
Qed.

(** *** The channels *)

Lemma takeFor_Some c l pcqr rest :
  takeFor c l = Some (pcqr, rest) ->
  exists pre post, l = pre ++ (c, pcqr) :: post /\ rest = pre ++ post.
Proof.
  revert rest. induction l as [|[c' x] l IH]; intros rest; simpl; [discriminate|].
  destruct (N.eqb_spec c' c) as [->|Hne].
  - intros [= <- <-]. by exists [], l.
  - destruct (takeFor c l) as [[y rest']|]; [|discriminate].
    intros [= <- <-]. destruct (IH rest' eq_refl) as (pre & post & -> & ->).
    by exists ((c', x) :: pre), post.
Qed.

Lemma absorb_dispatches items h :
  absorb (map (fun w => Dispatch w.1 w.2) items) h
  = {| pendingStore := pendingStore h; md := md h; queued := queued h ++ items;
       answers := answers h; unread := unread h; dispatched := dispatched h ++ items;
       reported := reported h; published := published h; failures := failures h |}.
Proof.
  revert h. induction items as [|[queue pcq] items IH]; intros h.
  - simpl. rewrite !app_nil_r. by destruct h.
  - unfold absorb in *. simpl. rewrite IH. simpl. by rewrite <- !app_assoc.
Qed.

(** *** The retry scenario *)

Section RetryScenario.
Variable RequestIDOf : Bytes -> query.RequestID.
Variable cfg : Config.
Variable signedRequest : gossipv1.SignedQueryRequest.
Variable queryRequest : query.QueryRequest.
Variable expected : list query.PerChainQueryResponse.
Variable sentAt : Z.

Abbreviation id := (RequestIDOf (gossipv1.QueryRequest signedRequest)).
Abbreviation pcqs := (query.PerChainQueries queryRequest).

Abbreviation payloadAt := (payloadAt expected).
Abbreviation workItem := (workItem id).
Abbreviation answerOf := (answerOf id expected).
Abbreviation ownItem := (ownItem id queryRequest).
Abbreviation ownAnswer := (ownAnswer id queryRequest expected).
Abbreviation subQueryAgrees := (subQueryAgrees expected).
Abbreviation pendingOf := (pendingOf id signedRequest queryRequest sentAt).
Abbreviation thePublication := (thePublication signedRequest expected).
Abbreviation runningAgrees := (runningAgrees id signedRequest queryRequest expected sentAt).
Abbreviation doneAgrees := (doneAgrees id signedRequest queryRequest expected).
Abbreviation watcherTurn := watcherTurn.
Abbreviation handlerTurn := (handlerTurn cfg).
Abbreviation auditTurn := (auditTurn cfg).
Abbreviation turn := (turn cfg).
Abbreviation runSchedule := (runSchedule cfg).
Abbreviation timelyAudit := (timelyAudit cfg).
Abbreviation timely := (timely cfg).
Abbreviation submit := (submit RequestIDOf cfg).
Abbreviation runTest := (runTest RequestIDOf cfg).

(** Every chain of the request has a worker queue, and the expected
    results are one per sub-query, each on the chain of its sub-query. *)
Hypothesis Hroutes : Forall (fun pcq => query.ChainId pcq ∈ routes cfg) pcqs.
Hypothesis Hexpected : query.RespChainId <$> expected = query.ChainId <$> pcqs.

Lemma expected_length : length expected = length pcqs.
Proof using Hexpected.
  rewrite <- (length_fmap query.RespChainId expected), Hexpected. apply length_fmap.
Qed.

Lemma expected_lookup i pcq :
  pcqs !! i = Some pcq ->
  exists e, expected !! i = Some e /\ query.RespChainId e = query.ChainId pcq.
Proof using Hexpected.
  intros Hq.
  assert ((query.RespChainId <$> expected) !! i = Some (query.ChainId pcq)) as He.
  { rewrite Hexpected, list_lookup_fmap, Hq. done. }
  rewrite list_lookup_fmap in He.
  destruct (expected !! i) as [e|]; [|discriminate]. injection He as He. eauto.
Qed.

(** What a mock without magic values answers. *)
Lemma watcher_answers i pcq m :
  pcqs !! i = Some pcq -> expectedResults m = expected -> steady m ->
  exists m' s,
    watcher (query.ChainId pcq)
      {| query.RequestID_ := id; query.RequestIdx_ := i; query.Request := pcq |} m
    = Some (m', Some (answerOf i pcq s))
    /\ s <> query.QueryFatalError
    /\ expectedResults m' = expected /\ steady m'.
Proof using Hexpected.
  intros Hq He Hsteady. destruct (expected_lookup i pcq Hq) as (e & Hei & _).
  unfold watcher. cbn [query.Request query.RequestIdx_ query.RequestID_].
  rewrite N.eqb_refl. cbn [negb].
  unfold shouldIgnoreAlreadyLocked, getStatusAlreadyLocked, answerOf, payloadAt.
  rewrite Hei.
  change (retriesPerChain (incrementRequestsPerChainAlreadyLocked (query.ChainId pcq) m))
    with (retriesPerChain m).
  destruct (retriesPerChain m !! query.ChainId pcq) as [val|] eqn:Hr.
  - pose proof (Hsteady _ _ Hr) as Hval. unfold ignoreQuery, MaxInt in Hval.
    destruct (Z.eqb_spec val ignoreQuery) as [Heq|_].
    { unfold ignoreQuery, MaxInt in Heq. lia. }
    change (expectedResults (incrementRequestsPerChainAlreadyLocked (query.ChainId pcq) m))
      with (expectedResults m).
    change (retriesPerChain (incrementRequestsPerChainAlreadyLocked (query.ChainId pcq) m))
      with (retriesPerChain m).
    rewrite He, Hei, Hr.
    destruct (Z.eqb_spec val fatalError) as [Heq|_].
    { unfold fatalError, MaxInt in Heq. lia. }
    rewrite wrapInt_small by lia.
    destruct (Z.ltb_spec 0 (val - 1)) as [Hpos|Hzero].
    + eexists _, query.QueryRetryNeeded. split; [reflexivity|]. split; [done|].
      split; [done|]. intros c v. cbn [retriesPerChain withRetries].
      intros [[_ <-]|[_ Hv]]%lookup_insert_Some.
      * unfold ignoreQuery, MaxInt. lia.
      * by apply (Hsteady c).
    + eexists _, query.QueryRetryNeeded. split; [reflexivity|]. split; [done|].
      split; [done|]. intros c v. cbn [retriesPerChain withRetries].
      intros [_ Hv]%lookup_delete_Some. by apply (Hsteady c).
  - change (expectedResults (incrementRequestsPerChainAlreadyLocked (query.ChainId pcq) m))
      with (expectedResults m).
    change (retriesPerChain (incrementRequestsPerChainAlreadyLocked (query.ChainId pcq) m))
      with (retriesPerChain m).
    rewrite He, Hei, Hr.
    eexists _, query.QuerySuccess. split; [reflexivity|]. split; [done|].
    split; [done|]. intros c v Hv. by apply (Hsteady c).
Qed.

(** *** The record of a sub-query and the channels *)

Lemma subQueryAgrees_same h h' j pcq st :
  (j ∈ inFlight h' <-> j ∈ inFlight h) ->
  reportsOf j h' = reportsOf j h -> awaited j h' = awaited j h ->
  dispatchesOf j h' = dispatchesOf j h ->
  subQueryAgrees h j pcq st -> subQueryAgrees h' j pcq st.
Proof.
  intros Hin Hr Ha Hd (Hc & Hi & Hf & Hfl & Hres & m & Hrep & Hdis).
  split; [done|]. split; [done|]. split; [done|]. split; [by rewrite Hin|].
  split; [done|]. exists m. by rewrite Hr, Ha, Hd.
Qed.

Lemma filter_answers_snoc j l (r : query.PerChainQueryResponseInternal) :
  query.Status <$> filter (fun r => query.RespRequestIdx r = j) (l ++ [r])
  = (query.Status <$> filter (fun r => query.RespRequestIdx r = j) l)
    ++ (if decide (query.RespRequestIdx r = j) then [query.Status r] else []).
Proof.
  rewrite filter_app, fmap_app. f_equal.
  destruct (decide (query.RespRequestIdx r = j)).
  - by rewrite filter_cons_True.
  - by rewrite filter_cons_False.
Qed.

Lemma count_items_app j (l items : list (ChainID * query.PerChainQueryInternal)) :
  length (filter (fun item => query.RequestIdx_ item.2 = j) (l ++ items))
  = (length (filter (fun item => query.RequestIdx_ item.2 = j) l)
     + length (filter (fun item => query.RequestIdx_ item.2 = j) items))%nat.
Proof. by rewrite filter_app, length_app. Qed.

(** *** A watcher's turn *)

Lemma watcherTurn_running c h :
  runningAgrees h -> exists h', watcherTurn c h = Some h' /\ runningAgrees h'.
Proof using Hexpected.
  intros Hrun. unfold watcherTurn.
  destruct (takeFor c (queued h)) as [[pcqr rest]|] eqn:Htake; [|by exists h].
  apply takeFor_Some in Htake as (pre & post & Hq & ->).
  destruct Hrun as (states & last & Hstore & Hlen & Hsub & Hnd & Hqueued & Hans & Hdisp
                    & Hexp & Hsteady & Hpub & Hunread & Hfail).
  assert (ownItem (c, pcqr)) as (i & pcq & Hi & Hitem).
  { rewrite Hq in Hqueued. by apply Forall_app in Hqueued as [_ [? _]%Forall_cons]. }
  injection Hitem as -> ->.
  destruct (watcher_answers i pcq (md h) Hi Hexp Hsteady)
    as (m' & s & -> & Hs & Hexp' & Hsteady').
  eexists. split; [reflexivity|].
  set (h' := {| pendingStore := pendingStore h; md := m'; queued := pre ++ post;
                answers := answers h ++ [answerOf i pcq s];
                unread := unread h; dispatched := dispatched h;
                reported := reported h ++ [answerOf i pcq s];
                published := published h; failures := failures h |}).
  change (runningAgrees h').
  assert (inFlight h' ≡ₚ inFlight h) as Hperm.
  { unfold inFlight. subst h'. cbn [queued answers].
    rewrite Hq, !fmap_app, fmap_cons. cbn [fmap list_fmap snd query.RequestIdx_ workItem].
    change (query.RespRequestIdx <$> [answerOf i pcq s]) with [i].
    rewrite <- (Permutation_middle ((fun item => query.RequestIdx_ item.2) <$> pre) _ i).
    rewrite app_assoc, <- Permutation_cons_append. done. }
  assert (i ∈ inFlight h) as Hin.
  { unfold inFlight. rewrite Hq, fmap_app, fmap_cons. apply elem_of_app. left.
    apply elem_of_app. right. apply list_elem_of_here. }
  exists states, last. split; [done|]. split; [done|]. split.
  { intros j pcqj st Hj Hst. specialize (Hsub j pcqj st Hj Hst).
    destruct (decide (j = i)) as [->|Hne].
    - destruct Hsub as (Hc & Hidx & Hf & Hfl & Hres & m & Hrep & Hdis).
      assert (isSuccess st = false) as Hnot.
      { apply Hfl in Hin. unfold isSuccess. rewrite Hin. done. }
      split; [done|]. split; [done|]. split; [done|]. split; [by rewrite Hperm|].
      split; [done|]. exists m. split; [|done].
      rewrite Hnot in Hrep |- *. unfold reportsOf, awaited in *. subst h'.
      cbn [reported answers]. rewrite !filter_answers_snoc, Hrep.
      by rewrite app_assoc.
    - eapply subQueryAgrees_same; [| | | |exact Hsub].
      + by rewrite Hperm.
      + unfold reportsOf. subst h'. cbn [reported].
        rewrite filter_answers_snoc. rewrite decide_False by (cbn; congruence).
        by rewrite app_nil_r.
      + unfold awaited. subst h'. cbn [answers].
        rewrite filter_answers_snoc. rewrite decide_False by (cbn; congruence).
        by rewrite app_nil_r.
      + done. }
  split; [by rewrite Hperm|]. split.
  { subst h'. cbn [queued]. rewrite Hq in Hqueued.
    apply Forall_app in Hqueued as [? [_ ?]%Forall_cons]. by apply Forall_app. }
  split.
  { subst h'. cbn [answers]. apply Forall_app. split; [done|].
    apply Forall_singleton. by exists i, pcq, s. }
  done.
Qed.

(** *** The handler's turn *)

(** Taking the answer to sub-query [i] from the response channel, and
    sending that sub-query again or not, leaves the records of the other
    sub-queries in agreement. *)
Lemma answer_taken_others h h' r rest extra i j pcq st :
  answers h = r :: rest -> query.RespRequestIdx r = i ->
  queued h' = queued h ++ extra -> answers h' = rest ->
  dispatched h' = dispatched h ++ extra -> reported h' = reported h ->
  Forall (fun item => query.RequestIdx_ item.2 = i) extra ->
  j <> i -> subQueryAgrees h j pcq st -> subQueryAgrees h' j pcq st.
Proof.
  intros Ha Hr Hq Ha' Hd Hrep Hextra Hne.
  assert (j ∉ (fun item => query.RequestIdx_ item.2) <$> extra) as Hnot.
  { intros (item & -> & Hin)%list_elem_of_fmap.
    rewrite Forall_forall in Hextra. by apply Hextra in Hin. }
  apply subQueryAgrees_same.
  - unfold inFlight. rewrite Hq, Ha', Ha, fmap_app, fmap_cons, Hr.
    rewrite !elem_of_app, elem_of_cons. tauto.
  - unfold reportsOf. by rewrite Hrep.
  - unfold awaited. rewrite Ha', Ha. rewrite filter_cons_False; [done|]. congruence.
  - unfold dispatchesOf. rewrite Hd, count_items_app.
    rewrite (filter_idx_absent (fun item => query.RequestIdx_ item.2) j extra) by done.
    simpl. lia.
Qed.

Lemma all_answered states :
  length states = length pcqs ->
  (forall j pcq st, pcqs !! j = Some pcq -> states !! j = Some st ->
     subStatus st = Success
     /\ result st = Some {| query.RespChainId := query.ChainId pcq;
                            query.Response := payloadAt j |}) ->
  omap result states = expected.
Proof using Hexpected.
  intros Hlen Hall. apply omap_fmap_Some. apply list_eq. intros j.
  rewrite !list_lookup_fmap.
  destruct (pcqs !! j) as [pcq|] eqn:Hj.
  - destruct (lookup_lt_is_Some_2 states j) as [st Hst].
    { rewrite Hlen. by eapply lookup_lt_Some. }
    destruct (expected_lookup j pcq Hj) as (e & He & Hchain).
    destruct (Hall j pcq st Hj Hst) as [_ Hres].
    rewrite Hst, He. simpl. rewrite Hres. unfold payloadAt. rewrite He, <- Hchain.
    by destruct e.
  - apply lookup_ge_None in Hj.
    rewrite !lookup_ge_None_2; [done| |]; [rewrite expected_length|rewrite Hlen]; done.
Qed.

Lemma handlerTurn_running now h :
  runningAgrees h -> runningAgrees (handlerTurn now h) \/ doneAgrees (handlerTurn now h).
Proof using Hexpected.
  intros Hrun. unfold handlerTurn.
  destruct (answers h) as [|r rest] eqn:Ha; [by left|].
  destruct Hrun as (states & last & Hstore & Hlen & Hsub & Hnd & Hqueued & Hans & Hdisp
                    & Hexp & Hsteady & Hpub & Hunread & Hfail).
  rewrite Ha in Hans. apply Forall_cons in Hans as [(i & pcq & s & Hi & -> & Hs) Hrest].
  destruct (lookup_lt_is_Some_2 states i) as [st Hst].
  { rewrite Hlen. by eapply lookup_lt_Some. }
  pose proof (Hsub i pcq st Hi Hst) as (Hc & Hidx & Hf & Hfl & Hres & m & Hrep & Hdis).
  unfold inFlight in Hnd. rewrite Ha, fmap_cons in Hnd.
  change (query.RespRequestIdx (answerOf i pcq s)) with i in Hnd.
  apply NoDup_app in Hnd as (Hndq & Hdisj & [Hirest Hndr]%NoDup_cons).
  assert (i ∉ (fun item => query.RequestIdx_ item.2) <$> queued h) as Hiq.
  { intros Hin. apply (Hdisj i Hin). apply list_elem_of_here. }
  assert (subStatus st = Pending) as Hpending.
  { apply Hfl. unfold inFlight. rewrite Ha, fmap_cons. apply elem_of_app. right.
    apply list_elem_of_here. }
  assert (isSuccess st = false) as Hnot by (unfold isSuccess; by rewrite Hpending).
  rewrite Hnot in Hrep. rewrite Hpending in Hdis.
  rewrite bool_decide_eq_false_2 in Hdis by done. unfold dispatchesOf in Hdis.
  assert (awaited i h = [s]) as Hawaited.
  { unfold awaited. rewrite Ha, filter_cons_True by done.
    by rewrite (filter_idx_absent query.RespRequestIdx). }
  rewrite Hawaited in Hrep.
  (* what holds of every environment the handler can leave *)
  assert (forall h' extra st',
            queued h' = queued h ++ extra -> answers h' = rest ->
            dispatched h' = dispatched h ++ extra -> reported h' = reported h ->
            Forall (fun item => query.RequestIdx_ item.2 = i) extra ->
            subQueryAgrees h' i pcq st' ->
            forall j pcqj stj,
              pcqs !! j = Some pcqj -> <[i := st']> states !! j = Some stj ->
              subQueryAgrees h' j pcqj stj) as Hnew.
  { intros h' extra st' Hq' Ha' Hd' Hr' Hextra Hi' j pcqj stj Hj Hstj.
    destruct (decide (j = i)) as [->|Hne].
    - rewrite list_lookup_insert_eq in Hstj by by eapply lookup_lt_Some.
      injection Hstj as <-. by rewrite Hi in Hj; injection Hj as <-.
    - rewrite list_lookup_insert_ne in Hstj by done.
      eapply (answer_taken_others h h' _ rest extra i); eauto. }
  rewrite Hstore. destruct s; [| |done].
  - (* the watcher answered with success *)
    pose proof (handleResponse_single_success cfg now (answerOf i pcq query.QuerySuccess)
                  (pendingOf states last) st Hst (eq_sym Hc) eq_refl Hnot) as Hh.
    cbv zeta in Hh.
    cbn [query.RespRequestIdx query.RespRequestID answerOf
         query.CreatePerChainQueryResponseInternal perChainState pendingOf withStates
         lastRetryAt] in Hh.
    rewrite Hh. clear Hh.
    set (st' := recordSuccess (answerOf i pcq query.QuerySuccess) st).
    set (h1 := {| pendingStore := pendingStore h; md := md h; queued := queued h;
                  answers := rest; unread := unread h; dispatched := dispatched h;
                  reported := reported h; published := published h;
                  failures := failures h |}).
    assert (subQueryAgrees h1 i pcq st') as Hi1.
    { split; [done|]. split; [done|]. split; [done|]. split.
      { split; [|done]. unfold inFlight. cbn [queued answers h1].
        intros [?|?]%elem_of_app; done. }
      split; [done|]. exists m. split; [done|]. unfold dispatchesOf.
      cbn [dispatched h1 subStatus st' recordSuccess].
      rewrite bool_decide_eq_false_2 by done. exact Hdis. }
    pose proof (Hnew h1 [] st' (eq_sym (app_nil_r _)) eq_refl (eq_sym (app_nil_r _))
                  eq_refl (Forall_nil_2 _) Hi1) as Hall.
    destruct (forallb isSuccess (<[i := st']> states)) eqn:Hdone.
    + right. unfold absorb. cbn [foldl emit].
      assert (forall j pcqj stj,
                pcqs !! j = Some pcqj -> <[i := st']> states !! j = Some stj ->
                subStatus stj = Success) as Hsucc.
      { intros j pcqj stj Hj Hstj. rewrite forallb_forall in Hdone.
        assert (isSuccess stj = true) as Hok.
        { apply Hdone, list_elem_of_In. by eapply list_elem_of_lookup_2. }
        by apply bool_decide_eq_true_1 in Hok. }
      assert (inFlight h1 = []) as Hidle.
      { destruct (inFlight h1) as [|j l] eqn:Hfl1; [done|]. exfalso.
        assert (j ∈ inFlight h1) as Hin by (rewrite Hfl1; apply list_elem_of_here).
        assert (exists pcqj, pcqs !! j = Some pcqj) as [pcqj Hj].
        { unfold inFlight in Hin. cbn [queued answers h1] in Hin.
          apply elem_of_app in Hin as [Hin|Hin].
          - apply list_elem_of_fmap in Hin as (item & -> & Hin).
            rewrite Forall_forall in Hqueued.
            destruct (Hqueued _ Hin) as (j & pcqj & Hj & ->). eauto.
          - apply list_elem_of_fmap in Hin as (a & -> & Hin).
            rewrite Forall_forall in Hrest.
            destruct (Hrest _ Hin) as (j & pcqj & sj & Hj & -> & _). eauto. }
        destruct (lookup_lt_is_Some_2 (<[i := st']> states) j) as [stj Hstj].
        { rewrite length_insert, Hlen. by eapply lookup_lt_Some. }
        destruct (Hall j pcqj stj Hj Hstj) as (_ & _ & _ & Hflj & _).
        apply Hflj in Hin. rewrite (Hsucc j pcqj stj Hj Hstj) in Hin. done. }
      unfold inFlight in Hidle. cbn [queued answers h1] in Hidle.
      apply app_eq_nil in Hidle as [Hq0%fmap_nil_inv Ha0%fmap_nil_inv].
      assert (buildPublication
                (withStates (<[i := st']> states) last (pendingOf states last))
              = thePublication) as ->.
      { unfold buildPublication, thePublication.
        cbn [pendingRequest perChainState withStates pendingOf]. f_equal.
        apply all_answered; [by rewrite length_insert|].
        intros j pcqj stj Hj Hstj. split; [by eapply Hsucc|].
        destruct (Hall j pcqj stj Hj Hstj) as (_ & _ & _ & _ & Hresj & _).
        apply Hresj. by eapply Hsucc. }
      split; [done|]. split; [done|]. split; [done|]. split; [done|].
      cbn [published unread]. rewrite Hpub, Hunread.
      split; [done|]. split; [by left|]. split; [done|].
      intros j pcqj Hj.
      destruct (lookup_lt_is_Some_2 (<[i := st']> states) j) as [stj Hstj].
      { rewrite length_insert, Hlen. by eapply lookup_lt_Some. }
      destruct (Hall j pcqj stj Hj Hstj) as (_ & _ & _ & _ & _ & mj & Hrj & Hdj).
      pose proof (Hsucc j pcqj stj Hj Hstj) as Hsj.
      unfold isSuccess in Hrj. rewrite Hsj in Hrj, Hdj. simpl in Hrj, Hdj.
      exists mj. split; [exact Hrj|]. unfold dispatchesOf in *. cbn [dispatched h1] in Hdj.
      cbn [dispatched]. lia.
    + left. unfold absorb. cbn [foldl].
      exists (<[i := st']> states), last.
      split; [done|]. split; [by rewrite length_insert|]. split; [exact Hall|].
      split.
      { unfold inFlight. cbn [queued answers]. apply NoDup_app.
        split; [done|]. split; [|done]. intros x Hx Hin.
        apply (Hdisj x Hx). by apply list_elem_of_further. }
      done.
  - (* the watcher asked for a retry *)
    destruct (Z.lt_ge_cases (retryInterval cfg) (now - last)) as [Hpassed|Hwait].
    + pose proof (handleResponse_single_retry_now cfg now
                    (answerOf i pcq query.QueryRetryNeeded) (pendingOf states last) st
                    Hst (eq_sym Hc) eq_refl Hnot Hpassed) as Hh.
      cbv zeta in Hh. unfold redispatch in Hh.
      cbn [query.RespRequestIdx query.RespRequestID answerOf
           query.CreatePerChainQueryResponseInternal perChainState pendingOf withStates
           lastRetryAt pendingQueries requestID] in Hh.
      rewrite Hi in Hh. rewrite Hh. clear Hh.
      set (st' := retried Pending st).
      set (h1 := {| pendingStore := {[id := pendingOf (<[i := st']> states) now]};
                    md := md h;
                    queued := queued h ++ [workItem i pcq]; answers := rest;
                    unread := unread h;
                    dispatched := dispatched h ++ [workItem i pcq];
                    reported := reported h; published := published h;
                    failures := failures h |}).
      left. change (runningAgrees h1). exists (<[i := st']> states), now.
      split; [done|]. split; [by rewrite length_insert|]. split.
      { apply (Hnew h1 [workItem i pcq] st'); try done.
        { by apply Forall_singleton. }
        split; [done|]. split; [done|]. split; [done|]. split.
        { split; [done|]. intros _. unfold inFlight. cbn [queued answers h1].
          rewrite fmap_app. apply elem_of_app. left. apply elem_of_app. right.
          apply list_elem_of_here. }
        split; [done|]. exists (S m). split.
        - unfold reportsOf, awaited in *. cbn [reported answers h1 isSuccess st'].
          rewrite Hrep. cbn. rewrite (filter_idx_absent query.RespRequestIdx) by done.
          cbn. rewrite app_nil_r. symmetry. apply (replicate_cons_app m).
        - unfold dispatchesOf in *. cbn [dispatched h1]. rewrite count_items_app, Hdis.
          rewrite filter_cons_True by done. cbn [subStatus st' retried].
          rewrite bool_decide_eq_false_2 by done. cbn. lia. }
      split.
      { unfold inFlight. cbn [queued answers h1]. rewrite fmap_app.
        cbn [fmap list_fmap snd query.RequestIdx_].
        apply NoDup_app. split; [|split; [|done]].
        - apply NoDup_app. split; [done|]. split; [|apply NoDup_singleton].
          intros x Hx ->%list_elem_of_singleton. done.
        - intros x [Hx| ->%list_elem_of_singleton]%elem_of_app Hin; [|done].
          apply (Hdisj x Hx). by apply list_elem_of_further. }
      split.
      { cbn [queued h1]. apply Forall_app. split; [done|]. apply Forall_singleton.
        by exists i, pcq. }
      split; [done|]. split; [|done].
      cbn [dispatched h1]. apply Forall_app. split; [done|]. apply Forall_singleton.
      by exists i, pcq.
    + pose proof (handleResponse_single_retry cfg now
                    (answerOf i pcq query.QueryRetryNeeded) (pendingOf states last) st
                    Hst (eq_sym Hc) eq_refl Hnot) as Hh.
      cbv zeta in Hh.
      cbn [query.RespRequestIdx query.RespRequestID answerOf
           query.CreatePerChainQueryResponseInternal perChainState pendingOf withStates
           lastRetryAt] in Hh.
      rewrite Hh by lia. clear Hh.
      set (st' := retried RetryNeeded st).
      set (h1 := {| pendingStore := {[id := pendingOf (<[i := st']> states) last]};
                    md := md h; queued := queued h; answers := rest;
                    unread := unread h; dispatched := dispatched h;
                    reported := reported h; published := published h;
                    failures := failures h |}).
      left. change (runningAgrees h1). exists (<[i := st']> states), last.
      split; [done|]. split; [by rewrite length_insert|]. split.
      { apply (Hnew h1 [] st'); try done; try (by rewrite app_nil_r).
        split; [done|]. split; [done|]. split; [done|]. split.
        { split; [|done]. unfold inFlight. cbn [queued answers h1].
          intros [?|?]%elem_of_app; done. }
        split; [done|]. exists (S m). split.
        - unfold reportsOf, awaited in *. cbn [reported answers h1 isSuccess st'].
          rewrite Hrep. cbn. rewrite (filter_idx_absent query.RespRequestIdx) by done.
          cbn. rewrite app_nil_r. symmetry. apply (replicate_cons_app m).
        - unfold dispatchesOf in *. cbn [dispatched h1]. rewrite Hdis.
          cbn [subStatus st' retried]. rewrite bool_decide_eq_true_2 by done. lia. }
      split.
      { unfold inFlight. cbn [queued answers h1]. apply NoDup_app.
        split; [done|]. split; [|done]. intros x Hx Hin.
        apply (Hdisj x Hx). by apply list_elem_of_further. }
      done.
Qed.

(** *** The audit timer *)

(** What the audit puts on the channels for a record in need of a retry. *)
Lemma redispatch_items (pq : PendingQuery) (l : list PerChainState) :
  requestID pq = id -> pendingQueries pq = queryRequest ->
  Forall (fun st => is_Some (pcqs !! requestIdx st)) l ->
  exists items,
    concat (map (fun st => if needsRetry st then redispatch pq (requestIdx st) else []) l)
    = map (fun w => Dispatch w.1 w.2) items
    /\ Forall ownItem items
    /\ (fun item => query.RequestIdx_ item.2) <$> items
       = requestIdx <$> filter (fun st => needsRetry st = true) l.
Proof.
  intros Hid Hq. induction l as [|st l IH]; intros Hall.
  - exists []. by rewrite filter_nil.
  - apply Forall_cons in Hall as [[pcq Hpcq] Hall].
    destruct (IH Hall) as (items & Hout & Hown & Hidx).
    simpl. rewrite Hout. unfold redispatch. rewrite Hid, Hq, Hpcq.
    destruct (needsRetry st) eqn:Hneeds.
    + exists (workItem (requestIdx st) pcq :: items). split; [done|]. split.
      * constructor; [|done]. by exists (requestIdx st), pcq.
      * rewrite filter_cons_True by done. by rewrite !fmap_cons, Hidx.
    + exists items. split; [done|]. split; [done|].
      rewrite filter_cons_False; [done|]. by rewrite Hneeds.
Qed.

Lemma auditTurn_running now h :
  runningAgrees h -> timelyAudit now h = true -> runningAgrees (auditTurn now h).
Proof.
  intros (states & last & Hstore & Hlen & Hsub & Hnd & Hqueued & Hans & Hdisp
          & Hexp & Hsteady & Hpub & Hunread & Hfail) Htimely.
  unfold timelyAudit in Htimely. rewrite Hstore, map_to_list_singleton in Htimely.
  cbn [forallb snd] in Htimely. rewrite andb_true_r in Htimely.
  unfold timelyFor in Htimely. cbn [createdAt lastRetryAt pendingOf] in Htimely.
  apply andb_true_iff in Htimely as [Hdeadline%Z.leb_le Hretry].
  unfold auditTurn. rewrite Hstore.
  assert ((requestTimeout cfg <? now - createdAt (pendingOf states last)) = false)
    as Hnotime.
  { apply Z.ltb_ge. cbn. lia. }
  destruct (Z.ltb_spec (retryInterval cfg) (now - last)) as [Hpassed|Hwait].
  - (* the retry interval has passed: nothing is on its way *)
    apply orb_true_iff in Hretry as [Hle%Z.leb_le|Hidle]; [lia|].
    unfold idle in Hidle.
    destruct (queued h) as [|? ?] eqn:Hq0; [|done].
    destruct (answers h) as [|? ?] eqn:Ha0; [|done].
    assert (forall j pcq st, pcqs !! j = Some pcq -> states !! j = Some st ->
              subStatus st <> Pending) as Hnotpending.
    { intros j pcq st Hj Hst Hp.
      destruct (Hsub j pcq st Hj Hst) as (_ & _ & _ & Hfl & _).
      apply Hfl in Hp. unfold inFlight in Hp. rewrite Hq0, Ha0 in Hp.
      by apply elem_of_nil in Hp. }
    assert (Forall (fun st => is_Some (pcqs !! requestIdx st)) states) as Hroute.
    { apply Forall_forall. intros st [j Hst]%list_elem_of_lookup.
      destruct (lookup_lt_is_Some_2 pcqs j) as [pcq Hj].
      { rewrite <- Hlen. by eapply lookup_lt_Some. }
      destruct (Hsub j pcq st Hj Hst) as (_ & -> & _). by exists pcq. }
    destruct (redispatch_items (pendingOf states last) states eq_refl eq_refl Hroute)
      as (items & Hout & Hown & Hidx).
    assert (requestIdx <$> states = seq 0 (length states)) as Hseq.
    { apply list_eq. intros j. rewrite list_lookup_fmap.
      destruct (states !! j) as [st|] eqn:Hst; simpl.
      - destruct (lookup_lt_is_Some_2 pcqs j) as [pcq Hj].
        { rewrite <- Hlen. by eapply lookup_lt_Some. }
        destruct (Hsub j pcq st Hj Hst) as (_ & -> & _).
        symmetry. apply lookup_seq. split; [done|]. by eapply lookup_lt_Some.
      - symmetry. apply lookup_seq_ge. by apply lookup_ge_None. }
    assert (NoDup ((fun item => query.RequestIdx_ item.2) <$> items)) as Hnditems.
    { rewrite Hidx. apply NoDup_fmap_filter. rewrite Hseq. apply NoDup_seq. }
    assert (forall j st, states !! j = Some st ->
              (j ∈ (fun item => query.RequestIdx_ item.2) <$> items
               <-> needsRetry st = true)) as Hmember.
    { intros j st Hst. rewrite Hidx. split.
      - intros (st' & -> & [Hneeds [k Hk]%list_elem_of_lookup]%list_elem_of_filter)
          %list_elem_of_fmap.
        destruct (lookup_lt_is_Some_2 pcqs k) as [pcq Hj].
        { rewrite <- Hlen. by eapply lookup_lt_Some. }
        destruct (Hsub k pcq st' Hj Hk) as (_ & Heq & _). rewrite Heq in Hst.
        by rewrite Hk in Hst; injection Hst as ->.
      - intros Hneeds. apply list_elem_of_fmap. exists st. split.
        + destruct (lookup_lt_is_Some_2 pcqs j) as [pcq Hj].
          { rewrite <- Hlen. by eapply lookup_lt_Some. }
          by destruct (Hsub j pcq st Hj Hst) as (_ & -> & _).
        + apply list_elem_of_filter. split; [done|]. by eapply list_elem_of_lookup_2. }
    assert (auditOne cfg now (pendingOf states last)
            = (Some (pendingOf
                       (map (fun st => if needsRetry st then retried Pending st else st)
                          states) now),
               map (fun w => Dispatch w.1 w.2) items)) as Hone.
    { unfold auditOne. rewrite Hnotime.
      cbn [lastRetryAt pendingOf perChainState].
      rewrite (proj2 (Z.ltb_lt _ _) Hpassed). by rewrite Hout. }
    rewrite (auditSweep_single cfg now _ _ _ _ Hone), absorb_dispatches.
    cbn [pendingStore md queued answers unread dispatched reported published failures
         withStore].
    rewrite Hq0, Ha0. cbn [app].
    set (states' := map (fun st => if needsRetry st then retried Pending st else st)
                      states).
    set (h1 := {| pendingStore := {[id := pendingOf states' now]}; md := md h;
                  queued := items; answers := []; unread := unread h;
                  dispatched := dispatched h ++ items; reported := reported h;
                  published := published h; failures := failures h |}).
    exists states', now. split; [done|]. split; [unfold states'; by rewrite length_map|].
    split.
    { intros j pcq st' Hj Hst'. unfold states' in Hst'.
      rewrite list_lookup_fmap in Hst'.
      destruct (states !! j) as [st|] eqn:Hst; [|done]. injection Hst' as <-.
      destruct (Hsub j pcq st Hj Hst) as (Hc & Hi & Hf & Hfl & Hres & m & Hrep & Hdis).
      pose proof (Hnotpending j pcq st Hj Hst) as Hnp.
      pose proof (Hmember j st Hst) as Hmem.
      assert (awaited j h1 = awaited j h) as Hawait.
      { unfold awaited. cbn [answers h1]. by rewrite Ha0. }
      assert (subStatus st = Success \/ subStatus st = RetryNeeded) as [Hstatus|Hstatus].
      { destruct (subStatus st); auto; done. }
      - (* done already *)
        assert (needsRetry st = false) as Hneeds by (unfold needsRetry; by rewrite Hstatus).
        rewrite Hneeds. split; [done|]. split; [done|]. split; [done|].
        split.
        { split; [|by rewrite Hstatus]. unfold inFlight. cbn [queued answers h1].
          rewrite app_nil_r. intros Hin%Hmem. congruence. }
        split; [done|]. exists m. rewrite Hawait. split; [done|].
        unfold dispatchesOf in *. cbn [dispatched h1]. rewrite count_items_app, Hdis.
        rewrite (filter_idx_absent (fun item => query.RequestIdx_ item.2) j items).
        + simpl. lia.
        + intros Hin%Hmem. congruence.
      - (* waiting for this tick *)
        assert (needsRetry st = true) as Hneeds by (unfold needsRetry; by rewrite Hstatus).
        rewrite Hneeds. split; [done|]. split; [done|]. split; [done|]. split.
        { split; [done|]. intros _. unfold inFlight. cbn [queued answers h1].
          rewrite app_nil_r. by apply Hmem. }
        split; [done|]. exists m. split.
        + unfold isSuccess in *. rewrite Hstatus in Hrep.
          cbn [subStatus retried]. rewrite Hawait.
          rewrite bool_decide_eq_false_2 in Hrep |- * by done. exact Hrep.
        + unfold dispatchesOf in *. cbn [dispatched h1]. rewrite count_items_app, Hdis.
          rewrite (count_idx_present (fun item => query.RequestIdx_ item.2) j items)
            by (try done; by apply Hmem).
          cbn [subStatus retried]. rewrite Hstatus.
          rewrite bool_decide_eq_true_2, bool_decide_eq_false_2 by done. lia. }
    split.
    { unfold inFlight. cbn [queued answers h1]. by rewrite app_nil_r. }
    split; [done|]. split; [constructor|]. split; [by apply Forall_app|]. done.
  - (* the retry interval has not passed *)
    assert (auditOne cfg now (pendingOf states last) = (Some (pendingOf states last), []))
      as Hone.
    { unfold auditOne. rewrite Hnotime. cbn [lastRetryAt pendingOf].
      by rewrite (proj2 (Z.ltb_ge _ _) Hwait). }
    rewrite (auditSweep_single cfg now _ _ _ _ Hone). unfold absorb. cbn [foldl].
    exists states, last. done.
Qed.

(** *** The request answered, and the request sent *)

Lemma turn_done t h : doneAgrees h -> exists h', turn t h = Some h' /\ doneAgrees h'.
Proof.
  intros (Hstore & Hq & Ha & Hfail & Hpub & Hunread & Hdisp & Hall).
  destruct t as [c|now|now|]; cbn [turn].
  - unfold watcherTurn. rewrite Hq. exists h. done.
  - unfold handlerTurn. rewrite Ha. exists h. done.
  - unfold auditTurn, auditSweep. rewrite Hstore, omap_empty, map_to_list_empty.
    eexists. split; [reflexivity|]. done.
  - unfold listenerTurn. destruct Hunread as [Hu|[Hu Hmd]]; rewrite Hu.
    + eexists. split; [reflexivity|].
      split; [done|]. split; [done|]. split; [done|]. split; [done|]. split; [done|].
      split; [by right|]. done.
    + exists h. split; [done|].
      split; [done|]. split; [done|]. split; [done|]. split; [done|]. split; [done|].
      split; [by right|]. done.
Qed.

Lemma submit_running m0 :
  steady m0 ->
  runningAgrees (submit sentAt signedRequest queryRequest
                   (testStart (setExpectedResults expected m0))).
Proof using Hroutes.
  intros Hsteady. unfold submit, handleRequest. cbn [pendingStore testStart].
  rewrite lookup_empty.
  assert (forallb (fun pcq => bool_decide (query.ChainId pcq ∈ routes cfg)) pcqs = true)
    as ->.
  { apply forallb_forall. intros pcq Hin%list_elem_of_In.
    apply bool_decide_eq_true_2. rewrite Forall_forall in Hroutes. by apply Hroutes. }
  assert (imap (dispatchOf id) pcqs = map (fun w => Dispatch w.1 w.2) (imap workItem pcqs))
    as ->.
  { rewrite map_imap. by apply imap_ext. }
  rewrite absorb_dispatches, insert_empty.
  cbn [pendingStore md queued answers unread dispatched reported published failures
       withStore testStart app].
  set (h0 := {| pendingStore := _; md := _; queued := imap workItem pcqs;
                answers := []; unread := []; dispatched := imap workItem pcqs;
                reported := []; published := []; failures := [] |}).
  assert ((fun item => query.RequestIdx_ item.2) <$> imap workItem pcqs
          = seq 0 (length pcqs)) as Hseq by by apply imap_idx_seq.
  assert (Forall ownItem (imap workItem pcqs)) as Hown.
  { apply Forall_forall. intros item [j Hitem]%list_elem_of_lookup.
    rewrite list_lookup_imap in Hitem.
    destruct (pcqs !! j) as [pcq|] eqn:Hj; [|done]. injection Hitem as <-.
    by exists j, pcq. }
  exists (imap initialState pcqs), sentAt.
  split; [done|]. split; [by rewrite length_imap|]. split.
  { intros j pcq st Hj Hst. rewrite list_lookup_imap, Hj in Hst. injection Hst as <-.
    assert (j ∈ (fun item => query.RequestIdx_ item.2) <$> imap workItem pcqs) as Hin.
    { rewrite Hseq. apply elem_of_seq. split; [lia|]. simpl.
      by eapply lookup_lt_Some. }
    split; [done|]. split; [done|]. split; [done|]. split.
    { split; [done|]. intros _. unfold inFlight. cbn [queued answers h0].
      by rewrite app_nil_r. }
    split; [done|]. exists 0%nat. split; [done|].
    unfold dispatchesOf. cbn [dispatched h0].
    rewrite (count_idx_present (fun item => query.RequestIdx_ item.2) j); [done| |done].
    rewrite Hseq. apply NoDup_seq. }
  split.
  { unfold inFlight. cbn [queued answers h0]. rewrite app_nil_r, Hseq. apply NoDup_seq. }
  split; [done|]. split; [constructor|]. done.
Qed.

(** A timely schedule keeps the environment and the handler's record of the
    request in agreement, before and after the request is answered, and no
    watcher stops the test. *)
Lemma runSchedule_agrees sched h :
  runningAgrees h \/ doneAgrees h ->
  timely sched h = true ->
  exists h', runSchedule sched h = Some h' /\ (runningAgrees h' \/ doneAgrees h').
Proof using Hexpected.
  revert h. induction sched as [|t rest IH]; intros h Hagrees Htimely; [by exists h|].
  cbn [timely] in Htimely. apply andb_true_iff in Htimely as [Hnow Hrest].
  cbn [runSchedule].
  assert (exists h1, turn t h = Some h1 /\ (runningAgrees h1 \/ doneAgrees h1))
    as (h1 & Hturn & Hagrees1).
  { destruct Hagrees as [Hrun|Hdone].
    - destruct t as [c|now|now|]; cbn [turn].
      + destruct (watcherTurn_running c h Hrun) as (h1 & -> & ?). eauto.
      + eexists. split; [reflexivity|]. by apply handlerTurn_running.
      + eexists. split; [reflexivity|]. left. by apply auditTurn_running.
      + eexists. split; [reflexivity|]. left. unfold listenerTurn.
        destruct Hrun as (states & last & ? & ? & ? & ? & ? & ? & ? & ? & ? & ? & Hu & ?).
        rewrite Hu. exists states, last. done.
    - destruct (turn_done t h Hdone) as (h1 & -> & ?). eauto. }
  rewrite Hturn in Hrest |- *. by apply IH.
Qed.

(** C7 (as amended).  One request is sent to the test environment, whose
    watchers are told to ask for any numbers of retries that are none of the
    magic values, and the routines take turns in any order, at any times,
    as long as the schedule is timely: no audit tick comes after the
    deadline of the request while it is pending, and no audit tick finds the
    retry interval passed while a sub-query is still on the channel of its
    watcher or its answer still on the response channel.  Then no watcher
    stops the test and the request does not fail; every dispatch puts a
    sub-query on the channel of its own chain; and once the request is no
    longer pending, it has been published, exactly once, with the expected
    results in the order of the request, and every sub-query, whose watcher
    answered [QueryRetryNeeded] some [k] times and then [QuerySuccess], was
    dispatched exactly [k + 1] times. *)
Theorem retries_then_success sched m0 :
  steady m0 ->
  timely sched (submit sentAt signedRequest queryRequest
                  (testStart (setExpectedResults expected m0))) = true ->
  exists h,
    runTest sched (setExpectedResults expected m0) sentAt signedRequest queryRequest
    = Some h
    /\ failures h = []
    /\ Forall (fun item => pcqs !! query.RequestIdx_ item.2 = Some (query.Request item.2)
                          /\ item.1 = query.ChainId (query.Request item.2))
         (dispatched h)
    /\ (pendingStore h <> ∅ -> published h = [])
    /\ (pendingStore h = ∅ ->
        published h
        = [{| query.PubRequest := signedRequest; query.PerChainResponses := expected |}]
        /\ validateResponseForTest
             (Some {| query.PubRequest := signedRequest;
                      query.PerChainResponses := expected |})
             signedRequest queryRequest expected = true
        /\ forall idx pcq,
             pcqs !! idx = Some pcq ->
             exists k,
               reportsOf idx h
               = replicate k query.QueryRetryNeeded ++ [query.QuerySuccess]
               /\ dispatchesOf idx h = (k + 1)%nat).
Proof using All.
  intros Hsteady Htimely. unfold runTest.
  destruct (runSchedule_agrees sched _ (or_introl (submit_running m0 Hsteady)) Htimely)
    as (h & Hrun & Hagrees).
  exists h. split; [done|].
  assert (forall l, Forall ownItem l ->
            Forall (fun item =>
                      pcqs !! query.RequestIdx_ item.2 = Some (query.Request item.2)
                      /\ item.1 = query.ChainId (query.Request item.2)) l) as Hown.
  { intros l Hl. eapply Forall_impl; [exact Hl|].
    by intros item (i & pcq & Hi & ->). }
  destruct Hagrees as [(states & last & Hstore & _ & _ & _ & _ & _ & Hdisp & _ & _
                        & Hpub & _ & Hfail)
                      |(Hstore & _ & _ & Hfail & Hpub & _ & Hdisp & Hall)].
  - split; [done|]. split; [by apply Hown|]. split; [done|].
    intros Hempty. rewrite Hstore in Hempty.
    by apply (map_non_empty_singleton id) in Hempty.
  - split; [done|]. split; [by apply Hown|]. split; [done|].
    intros _. split; [done|]. split.
    + apply validateResponseForTest_passes. by rewrite expected_length.
    + intros idx pcq Hidx. destruct (Hall idx pcq Hidx) as (k & Hk & Hd).
      exists k. split; [done|]. lia.
Qed.

End RetryScenario.

(** *** The statements on the scenario *)

Lemma chain_mismatch_is_fatal_witness :
  let '(g', store', outs) :=
    nodeReceive Scenario.cfg Scenario.ChainIDPolygon 5 Trace.foreign
      (nodeStart, {[ "q" := Trace.pending ]}) in
  exited g' = true /\ outs = [] /\ forall pub, Publish pub ∉ outs.
Proof.
  pose proof (chain_mismatch_is_fatal Scenario.cfg Scenario.ChainIDPolygon 5 Trace.foreign
                nodeStart {[ "q" := Trace.pending ]} Trace.pending
                (initialState 0 (Scenario.call Scenario.ChainIDPolygon))) as H.
  cbv zeta in H.
  destruct (nodeReceive Scenario.cfg Scenario.ChainIDPolygon 5 Trace.foreign
              (nodeStart, {[ "q" := Trace.pending ]})) as [[g' store'] outs].
  destruct H as [Hpub [(_ & Hexit & _ & _ & Houts)|(Hch & _)]].
  - reflexivity.
  - reflexivity.
  - reflexivity.
  - discriminate.
  - auto.
  - discriminate Hch.
Defined.

Lemma publication_position_invariant_witness :
  exists now req,
    NewRequest now Scenario.signedRequest req ∈ Trace.events
    /\ length Scenario.expected = length (query.PerChainQueries req)
    /\ forall i pcq, query.PerChainQueries req !! i = Some pcq ->
         exists r,
           Scenario.expected !! i = Some r
           /\ query.RespChainId r = query.ChainId pcq
           /\ delivered Trace.events "q" i (query.ChainId pcq) (query.Response r).
Proof.
  apply (publication_position_invariant Scenario.RequestIDOf Scenario.cfg Trace.events
           Trace.publication).
  apply list_elem_of_In. vm_compute. auto 10.
Defined.

Lemma retries_then_success_witness :
  exists h,
    Scenario.test Scenario.retrying (Scenario.mock 2) = Some h
    /\ pendingStore h = ∅
    /\ failures h = []
    /\ published h = [Trace.publication]
    /\ reportsOf 1 h
       = [query.QueryRetryNeeded; query.QueryRetryNeeded; query.QuerySuccess]
    /\ dispatchesOf 1 h = 3%nat.
Proof.
  destruct (retries_then_success Scenario.RequestIDOf Scenario.cfg Scenario.signedRequest
              Scenario.queryRequest Scenario.expected 0)
    with (sched := Scenario.retrying)
         (m0 := setRetries Scenario.ChainIDBSC 2
                  (resetState {| queryResponsePublication := None; expectedResults := [];
                                 requestsPerChain := ∅; retriesPerChain := ∅ |}))
    as (h & Hrun & Hfail & _ & _ & Hdone).
  - refine (bool_decide_unpack _ _). vm_compute. exact I.
  - reflexivity.
  - intros c val Hval. unfold setRetries, resetState in Hval.
    cbn [retriesPerChain] in Hval.
    apply lookup_insert_Some in Hval as [[_ <-]|[_ Hnone]].
    + unfold ignoreQuery, MaxInt. lia.
    + by rewrite lookup_empty in Hnone.
  - vm_compute. reflexivity.
  - assert (pendingStore h = ∅) as Hempty.
    { vm_compute in Hrun. injection Hrun as <-. reflexivity. }
    destruct (Hdone Hempty) as (Hpub & _ & Hall).
    destruct (Hall 1%nat (Scenario.call Scenario.ChainIDBSC) eq_refl) as (k & Hk & Hd).
    assert (reportsOf 1 h
            = [query.QueryRetryNeeded; query.QueryRetryNeeded; query.QuerySuccess])
      as Hreports.
    { vm_compute in Hrun. injection Hrun as <-. reflexivity. }
    assert (k = 2%nat) as ->.
    { rewrite Hreports in Hk.
      destruct k as [|[|[|k]]]; simpl in Hk; try discriminate Hk. reflexivity. }
    exists h. split; [exact Hrun|]. split; [exact Hempty|]. split; [exact Hfail|].
    split; [exact Hpub|]. split; [exact Hreports|exact Hd].
Defined.

(** C7, the claim as first stated, fails.  On a schedule on which the
    watchers get their turn only after an audit tick has found the retry
    interval passed, the sub-query of BSC, whose watcher answers
    [QuerySuccess] at once (no retry), has been dispatched twice when the
    request is published.  And on a schedule on which the other watchers get
    no turn before the deadline, the same sub-query is answered at once and
    dispatched once, and the request fails with a timeout.  Neither schedule
    is timely. *)
Lemma retries_dispatches_depend_on_schedule :
  let sent := submit Scenario.RequestIDOf Scenario.cfg 0 Scenario.signedRequest
                Scenario.queryRequest (testStart Scenario.quiet) in
  (exists h,
     Scenario.test Scenario.late Scenario.quiet = Some h
     /\ pendingStore h = ∅
     /\ failures h = []
     /\ published h = [Trace.publication]
     /\ reportsOf 1 h = replicate 0 query.QueryRetryNeeded ++ [query.QuerySuccess]
     /\ dispatchesOf 1 h = 2%nat
     /\ timely Scenario.cfg Scenario.late sent = false)
  /\ (exists h,
        Scenario.test Scenario.starved Scenario.quiet = Some h
        /\ reportsOf 1 h = replicate 0 query.QueryRetryNeeded ++ [query.QuerySuccess]
        /\ dispatchesOf 1 h = 1%nat
        /\ pendingStore h = ∅
        /\ published h = []
        /\ failures h = [(Scenario.RequestIDOf [Byte.x71], Timeout)]
        /\ timely Scenario.cfg Scenario.starved sent = false).
Proof.
  cbv zeta.
  split; eexists; (split; [vm_compute; reflexivity|]); repeat split; reflexivity.
Qed.

(** * Further properties of the validator *)

Lemma pretty_N_go_noColon x s : noColon s -> noColon (pretty_N_go x s).
Proof.
  revert s. induction (N.lt_wf_0 x) as [x _ IH]; intros s Hs.
  assert (x = 0 \/ 0 < x)%N as [->|Hpos] by lia.
  - by rewrite pretty_N_go_0.
  - rewrite pretty_N_go_step by done. apply IH.
    { by apply N.div_lt. }
    split; [|done]. unfold pretty_N_char. by repeat case_match.
Qed.

Lemma pretty_N_noColon (x : N) : noColon (pretty x).
Proof.
  unfold pretty, pretty_N. case_decide.
  - simpl. split; [discriminate|done].
  - by apply pretty_N_go_noColon.
Qed.

Lemma colon_split d1 d2 r1 r2 :
  noColon d1 -> noColon d2 ->
  d1 +:+ ":" +:+ r1 = d2 +:+ ":" +:+ r2 -> d1 = d2 /\ r1 = r2.
Proof.
  revert d2. induction d1 as [|a d1 IH]; intros [|b d2] H1 H2 Heq; simpl in *.
  - by injection Heq.
  - injection Heq as Hb _. destruct H2 as [Hne _]. by rewrite <- Hb in Hne.
  - injection Heq as Ha _. destruct H1 as [Hne _]. by rewrite Ha in Hne.
  - injection Heq as -> Heq. destruct H1 as [_ H1], H2 as [_ H2].
    destruct (IH d2 H1 H2 Heq) as [-> ->]. done.
Qed.

Section ValidatorMore.
Context {PrivateKey : Type}.
Variable QueryRequestDigest : Environment -> Bytes -> Bytes.
Variable Sign : Bytes -> PrivateKey -> Bytes * option goError.
Variable Unmarshal : Bytes -> query.QueryRequest + goError.
Variable Validate : query.QueryRequest -> option goError.
Variable PublicKeyString : query.PublicKey -> string.
Variable ChainIDString : ChainID -> string.

Abbreviation callKeyOf := (callKeyOf PublicKeyString).
Abbreviation callKeysOf := (callKeysOf PublicKeyString).
Abbreviation requestCallKeys := (requestCallKeys PublicKeyString).
Abbreviation requestedLabels := (requestedLabels PublicKeyString ChainIDString).
Abbreviation validateCalls := (validateCalls PublicKeyString ChainIDString).
Abbreviation validatePerChainQuery := (validatePerChainQuery PublicKeyString ChainIDString).
Abbreviation validatePerChainQueries := (validatePerChainQueries PublicKeyString ChainIDString).
Abbreviation validateSigned := (validateSigned Unmarshal Validate PublicKeyString ChainIDString).
Abbreviation rejectedAt := (rejectedAt PublicKeyString ChainIDString).
Abbreviation validateRequest :=
  (validateRequest QueryRequestDigest Sign Unmarshal Validate PublicKeyString ChainIDString).
Abbreviation cosignable := (cosignable QueryRequestDigest Sign).

(** *** Call keys *)

(** X1.  A call key names one kind of call, one chain and one address: the
    keys of two calls with the same tag are equal only when the chains are
    equal and the addresses print alike, and a key of an account call is
    never the key of a PDA call. *)
Theorem callKeyOf_separates c1 a1 c2 a2 :
  (forall tag, callKeyOf tag c1 a1 = callKeyOf tag c2 a2 ->
     c1 = c2 /\ PublicKeyString a1 = PublicKeyString a2)
  /\ callKeyOf "solAccount" c1 a1 <> callKeyOf "solPDA" c2 a2.
Proof.
  split.
  - intros tag Heq. unfold callKeyOf in Heq.
    apply (inj (String.app tag)) in Heq. simpl in Heq. injection Heq as Heq.
    apply colon_split in Heq as [Hc Ha]; [|apply pretty_N_noColon..].
    split; [|done]. by apply (inj pretty).
  - unfold callKeyOf. simpl. discriminate.
Qed.

(** *** Acceptance *)

Lemma validateCalls_metrics_irrelevant {A} (address : A -> query.PublicKey) p tag c accts m m' :
  (validateCalls address p tag c accts m).1 = (validateCalls address p tag c accts m').1.
Proof.
  revert m m'. induction accts as [|a rest IH]; intros m m'; simpl; [done|].
  case_decide; [apply IH|done].
Qed.

Lemma validatePerChainQuery_metrics_irrelevant p pcq m m' :
  (validatePerChainQuery p pcq m).1 = (validatePerChainQuery p pcq m').1.
Proof.
  unfold validatePerChainQuery, validateSolanaAccountQuery, validateSolanaPdaQuery.
  destruct (query.Query pcq); [apply validateCalls_metrics_irrelevant..|done].
Qed.

Lemma validatePerChainQueries_metrics_irrelevant p pcqs m m' :
  (validatePerChainQueries p pcqs m).1 = (validatePerChainQueries p pcqs m').1.
Proof.
  revert m m'. induction pcqs as [|pcq rest IH]; intros m m'; simpl; [done|].
  pose proof (validatePerChainQuery_metrics_irrelevant p pcq m m') as H1.
  destruct (validatePerChainQuery p pcq m) as [[st1 e1] m1],
    (validatePerChainQuery p pcq m') as [[st2 e2] m2]. simpl in H1.
  injection H1 as -> ->. destruct e2; [done|apply IH].
Qed.

Lemma validateSigned_metrics_irrelevant p qr m m' :
  let v := validateSigned p qr m in
  let v' := validateSigned p qr m' in
  status v = status v' /\ queryRequest v = queryRequest v' /\ err v = err v'
  /\ signedRequest v = signedRequest v'.
Proof.
  unfold validateSigned.
  destruct (Unmarshal _) as [req|e]; [|done].
  destruct (Validate req); [done|].
  pose proof (validatePerChainQueries_metrics_irrelevant p (query.PerChainQueries req) m m')
    as H1.
  destruct (validatePerChainQueries p _ m) as [[st1 e1] m1],
    (validatePerChainQueries p _ m') as [[st2 e2] m2]. simpl in H1.
  injection H1 as -> ->. by destruct e2.
Qed.

Lemma validatePerChainQueries_authorized p pcqs m :
  forallb isSupported pcqs = true ->
  Forall (fun k => k ∈ allowedCalls p) (concat (map callKeysOf pcqs)) ->
  validatePerChainQueries p pcqs m
  = (StatusOK, None, pegRequestedAll (concat (map requestedLabels pcqs)) m).
Proof.
  intros Hs Hk.
  pose proof (validatePerChainQueries_authorized_prefix PublicKeyString ChainIDString
                p pcqs [] m Hs Hk) as H.
  by rewrite app_nil_r in H.
Qed.

Lemma validateSigned_accept_iff p qr m :
  err (validateSigned p qr m) = None
  <-> exists req,
        Unmarshal (gossipv1.QueryRequest qr) = inl req /\ Validate req = None
        /\ forallb isSupported (query.PerChainQueries req) = true
        /\ Forall (fun k => k ∈ allowedCalls p) (requestCallKeys req).
Proof.
  split.
  - intros Hacc.
    apply (validateSigned_accept_inv Unmarshal Validate PublicKeyString ChainIDString)
      in Hacc as (req & ? & ? & ? & ? & _). eauto.
  - intros (req & Hu & Hv & Hs & Hk).
    rewrite (validateSigned_loop Unmarshal Validate PublicKeyString ChainIDString
               p qr m req Hu Hv).
    cbv zeta. by rewrite validatePerChainQueries_authorized.
Qed.

Lemma validateRequest_accept_iff env perms signerKey apiKey qr m :
  err (validateRequest env perms signerKey apiKey qr m) = None
  <-> exists p req,
        GetUserEntry perms apiKey = Some p
        /\ cosignable env p signerKey qr
        /\ Unmarshal (gossipv1.QueryRequest qr) = inl req /\ Validate req = None
        /\ forallb isSupported (query.PerChainQueries req) = true
        /\ Forall (fun k => k ∈ allowedCalls p) (requestCallKeys req).
Proof.
  unfold validateRequest, cosignable.
  destruct (GetUserEntry perms apiKey) as [p|].
  2:{ split; [discriminate|]. by intros (p & req & ? & _). }
  destruct (gossipv1.Signature qr) as [|b sig] eqn:Hsig.
  - destruct (allowUnsigned p) eqn:Hu, signerKey as [key|].
    + destruct (Sign _ key) as [sg [e|]] eqn:Hsign.
      * split; [discriminate|].
        intros (p' & req & [= <-] & [Hne|(key' & _ & [= <-] & Hok)] & _); [done|].
        rewrite Hsign in Hok. discriminate.
      * rewrite validateSigned_accept_iff. simpl. split.
        -- intros (req & ?). exists p, req. split; [done|]. split; [|done].
           right. exists key. by rewrite Hsign.
        -- intros (p' & req & [= <-] & _ & ?). eauto.
    + split; [discriminate|].
      by intros (p' & req & [= <-] & [Hne|(key' & _ & Hk & _)] & _).
    + split; [discriminate|].
      intros (p' & req & [= <-] & [Hne|(key' & Hu' & _)] & _); [done|congruence].
    + split; [discriminate|].
      intros (p' & req & [= <-] & [Hne|(key' & Hu' & _)] & _); [done|congruence].
  - rewrite validateSigned_accept_iff. split.
    + intros (req & ?). exists p, req. split; [done|]. split; [by left|done].
    + intros (p' & req & [= <-] & _ & ?). eauto.
Qed.

(** X2.  The validator accepts a request exactly when the caller is known,
    the request is signed or can be co-signed, its bytes unmarshal, the
    request passes [Validate], every query is of a supported kind and every
    call is in the caller's allow list; and the request it returns is the
    one unmarshalled from the bytes, with status 200. *)
Theorem validateRequest_accepts_exactly env perms signerKey apiKey qr m :
  let v := validateRequest env perms signerKey apiKey qr m in
  (err v = None
   <-> exists p req,
         GetUserEntry perms apiKey = Some p
         /\ cosignable env p signerKey qr
         /\ Unmarshal (gossipv1.QueryRequest qr) = inl req /\ Validate req = None
         /\ forallb isSupported (query.PerChainQueries req) = true
         /\ Forall (fun k => k ∈ allowedCalls p) (requestCallKeys req))
  /\ (forall req, queryRequest v = Some req ->
      Unmarshal (gossipv1.QueryRequest qr) = inl req /\ status v = StatusOK
      /\ err v = None).
Proof.
  cbv zeta. split; [apply validateRequest_accept_iff|].
  intros req Hreq.
  destruct (validateRequest_outcome QueryRequestDigest Sign Unmarshal Validate
              PublicKeyString ChainIDString env perms signerKey apiKey qr m)
    as [(Hst & Herr & _)|(Hnone & _)]; [|congruence].
  pose proof (validateRequest_accept_inv QueryRequestDigest Sign Unmarshal Validate
                PublicKeyString ChainIDString env perms signerKey apiKey qr m Herr)
    as (p & req' & _ & Hu & _ & _ & _ & _ & Hq & _).
  rewrite Hq in Hreq. injection Hreq as <-. done.
Qed.

(** *** Status and error *)

Lemma validateSigned_rejection p qr m e :
  err (validateSigned p qr m) = Some e ->
  status (validateSigned p qr m) = statusOf e
  /\ queryRequest (validateSigned p qr m) = None
  /\ (forall k, e = ErrCallNotAuthorized k ->
      exists req pre post,
        Unmarshal (gossipv1.QueryRequest qr) = inl req
        /\ requestCallKeys req = pre ++ k :: post
        /\ Forall (fun k => k ∈ allowedCalls p) pre
        /\ (k ∉ allowedCalls p)).
Proof.
  unfold validateSigned.
  destruct (Unmarshal _) as [req|e'] eqn:Hu.
  2:{ intros [= <-]. simpl. repeat split. discriminate. }
  destruct (Validate req) eqn:Hv.
  { intros [= <-]. simpl. repeat split. discriminate. }
  destruct (validatePerChainQueries _ _ _) as [[st [e'|]] m'] eqn:Hloop; [|discriminate].
  intros [= <-]. simpl.
  apply (validatePerChainQueries_reject PublicKeyString ChainIDString) in Hloop
    as (pre & pcq & post & Hpcqs & _ & Hpre
        & [(_ & -> & -> & _)|(_ & -> & kpre & k & kpost & Hk & Hkpre & Hnot & -> & _)]).
  - repeat split. discriminate.
  - repeat split. intros k' [= <-].
    exists req, (concat (map callKeysOf pre) ++ kpre), (kpost ++ concat (map callKeysOf post)).
    split; [done|]. split.
    + unfold requestCallKeys. rewrite Hpcqs, map_app, concat_app. simpl.
      rewrite Hk. by rewrite <- !app_assoc.
    + split; [|done]. by apply Forall_app.
Qed.

(** X3.  Status, error and returned request go together: without error the
    status is 200 and a request is returned; with an error no request is
    returned and the status is the one of the error, 403 for an unknown key
    or a call without entry, 500 for a failure to sign, 400 otherwise. *)
Theorem validateRequest_status_of_error env perms signerKey apiKey qr m :
  let v := validateRequest env perms signerKey apiKey qr m in
  (err v = None -> status v = StatusOK /\ is_Some (queryRequest v))
  /\ (forall e, err v = Some e -> status v = statusOf e /\ queryRequest v = None).
Proof.
  cbv zeta. split.
  - intros Hacc.
    pose proof (validateRequest_accept_inv QueryRequestDigest Sign Unmarshal Validate
                  PublicKeyString ChainIDString env perms signerKey apiKey qr m Hacc)
      as (p & req & _ & _ & _ & _ & _ & Hst & Hq & _).
    split; [done|]. by exists req.
  - unfold validateRequest.
    destruct (GetUserEntry perms apiKey) as [p|]; [|by intros e [= <-]].
    assert (forall qr' e, err (validateSigned p qr' m) = Some e ->
              status (validateSigned p qr' m) = statusOf e
              /\ queryRequest (validateSigned p qr' m) = None) as Hs.
    { intros qr' e He. by destruct (validateSigned_rejection p qr' m e He) as (? & ? & _). }
    destruct (gossipv1.Signature qr) as [|b sig]; [|apply Hs].
    destruct (allowUnsigned p), signerKey as [key|]; try by intros e [= <-].
    destruct (Sign _ key) as [sg [e'|]]; [by intros e [= <-]|apply Hs].
Qed.

(** X4.  The call named by a "not authorized" error is the first call of
    the request, in the order of the request, that the caller has no entry
    for: every call before it is in the allow list. *)
Theorem validateRequest_names_first_unauthorized env perms signerKey apiKey qr m k :
  err (validateRequest env perms signerKey apiKey qr m) = Some (ErrCallNotAuthorized k) ->
  exists p req pre post,
    GetUserEntry perms apiKey = Some p
    /\ Unmarshal (gossipv1.QueryRequest qr) = inl req
    /\ requestCallKeys req = pre ++ k :: post
    /\ Forall (fun k => k ∈ allowedCalls p) pre
    /\ (k ∉ allowedCalls p).
Proof.
  unfold validateRequest.
  destruct (GetUserEntry perms apiKey) as [p|]; [|discriminate].
  assert (forall qr', gossipv1.QueryRequest qr' = gossipv1.QueryRequest qr ->
            err (validateSigned p qr' m) = Some (ErrCallNotAuthorized k) ->
            exists p0 req pre post,
              Some p = Some p0
              /\ Unmarshal (gossipv1.QueryRequest qr) = inl req
              /\ requestCallKeys req = pre ++ k :: post
              /\ Forall (fun k => k ∈ allowedCalls p0) pre
              /\ (k ∉ allowedCalls p0)) as Hs.
  { intros qr' Hb He.
    destruct (validateSigned_rejection p qr' m _ He) as (_ & _ & Hk).
    destruct (Hk k eq_refl) as (req & pre & post & Hu & ?). rewrite Hb in Hu.
    exists p, req, pre, post. auto. }
  destruct (gossipv1.Signature qr) as [|b sig]; [|by apply Hs].
  destruct (allowUnsigned p), signerKey as [key|]; try discriminate.
  destruct (Sign _ key) as [sg [e'|]]; [discriminate|by apply Hs].
Qed.

(** *** Permissions and repeated validation *)

(** X5.  Permissions are monotone: a request accepted for a caller is
    accepted, with the same returned request, under any table in which the
    caller has at least the same calls and the same right to send unsigned
    requests. *)
Theorem validateRequest_monotone env perms perms' signerKey apiKey qr m m' p p' :
  GetUserEntry perms apiKey = Some p ->
  GetUserEntry perms' apiKey = Some p' ->
  allowUnsigned p = allowUnsigned p' ->
  allowedCalls p ⊆ allowedCalls p' ->
  err (validateRequest env perms signerKey apiKey qr m) = None ->
  err (validateRequest env perms' signerKey apiKey qr m') = None
  /\ queryRequest (validateRequest env perms' signerKey apiKey qr m')
     = queryRequest (validateRequest env perms signerKey apiKey qr m).
Proof.
  intros Hp Hp' Hu Hsub Hacc.
  assert (err (validateRequest env perms' signerKey apiKey qr m') = None) as Hacc'.
  { apply validateRequest_accept_iff in Hacc
      as (p0 & req & Hp0 & Hco & Hum & Hv & Hs & Hk).
    assert (p0 = p) as -> by congruence.
    apply validateRequest_accept_iff. exists p', req. split; [done|]. split.
    { destruct Hco as [?|(key & ? & ? & ?)]; [by left|].
      right. exists key. split; [congruence|done]. }
    do 3 (split; [done|]).
    eapply Forall_impl; [exact Hk|]. intros k Hin. by apply Hsub. }
  split; [done|].
  pose proof (validateRequest_accept_inv QueryRequestDigest Sign Unmarshal Validate
                PublicKeyString ChainIDString env perms signerKey apiKey qr m Hacc)
    as (? & req & _ & Hu1 & _ & _ & _ & _ & -> & _).
  pose proof (validateRequest_accept_inv QueryRequestDigest Sign Unmarshal Validate
                PublicKeyString ChainIDString env perms' signerKey apiKey qr m' Hacc')
    as (? & req' & _ & Hu2 & _ & _ & _ & _ & -> & _).
  congruence.
Qed.

(** X6.  Validating again what the validator hands back changes nothing:
    unless the first answer was a failure to sign (status 500), a second
    validation of the returned request, under the same table, key and
    environment and whatever the counters are by then, gives the same
    status, request and error and hands back the same request. *)
Theorem validateRequest_again env perms signerKey apiKey qr m m2 :
  let v := validateRequest env perms signerKey apiKey qr m in
  let v2 := validateRequest env perms signerKey apiKey (signedRequest v) m2 in
  status v <> StatusInternalServerError ->
  status v2 = status v /\ queryRequest v2 = queryRequest v /\ err v2 = err v
  /\ signedRequest v2 = signedRequest v.
Proof.
  cbv zeta. unfold validateRequest.
  destruct (GetUserEntry perms apiKey) as [p|]; [|done].
  intros H500. revert H500.
  assert (forall qr' m1 m2,
            let v := validateSigned p qr' m1 in
            let v2 := validateSigned p qr' m2 in
            status v2 = status v /\ queryRequest v2 = queryRequest v /\ err v2 = err v
            /\ signedRequest v2 = qr') as Hs.
  { intros qr' m1 m2'. cbv zeta.
    pose proof (validateSigned_metrics_irrelevant p qr' m2' m1) as H. cbv zeta in H.
    rewrite (validateSigned_frame Unmarshal Validate PublicKeyString ChainIDString) in H |- *.
    destruct H as (? & ? & ? & _). done. }
  destruct (gossipv1.Signature qr) as [|b sig] eqn:Hsig.
  - destruct (allowUnsigned p) eqn:Hu, signerKey as [key|].
    + destruct (Sign _ key) as [sg [e|]] eqn:Hsign.
      * simpl. done.
      * intros _.
        rewrite !(validateSigned_frame Unmarshal Validate PublicKeyString ChainIDString).
        cbn [gossipv1.Signature gossipv1.QueryRequest].
        destruct sg as [|b sg]; [rewrite Hsign|]; apply Hs.
    + simpl. by rewrite Hsig.
    + simpl. by rewrite Hsig.
    + simpl. by rewrite Hsig.
  - intros _.
    rewrite !(validateSigned_frame Unmarshal Validate PublicKeyString ChainIDString).
    rewrite Hsig. apply Hs.
Qed.

(** X7.  Whether a request is accepted does not depend on the order of its
    calls, nor on how often a call occurs: two signed requests of the same
    caller that both pass [Validate], hold only supported queries or not
    alike, and ask for the same set of calls are accepted or rejected
    together. *)
Theorem validateRequest_set_of_calls env perms signerKey apiKey qr1 qr2 m1 m2 req1 req2 :
  gossipv1.Signature qr1 <> [] -> gossipv1.Signature qr2 <> [] ->
  Unmarshal (gossipv1.QueryRequest qr1) = inl req1 ->
  Unmarshal (gossipv1.QueryRequest qr2) = inl req2 ->
  Validate req1 = None -> Validate req2 = None ->
  forallb isSupported (query.PerChainQueries req1)
  = forallb isSupported (query.PerChainQueries req2) ->
  (forall k, k ∈ requestCallKeys req1 <-> k ∈ requestCallKeys req2) ->
  err (validateRequest env perms signerKey apiKey qr1 m1) = None
  <-> err (validateRequest env perms signerKey apiKey qr2 m2) = None.
Proof.
  intros Hs1 Hs2 Hu1 Hu2 Hv1 Hv2 Hsup Hkeys.
  rewrite !validateRequest_accept_iff.
  assert (forall qra qrb reqa reqb,
            gossipv1.Signature qrb <> [] ->
            Unmarshal (gossipv1.QueryRequest qra) = inl reqa ->
            Unmarshal (gossipv1.QueryRequest qrb) = inl reqb ->
            Validate reqb = None ->
            forallb isSupported (query.PerChainQueries reqa)
            = forallb isSupported (query.PerChainQueries reqb) ->
            (forall k, k ∈ requestCallKeys reqa -> k ∈ requestCallKeys reqb)
            /\ (forall k, k ∈ requestCallKeys reqb -> k ∈ requestCallKeys reqa) ->
            (exists p req,
               GetUserEntry perms apiKey = Some p /\ cosignable env p signerKey qra
               /\ Unmarshal (gossipv1.QueryRequest qra) = inl req /\ Validate req = None
               /\ forallb isSupported (query.PerChainQueries req) = true
               /\ Forall (fun k => k ∈ allowedCalls p) (requestCallKeys req)) ->
            exists p req,
              GetUserEntry perms apiKey = Some p /\ cosignable env p signerKey qrb
              /\ Unmarshal (gossipv1.QueryRequest qrb) = inl req /\ Validate req = None
              /\ forallb isSupported (query.PerChainQueries req) = true
              /\ Forall (fun k => k ∈ allowedCalls p) (requestCallKeys req)) as Hdir.
  { intros qra qrb reqa reqb Hsb Hua Hub Hvb Hsupab [_ Hba]
      (p & req & Hp & _ & Hu & _ & Hs & Hk).
    assert (req = reqa) as -> by congruence.
    exists p, reqb. split; [done|]. split; [by left|]. do 2 (split; [done|]).
    split; [congruence|].
    rewrite Forall_forall in Hk |- *. intros k Hin. by apply Hk, Hba. }
  split.
  - apply (Hdir qr1 qr2 req1 req2); try done. split; intros k; apply Hkeys.
  - apply (Hdir qr2 qr1 req2 req1); try done. split; intros k; apply Hkeys.
Qed.

End ValidatorMore.

(** * More on the query-response forwarder *)

Lemma forwardAll_matching arrivals g :
  exited g = false ->
  Forall (fun a => query.RespChain a.2 = a.1) arrivals ->
  forwardAll arrivals g
  = {| queryResponseC := queryResponseC g ++ arrivals.*2; exited := false |}.
Proof.
  revert g. induction arrivals as [|[c r] rest IH]; intros g Hg Hall.
  - simpl. rewrite app_nil_r. by destruct g; simpl in *; subst.
  - apply Forall_cons in Hall as [Hr Hrest]. simpl in Hr.
    change (forwardAll ((c, r) :: rest) g)
      with (forwardAll rest (forwardQueryResponse c r g)).
    rewrite forwardQueryResponse_match by done.
    rewrite IH by done. simpl. by rewrite <- app_assoc.
Qed.

(** X8.  The forwarders pass on the answers in the order they arrive,
    none dropped, none twice and none changed, as long as every answer came
    through the channel of its own chain; the first answer that did not ends
    the process, and neither it nor any later answer, good or bad, reaches
    the query handler. *)
Theorem forwardAll_in_order pre :
  Forall (fun a => query.RespChain a.2 = a.1) pre ->
  forwardAll pre nodeStart = {| queryResponseC := pre.*2; exited := false |}
  /\ forall channel response post,
       query.RespChain response <> channel ->
       forwardAll (pre ++ (channel, response) :: post) nodeStart
       = {| queryResponseC := pre.*2; exited := true |}.
Proof.
  intros Hpre.
  assert (forwardAll pre nodeStart = {| queryResponseC := pre.*2; exited := false |}) as Hrun.
  { by rewrite forwardAll_matching. }
  split; [done|]. intros channel response post Hne.
  unfold forwardAll in *. rewrite foldl_app, Hrun. simpl.
  rewrite forwardQueryResponse_mismatch by done.
  by apply (forwardAll_exited post).
Qed.

(** * The message forwarder *)

Section MessageForwarderFacts.
Variable GovernanceEmitter : Bytes.
Variable GovernanceChain : ChainID.

Abbreviation forwardMessage := (forwardMessage GovernanceEmitter GovernanceChain).
Abbreviation forwardMessages := (forwardMessages GovernanceEmitter GovernanceChain).
Abbreviation fromGovernance := (fromGovernance GovernanceEmitter GovernanceChain).
Abbreviation forwardable := (forwardable GovernanceEmitter GovernanceChain).

Lemma forwardMessage_halted env c msg g : halted g = true -> forwardMessage env c msg g = g.
Proof. unfold forwardMessage. by intros ->. Qed.

Lemma forwardMessages_halted env arrivals g :
  halted g = true -> forwardMessages env arrivals g = g.
Proof.
  revert g. induction arrivals as [|a rest IH]; intros g Hg; [done|].
  unfold forwardMessages in *. simpl. rewrite forwardMessage_halted by done. by apply IH.
Qed.

Lemma forwardMessage_forwardable env c msg g :
  halted g = false -> forwardable (c, msg) ->
  forwardMessage env c msg g
  = {| msgC := msgC g ++ [msg]; logged := logged g; halted := false |}.
Proof.
  intros Hg [[Hc Hz] Hgov]. simpl in *. unfold forwardMessage. rewrite Hg.
  rewrite (proj2 (N.eqb_eq _ _) Hc). simpl.
  rewrite bool_decide_eq_false_2 by done.
  destruct (bool_decide_reflect (common.EmitterAddress msg = GovernanceEmitter)) as [He|];
    [|done].
  destruct (N.eqb_spec (common.EmitterChain msg) GovernanceChain) as [Hch|]; [|done].
  destruct Hgov. by split.
Qed.

Lemma forwardMessage_governance env c msg g :
  halted g = false -> wellOriginated (c, msg) -> fromGovernance msg ->
  exists text, forwardMessage env c msg g = logAt zapcore.ErrorLevel text g.
Proof.
  intros Hg [Hc Hz] [He Hch]. simpl in *. unfold forwardMessage. rewrite Hg.
  rewrite (proj2 (N.eqb_eq _ _) Hc). simpl.
  rewrite bool_decide_eq_false_2 by done.
  rewrite bool_decide_eq_true_2 by done.
  rewrite (proj2 (N.eqb_eq _ _) Hch). simpl. by eexists.
Qed.

Lemma forwardMessage_ill_originated env c msg g :
  halted g = false -> ~ wellOriginated (c, msg) ->
  exists text, forwardMessage env c msg g = logAt (securityLevel env) text g.
Proof.
  intros Hg Hbad. unfold forwardMessage. rewrite Hg.
  destruct (N.eqb_spec (common.EmitterChain msg) c) as [Hc|Hc]; simpl; [|by eexists].
  destruct (bool_decide_reflect (common.EmitterAddress msg = zeroAddress)) as [Hz|Hz];
    [by eexists|].
  destruct Hbad. by split.
Qed.

(** What one arrival does to a forwarder that has not halted. *)
Lemma forwardMessage_cases env c msg g :
  halted g = false ->
  (forwardable (c, msg)
   /\ forwardMessage env c msg g
      = {| msgC := msgC g ++ [msg]; logged := logged g; halted := false |})
  \/ (~ forwardable (c, msg) /\ wellOriginated (c, msg)
      /\ exists text, forwardMessage env c msg g = logAt zapcore.ErrorLevel text g)
  \/ (~ forwardable (c, msg) /\ ~ wellOriginated (c, msg)
      /\ exists text, forwardMessage env c msg g = logAt (securityLevel env) text g).
Proof.
  intros Hg.
  destruct (decide (wellOriginated (c, msg))) as [Hw|Hw].
  - destruct (decide (fromGovernance msg)) as [Hgov|Hgov].
    + right. left. split; [by intros [_ ?]|]. split; [done|].
      by apply forwardMessage_governance.
    + left. split; [by split|]. apply forwardMessage_forwardable; [done|by split].
  - right. right. split; [by intros [? _]|]. split; [done|].
    by apply forwardMessage_ill_originated.
Qed.

(** As long as no entry is written at [FatalLevel], the forwarder passes on
    the forwardable arrivals and logs one error for each of the others. *)
Lemma forwardMessages_running env arrivals g :
  halted g = false ->
  Forall (fun a => wellOriginated a \/ env = GoTest) arrivals ->
  exists entries,
    forwardMessages env arrivals g
    = {| msgC := msgC g ++ (filter forwardable arrivals).*2;
         logged := logged g ++ entries; halted := false |}
    /\ Forall (fun entry => entry.1 = zapcore.ErrorLevel) entries
    /\ (length entries + length (filter forwardable arrivals) = length arrivals)%nat.
Proof.
  revert g. induction arrivals as [|[c msg] rest IH]; intros g Hg Hall.
  - exists []. simpl. rewrite !app_nil_r. by destruct g; simpl in *; subst.
  - apply Forall_cons in Hall as [Ha Hrest].
    change (forwardMessages env ((c, msg) :: rest) g)
      with (forwardMessages env rest (forwardMessage env c msg g)).
    assert (forall text, ~ forwardable (c, msg) ->
              forwardMessage env c msg g = logAt zapcore.ErrorLevel text g ->
              exists entries,
                forwardMessages env rest (forwardMessage env c msg g)
                = {| msgC := msgC g ++ (filter forwardable ((c, msg) :: rest)).*2;
                     logged := logged g ++ entries; halted := false |}
                /\ Forall (fun entry => entry.1 = zapcore.ErrorLevel) entries
                /\ (length entries + length (filter forwardable ((c, msg) :: rest))
                    = length ((c, msg) :: rest))%nat) as Hlog.
    { intros text Hnot ->.
      destruct (IH (logAt zapcore.ErrorLevel text g) eq_refl Hrest) as (entries & -> & Hl & Hn).
      exists ((zapcore.ErrorLevel, text) :: entries).
      rewrite filter_cons_False by done. simpl. rewrite <- app_assoc. simpl.
      split; [done|]. split; [by constructor|lia]. }
    destruct (forwardMessage_cases env c msg g Hg)
      as [[Hf Heq]|[(Hnot & _ & text & Heq)|(Hnot & Hbad & text & Heq)]].
    + rewrite Heq.
      destruct (IH {| msgC := msgC g ++ [msg]; logged := logged g; halted := false |}
                  eq_refl Hrest) as (entries & -> & Hl & Hn).
      exists entries. rewrite filter_cons_True by done. simpl. rewrite <- app_assoc. simpl.
      split; [done|]. split; [done|lia].
    + by apply (Hlog text).
    + destruct Ha as [?| ->]; [done|]. by apply (Hlog text).
Qed.

(** X9.  Under [GoTest] nothing ends the process: whatever arrives, the
    forwarders pass on exactly the messages that came through the channel
    of their own chain, from an emitter that is neither the zero address nor
    the governance emitter on the governance chain, in the order of
    arrival, and write one log entry at error level for each message they
    drop. *)
Theorem forwardMessages_gotest arrivals :
  let g := forwardMessages GoTest arrivals forwarderStart in
  halted g = false
  /\ msgC g = (filter forwardable arrivals).*2
  /\ Forall (fun entry => entry.1 = zapcore.ErrorLevel) (logged g)
  /\ (length (logged g) + length (msgC g) = length arrivals)%nat.
Proof.
  cbv zeta.
  destruct (forwardMessages_running GoTest arrivals forwarderStart eq_refl)
    as (entries & -> & Hl & Hn).
  { apply Forall_forall. intros a _. by right. }
  simpl. by rewrite length_fmap.
Qed.

(** X10.  Outside [GoTest] the first message that came through the
    channel of another chain, or from the zero address, ends the process:
    the messages before it are passed on as under [GoTest], and neither it
    nor any later message reaches [g.msgC].  A message of the governance
    emitter does not end the process. *)
Theorem forwardMessages_stops_at_first_ill_originated env pre :
  env <> GoTest ->
  Forall wellOriginated pre ->
  (halted (forwardMessages env pre forwarderStart) = false
   /\ msgC (forwardMessages env pre forwarderStart) = (filter forwardable pre).*2)
  /\ forall bad post,
       ~ wellOriginated bad ->
       halted (forwardMessages env (pre ++ bad :: post) forwarderStart) = true
       /\ msgC (forwardMessages env (pre ++ bad :: post) forwarderStart)
          = (filter forwardable pre).*2.
Proof.
  intros Henv Hpre.
  destruct (forwardMessages_running env pre forwarderStart eq_refl)
    as (entries & Hrun & _).
  { eapply Forall_impl; [exact Hpre|]. intros a Ha. by left. }
  split; [by rewrite Hrun|].
  intros [c msg] post Hbad.
  replace (forwardMessages env (pre ++ (c, msg) :: post) forwarderStart)
    with (forwardMessages env post
            (forwardMessage env c msg (forwardMessages env pre forwarderStart)))
    by (unfold forwardMessages; by rewrite foldl_app).
  rewrite Hrun. simpl.
  destruct (forwardMessage_ill_originated env c msg
              {| msgC := (filter forwardable pre).*2; logged := entries; halted := false |}
              eq_refl Hbad) as [text ->].
  assert (securityLevel env = zapcore.FatalLevel) as -> by by destruct env.
  by rewrite (forwardMessages_halted env post).
Qed.

(** X11.  In every environment, whatever arrives and wherever the
    process stops, every message on [g.msgC] arrived through the channel of
    the chain it names as emitter chain, names an emitter other than the
    zero address, and is not a message of the governance emitter on the
    governance chain. *)
Theorem forwardMessages_safe env arrivals :
  Forall (fun msg => exists c, (c, msg) ∈ arrivals
                      /\ common.EmitterChain msg = c
                      /\ common.EmitterAddress msg <> zeroAddress
                      /\ ~ (common.EmitterAddress msg = GovernanceEmitter
                            /\ common.EmitterChain msg = GovernanceChain))
    (msgC (forwardMessages env arrivals forwarderStart)).
Proof.
  assert (forall (P : common.MessagePublication -> Prop) arrivals g,
            Forall P (msgC g) ->
            Forall (fun a => forwardable a -> P a.2) arrivals ->
            Forall P (msgC (forwardMessages env arrivals g))) as Hinv.
  { intros P l. induction l as [|[c msg] rest IH]; intros g Hg Hall; [done|].
    apply Forall_cons in Hall as [Ha Hrest].
    change (forwardMessages env ((c, msg) :: rest) g)
      with (forwardMessages env rest (forwardMessage env c msg g)).
    apply IH; [|done].
    destruct (halted g) eqn:Hh; [by rewrite forwardMessage_halted|].
    destruct (forwardMessage_cases env c msg g Hh)
      as [[Hf ->]|[(_ & _ & text & ->)|(_ & _ & text & ->)]]; simpl; [|done..].
    apply Forall_app. split; [done|]. apply Forall_singleton. by apply Ha. }
  apply Hinv; [done|].
  apply Forall_forall. intros [c msg] Hin [[Hc Hz] Hgov]. simpl in *.
  exists c. done.
Qed.

End MessageForwarderFacts.

(** * Setting up the watchers *)

Lemma string_length_app (s t : string) :
  String.length (s +:+ t) = (String.length s + String.length t)%nat.
Proof. induction s as [|a s IH]; simpl; [done|]. by rewrite IH. Qed.

Lemma string_app_inj_r (t s1 s2 : string) : s1 +:+ t = s2 +:+ t -> s1 = s2.
Proof.
  revert s2. induction s1 as [|a s1 IH]; intros [|b s2] H; simpl in H.
  - done.
  - apply (f_equal String.length) in H. simpl in H. rewrite !string_length_app in H. simpl in H. lia.
  - apply (f_equal String.length) in H. simpl in H. rewrite !string_length_app in H. simpl in H. lia.
  - injection H as -> H. f_equal. by apply IH.
Qed.

Section WatcherSetupFacts.
Context {L1Finalizer Runnable Readiness : Type}.
Variable MustRegisterReadinessSyncing : ChainID -> Readiness -> option Readiness.

Abbreviation Setup := (Setup L1Finalizer Runnable Readiness).
Abbreviation WatcherConfig := (watchers.WatcherConfig L1Finalizer Runnable).
Abbreviation configureWatcher := (configureWatcher _ _ _ MustRegisterReadinessSyncing).
Abbreviation configureWatchers := (configureWatchers _ _ _ MustRegisterReadinessSyncing).
Abbreviation networkIDs :=
  (fmap (M:=list) (@watchers.GetNetworkID L1Finalizer Runnable)).

(** The chains of the configurations that get request channels: all but
    those of the network [solana-confirmed]. *)
Abbreviation channelChains :=
  (fun watcherConfigs : list WatcherConfig =>
     watchers.GetChainID
       <$> filter (fun wc => watchers.GetNetworkID wc <> "solana-confirmed") watcherConfigs).

(** What a round that goes through has done. *)
Lemma configureWatcher_configured env (wc : WatcherConfig) (s s' : Setup) :
  configureWatcher env wc s = Configured s' ->
  watchersMap s !! watchers.GetNetworkID wc = None
  /\ exists l1 l1finalizer runnable,
       requiredFinalizer wc s = inl l1
       /\ watchers.Create wc l1 env = inl (l1finalizer, runnable)
       /\ watchersMap s'
          = <[watchers.GetNetworkID wc := l1finalizer]> (watchersMap s)
       /\ runnablesWithScissors s'
          = <[watchers.GetNetworkID wc +:+ "_watch" := runnable]>
              (runnablesWithScissors s)
       /\ chainQueryReqC s'
          = list_to_set (channelChains [wc]) ∪ chainQueryReqC s
       /\ chainObsvReqC s'
          = list_to_set (channelChains [wc]) ∪ chainObsvReqC s.
Proof.
  unfold configureWatcher.
  destruct (watchersMap s !! watchers.GetNetworkID wc) eqn:Hid; [discriminate|].
  intros H. split; [done|].
  assert (forall s1, watchersMap s1 = watchersMap s ->
            createWatcher env wc s1 = Configured s' ->
            exists l1 l1finalizer runnable,
              requiredFinalizer wc s = inl l1
              /\ watchers.Create wc l1 env = inl (l1finalizer, runnable)
              /\ s' = withWatcher (watchers.GetNetworkID wc) l1finalizer runnable s1)
    as Hcreate.
  { intros s1 Hmap. unfold createWatcher.
    replace (requiredFinalizer wc s1) with (requiredFinalizer wc s)
      by (unfold requiredFinalizer; by rewrite Hmap).
    destruct (requiredFinalizer wc s) as [l1|]; [|discriminate].
    destruct (watchers.Create wc l1 env) as [[l1finalizer runnable]|e] eqn:Hcr;
      [|discriminate].
    intros [= <-]. by exists l1, l1finalizer, runnable. }
  rewrite filter_cons, filter_nil.
  destruct (bool_decide_reflect (watchers.GetNetworkID wc = "solana-confirmed")) as [Hc|Hc].
  - apply Hcreate in H as (l1 & l1f & r & Hl1 & Hcr & ->); [|done].
    exists l1, l1f, r. rewrite decide_False by (by intros ?). simpl.
    rewrite !(left_id_L ∅ (∪)). done.
  - destruct (MustRegisterReadinessSyncing _ _) as [rd|]; [|discriminate].
    apply Hcreate in H as (l1 & l1f & r & Hl1 & Hcr & ->); [|done].
    exists l1, l1f, r. rewrite decide_True by done. simpl.
    rewrite !(right_id_L ∅ (∪)). done.
Qed.

(** What a walk that goes through all configurations has done. *)
Lemma configureWatchers_configured_from env (watcherConfigs : list WatcherConfig)
    (s s' : Setup) :
  configureWatchers env watcherConfigs s = Configured s' ->
  NoDup (networkIDs watcherConfigs)
  /\ (forall id, id ∈ networkIDs watcherConfigs -> watchersMap s !! id = None)
  /\ (forall id, id ∉ networkIDs watcherConfigs ->
        watchersMap s' !! id = watchersMap s !! id)
  /\ (forall name, (forall id, id ∈ networkIDs watcherConfigs -> name <> id +:+ "_watch") ->
        runnablesWithScissors s' !! name = runnablesWithScissors s !! name)
  /\ (forall wc, wc ∈ watcherConfigs ->
        exists l1 l1finalizer runnable,
          watchers.Create wc l1 env = inl (l1finalizer, runnable)
          /\ watchersMap s' !! watchers.GetNetworkID wc = Some l1finalizer
          /\ runnablesWithScissors s' !! (watchers.GetNetworkID wc +:+ "_watch")
             = Some runnable)
  /\ chainQueryReqC s'
     = list_to_set (channelChains watcherConfigs) ∪ chainQueryReqC s
  /\ chainObsvReqC s'
     = list_to_set (channelChains watcherConfigs) ∪ chainObsvReqC s.
Proof.
  revert s. induction watcherConfigs as [|wc rest IH]; intros s.
  - intros [= <-]. simpl. split; [constructor|].
    split; [by intros id ?%elem_of_nil|]. split; [done|]. split; [done|].
    split; [by intros wc ?%elem_of_nil|].
    by rewrite !(left_id_L ∅ (∪)).
  - simpl. destruct (configureWatcher env wc s) as [s1| | |] eqn:Hwc; try discriminate.
    intros Hrest.
    apply configureWatcher_configured in Hwc
      as (Hfresh & l1 & l1f & r & _ & Hcr & Hmap & Hrun & Hq & Ho).
    apply IH in Hrest as (Hnd & Hnone & Hkeep & Hrkeep & Hall & Hq' & Ho').
    assert (watchers.GetNetworkID wc ∉ networkIDs rest) as Hnotin.
    { intros Hin. apply Hnone in Hin. by rewrite Hmap, lookup_insert_eq in Hin. }
    split; [by constructor|]. split.
    { intros id [->|Hin]%elem_of_cons; [done|].
      pose proof (Hnone id Hin) as Hn. rewrite Hmap in Hn.
      apply lookup_insert_None in Hn. tauto. }
    split.
    { intros id Hid. rewrite not_elem_of_cons in Hid. destruct Hid as [Hne Hid].
      rewrite (Hkeep id Hid), Hmap. by apply lookup_insert_ne. }
    split.
    { intros name Hname. rewrite Hrkeep, Hrun.
      - apply lookup_insert_ne. intros Heq. apply (Hname (watchers.GetNetworkID wc)); [|done].
        apply elem_of_cons. by left.
      - intros id Hin. apply Hname, elem_of_cons. by right. }
    split.
    { intros wc' [->|Hin]%elem_of_cons; [|by apply Hall].
      exists l1, l1f, r. split; [done|]. split.
      - by rewrite (Hkeep _ Hnotin), Hmap, lookup_insert_eq.
      - rewrite Hrkeep, Hrun; [by rewrite lookup_insert_eq|].
        intros id Hin Heq. apply string_app_inj_r in Heq. by subst. }
    rewrite Hq', Ho', Hq, Ho. rewrite !filter_cons, filter_nil.
    destruct (decide (watchers.GetNetworkID wc <> "solana-confirmed")); simpl.
    + rewrite !(right_id_L ∅ (∪)), !(assoc_L (∪)).
      by rewrite !(comm_L (∪) (list_to_set _) {[watchers.GetChainID wc]}).
    + by rewrite !(left_id_L ∅ (∪)).
Qed.

(** Where the finalizer handed to a watcher came from. *)
Lemma configureWatchers_finalizer_from env (watcherConfigs : list WatcherConfig)
    (s s' : Setup) i wc :
  configureWatchers env watcherConfigs s = Configured s' ->
  watcherConfigs !! i = Some wc ->
  watchers.RequiredL1Finalizer wc <> "" ->
  exists l1watcher,
    (exists l1finalizer runnable,
       watchers.Create wc (Some l1watcher) env = inl (l1finalizer, runnable))
    /\ (watchersMap s !! watchers.RequiredL1Finalizer wc = Some (Some l1watcher)
        \/ exists j l1wc l1 runnable,
             (j < i)%nat /\ watcherConfigs !! j = Some l1wc
             /\ watchers.GetNetworkID l1wc = watchers.RequiredL1Finalizer wc
             /\ watchers.Create l1wc l1 env = inl (Some l1watcher, runnable)).
Proof.
  revert s i. induction watcherConfigs as [|wc0 rest IH]; intros s i; [done|].
  simpl. destruct (configureWatcher env wc0 s) as [s1| | |] eqn:Hwc; try discriminate.
  intros Hrest Hi Hreq.
  apply configureWatcher_configured in Hwc
    as (_ & l1 & l1f & r & Hl1 & Hcr & Hmap & _).
  destruct i as [|i]; simpl in Hi.
  - injection Hi as ->. unfold requiredFinalizer in Hl1.
    rewrite bool_decide_eq_false_2 in Hl1 by done.
    destruct (watchersMap s !! watchers.RequiredL1Finalizer wc) as [[f|]|] eqn:Hf;
      try discriminate.
    injection Hl1 as <-. exists f. split; [by exists l1f, r|by left].
  - destruct (IH s1 i Hrest Hi Hreq) as (f & Hcreate & Hfrom).
    exists f. split; [done|].
    destruct Hfrom as [Hfrom|(j & l1wc & l1' & r' & Hj & Hlook & Hid & Hcr')].
    + rewrite Hmap in Hfrom. apply lookup_insert_Some in Hfrom as [[Hid Hf]|[_ Hfrom]].
      * right. exists 0%nat, wc0, l1, r. subst l1f. split; [lia|]. done.
      * by left.
    + right. exists (S j), l1wc, l1', r'. split; [lia|]. done.
Qed.

(** What a round does when the rounds before it went through. *)
Lemma configureWatchers_app env (pre post : list WatcherConfig) (s s1 : Setup) :
  configureWatchers env pre s = Configured s1 ->
  configureWatchers env (pre ++ post) s = configureWatchers env post s1.
Proof.
  revert s. induction pre as [|wc pre IH]; intros s; simpl; [by intros [= ->]|].
  destruct (configureWatcher env wc s); try discriminate. apply IH.
Qed.

(** X12.  When the walk goes through all configurations, their network
    ids are pairwise distinct and are the networks that have an entry in
    [watchers]; the chains of all configurations but those of
    [solana-confirmed] have an observation-request channel and, besides the
    chains that had one before, a query-request channel. *)
Theorem configureWatchers_networks_and_channels env (watcherConfigs : list WatcherConfig)
    queryReqC runnables r s' :
  configureWatchers env watcherConfigs (setupStart queryReqC runnables r)
  = Configured s' ->
  NoDup (networkIDs watcherConfigs)
  /\ (forall id, is_Some (watchersMap s' !! id) <-> id ∈ networkIDs watcherConfigs)
  /\ chainQueryReqC s' = list_to_set (channelChains watcherConfigs) ∪ queryReqC
  /\ chainObsvReqC s' = list_to_set (channelChains watcherConfigs).
Proof.
  intros H. apply configureWatchers_configured_from in H
    as (Hnd & _ & Hkeep & _ & Hall & Hq & Ho).
  split; [done|]. split; [|split; [done|]].
  - intros id. split.
    + intros Hsome. destruct (decide (id ∈ networkIDs watcherConfigs)) as [|Hnot]; [done|].
      rewrite (Hkeep id Hnot) in Hsome. simpl in Hsome. rewrite lookup_empty in Hsome.
      by destruct Hsome.
    + intros (wc & -> & Hin)%list_elem_of_fmap.
      destruct (Hall wc Hin) as (? & l1f & ? & _ & -> & _). by exists l1f.
  - rewrite Ho. simpl. by rewrite (right_id_L ∅ (∪)).
Qed.

(** X13.  When the walk goes through, every configuration has its own
    runnable: the one its [Create] returned is in [g.runnablesWithScissors]
    under the network id followed by [_watch], no later watcher has taken
    its place, and the finalizer that [Create] returned is the entry of the
    network in [watchers].  The runnables under other names are as they
    were. *)
Theorem configureWatchers_runnables env (watcherConfigs : list WatcherConfig)
    queryReqC runnables r s' :
  configureWatchers env watcherConfigs (setupStart queryReqC runnables r)
  = Configured s' ->
  (forall wc, wc ∈ watcherConfigs ->
     exists l1 l1finalizer runnable,
       watchers.Create wc l1 env = inl (l1finalizer, runnable)
       /\ watchersMap s' !! watchers.GetNetworkID wc = Some l1finalizer
       /\ runnablesWithScissors s' !! (watchers.GetNetworkID wc +:+ "_watch")
          = Some runnable)
  /\ (forall name,
        (forall wc, wc ∈ watcherConfigs -> name <> watchers.GetNetworkID wc +:+ "_watch") ->
        runnablesWithScissors s' !! name = runnables !! name).
Proof.
  intros H. apply configureWatchers_configured_from in H
    as (_ & _ & _ & Hrkeep & Hall & _).
  split; [done|]. intros name Hname. rewrite Hrkeep; [done|].
  intros id (wc & -> & Hin)%list_elem_of_fmap. by apply Hname.
Qed.

(** X14.  The L1 must be configured before the watcher that needs it:
    when the walk goes through, every configuration that requires an L1
    finalizer comes after the configuration of that network, whose [Create]
    returned a finalizer that is not nil, and this finalizer is the one the
    watcher was created with. *)
Theorem configureWatchers_l1_before env (watcherConfigs : list WatcherConfig)
    queryReqC runnables r s' i wc :
  configureWatchers env watcherConfigs (setupStart queryReqC runnables r)
  = Configured s' ->
  watcherConfigs !! i = Some wc ->
  watchers.RequiredL1Finalizer wc <> "" ->
  exists j l1wc l1 l1watcher l1runnable l1finalizer runnable,
    (j < i)%nat /\ watcherConfigs !! j = Some l1wc
    /\ watchers.GetNetworkID l1wc = watchers.RequiredL1Finalizer wc
    /\ watchers.Create l1wc l1 env = inl (Some l1watcher, l1runnable)
    /\ watchers.Create wc (Some l1watcher) env = inl (l1finalizer, runnable).
Proof.
  intros H Hi Hreq.
  destruct (configureWatchers_finalizer_from _ _ _ _ _ _ H Hi Hreq)
    as (f & (l1f & r' & Hcr) & [Hfrom|(j & l1wc & l1 & r1 & Hj & Hlook & Hid & Hcr1)]).
  { simpl in Hfrom. by rewrite lookup_empty in Hfrom. }
  by exists j, l1wc, l1, f, r1, l1f, r'.
Qed.

(** X15.  A network configured twice ends the walk with an error at its
    second configuration: the error names the network, and neither this
    configuration nor any after it has registered anything, opened a
    channel or created a watcher. *)
Theorem configureWatchers_duplicate env (pre : list WatcherConfig) wc post
    queryReqC runnables r s :
  configureWatchers env pre (setupStart queryReqC runnables r) = Configured s ->
  watchers.GetNetworkID wc ∈ networkIDs pre ->
  configureWatchers env (pre ++ wc :: post) (setupStart queryReqC runnables r)
  = SetupError ("NetworkID already configured: " +:+ watchers.GetNetworkID wc) s.
Proof.
  intros Hpre Hin. rewrite (configureWatchers_app _ _ _ _ _ Hpre). simpl.
  apply configureWatchers_configured_from in Hpre as (_ & _ & _ & _ & Hall & _).
  apply list_elem_of_fmap in Hin as (wc' & Hid & Hin).
  destruct (Hall wc' Hin) as (? & l1f & ? & _ & Hmap & _).
  unfold configureWatcher. by rewrite Hid, Hmap.
Qed.

(** X16.  A watcher that requires the L1 finalizer of a network that
    has not been configured before it does not get created.  When its own
    network has been configured before, the walk returns the error of the
    duplicate, which is checked first.  Otherwise the walk does not return:
    the process ends, at the fatal log entry or, before it, where the
    readiness registration panics. *)
Theorem configureWatchers_missing_l1 env (pre : list WatcherConfig) wc post
    queryReqC runnables r s :
  configureWatchers env pre (setupStart queryReqC runnables r) = Configured s ->
  watchers.RequiredL1Finalizer wc <> "" ->
  watchers.RequiredL1Finalizer wc ∉ networkIDs pre ->
  let result :=
    configureWatchers env (pre ++ wc :: post) (setupStart queryReqC runnables r) in
  (watchers.GetNetworkID wc ∈ networkIDs pre
   /\ result
      = SetupError ("NetworkID already configured: " +:+ watchers.GetNetworkID wc) s)
  \/ ((watchers.GetNetworkID wc ∉ networkIDs pre)
      /\ (result = SetupPanic
          \/ exists s1, result = SetupFatal s1
                        /\ watchersMap s1 = watchersMap s
                        /\ runnablesWithScissors s1 = runnablesWithScissors s)).
Proof.
  intros Hpre Hreq Hl1. cbv zeta. rewrite (configureWatchers_app _ _ _ _ _ Hpre). simpl.
  apply configureWatchers_configured_from in Hpre as (_ & _ & Hkeep & _ & Hall & _).
  destruct (decide (watchers.GetNetworkID wc ∈ networkIDs pre)) as [Hin|Hid].
  { left. split; [done|].
    apply list_elem_of_fmap in Hin as (wc' & Heq & Hin).
    destruct (Hall wc' Hin) as (? & l1f & ? & _ & Hmap & _).
    unfold configureWatcher. by rewrite Heq, Hmap. }
  right. split; [done|].
  pose proof (Hkeep _ Hid) as Hfresh. pose proof (Hkeep _ Hl1) as Hnone.
  simpl in Hfresh, Hnone. rewrite lookup_empty in Hfresh, Hnone.
  unfold configureWatcher. rewrite Hfresh.
  assert (forall s1 : Setup, watchersMap s1 = watchersMap s ->
            createWatcher env wc s1 = SetupFatal s1) as Hfatal.
  { intros s1 Hmap. unfold createWatcher, requiredFinalizer.
    rewrite bool_decide_eq_false_2 by done. by rewrite Hmap, Hnone. }
  destruct (bool_decide (watchers.GetNetworkID wc = "solana-confirmed")).
  - right. exists s. by rewrite Hfatal.
  - destruct (MustRegisterReadinessSyncing _ _) as [rd|]; [|by left].
    right. eexists. by rewrite Hfatal.
Qed.

End WatcherSetupFacts.

(** * More on the mock watchers and the test helpers *)

Lemma statusSequence_S n c md :
  statusSequence (S n) c md
  = (getStatusAlreadyLocked c md).1 :: statusSequence n c (getStatusAlreadyLocked c md).2.
Proof. simpl. by destruct (getStatusAlreadyLocked c md). Qed.

Lemma getStatusAlreadyLocked_retry c md val :
  retriesPerChain md !! c = Some val ->
  - 2 ^ 63 < val < ignoreQuery ->
  getStatusAlreadyLocked c md
  = (query.QueryRetryNeeded,
     withRetries (if 0 <? val - 1 then <[c := val - 1]> (retriesPerChain md)
                  else delete c (retriesPerChain md)) md).
Proof.
  intros Hr Hval. unfold getStatusAlreadyLocked. rewrite Hr.
  unfold ignoreQuery, MaxInt in Hval.
  destruct (Z.eqb_spec val fatalError) as [Heq|_].
  { unfold fatalError, MaxInt in Heq. lia. }
  rewrite wrapInt_small by lia. by destruct (0 <? val - 1).
Qed.

Lemma statusSequence_countdown k c md val :
  retriesPerChain md !! c = Some val ->
  - 2 ^ 63 < val < ignoreQuery ->
  Z.max 1 val = Z.of_nat k ->
  statusSequence (S k) c md = replicate k query.QueryRetryNeeded ++ [query.QuerySuccess].
Proof.
  revert md val. induction k as [|k IH]; intros md val Hr Hval Hk; [lia|].
  rewrite statusSequence_S, (getStatusAlreadyLocked_retry c md val Hr Hval). simpl fst.
  simpl snd. cbn [replicate app]. f_equal.
  destruct (Z.ltb_spec 0 (val - 1)) as [Hpos|Hzero].
  - apply (IH _ (val - 1)); [simpl; apply lookup_insert_eq|lia..].
  - assert (k = 0%nat) as -> by lia. simpl.
    unfold getStatusAlreadyLocked. simpl. by rewrite lookup_delete_eq.
Qed.

(** X17.  After [setRetries(chainId, count)], with a count that is none
    of the two magic values, the watcher of the chain answers
    [QueryRetryNeeded] exactly [count] times, and [QuerySuccess] the next
    time it is asked; a count of one, of zero or below still costs one
    retry. *)
Theorem setRetries_retries_then_success c count md :
  - 2 ^ 63 < count < ignoreQuery ->
  statusSequence (S (Z.to_nat (Z.max 1 count))) c (setRetries c count md)
  = replicate (Z.to_nat (Z.max 1 count)) query.QueryRetryNeeded ++ [query.QuerySuccess].
Proof.
  intros Hcount. apply (statusSequence_countdown _ c _ count); [|done|lia].
  simpl. apply lookup_insert_eq.
Qed.

(** X18.  A fatal error stays: after [setRetries(chainId, fatalError)]
    the watcher of the chain answers [QueryFatalError] every time it is
    asked, however often, and the retry table stays as it is. *)
Theorem setRetries_fatalError_stays n c md :
  statusSequence n c (setRetries c fatalError md) = replicate n query.QueryFatalError
  /\ (getStatusAlreadyLocked c (setRetries c fatalError md)).2 = setRetries c fatalError md.
Proof.
  assert (getStatusAlreadyLocked c (setRetries c fatalError md)
          = (query.QueryFatalError, setRetries c fatalError md)) as Hstep.
  { unfold getStatusAlreadyLocked. simpl. by rewrite lookup_insert_eq, Z.eqb_refl. }
  split; [|by rewrite Hstep].
  induction n as [|n IH]; [done|].
  rewrite statusSequence_S, Hstep. simpl. by rewrite IH.
Qed.

(** X19.  The watcher counts every query it takes, answered or
    ignored, once and for its own chain only: the counter of the chain goes
    up by one (as a Go [int]), the counters of the other chains, the
    expected results and the publication received stay as they are. *)
Theorem watcher_counts_requests c pcqr md md' response :
  watcher c pcqr md = Some (md', response) ->
  getRequestsPerChain c md' = wrapInt (getRequestsPerChain c md + 1)
  /\ (forall c', c' <> c -> getRequestsPerChain c' md' = getRequestsPerChain c' md)
  /\ expectedResults md' = expectedResults md
  /\ queryResponsePublication md' = queryResponsePublication md.
Proof.
  unfold watcher.
  destruct (negb (c =? query.ChainId (query.Request pcqr))%N); [discriminate|].
  assert (forall md1,
            requestsPerChain md1
            = requestsPerChain (incrementRequestsPerChainAlreadyLocked c md) ->
            expectedResults md1 = expectedResults md ->
            queryResponsePublication md1 = queryResponsePublication md ->
            getRequestsPerChain c md1 = wrapInt (getRequestsPerChain c md + 1)
            /\ (forall c', c' <> c -> getRequestsPerChain c' md1 = getRequestsPerChain c' md)
            /\ expectedResults md1 = expectedResults md
            /\ queryResponsePublication md1 = queryResponsePublication md) as Hcount.
  { intros md1 Hreqs He Hp. unfold getRequestsPerChain. rewrite Hreqs. simpl.
    split; [|split; [|done]].
    - destruct (requestsPerChain md !! c); by rewrite lookup_insert_eq.
    - intros c' Hne. destruct (requestsPerChain md !! c); by rewrite lookup_insert_ne. }
  unfold shouldIgnoreAlreadyLocked, getStatusAlreadyLocked. simpl.
  destruct (retriesPerChain md !! c) as [val|] eqn:Hr.
  - destruct (val =? ignoreQuery) eqn:Hi.
    + intros [= <- <-]. by apply Hcount.
    + simpl. destruct (expectedResults md !! query.RequestIdx_ pcqr); [|discriminate].
      rewrite Hr. destruct (val =? fatalError).
      * intros [= <- <-]. by apply Hcount.
      * destruct (0 <? wrapInt (val - 1)); intros [= <- <-]; by apply Hcount.
  - simpl. destruct (expectedResults md !! query.RequestIdx_ pcqr); [|discriminate].
    rewrite Hr. intros [= <- <-]. by apply Hcount.
Qed.

(** X20.  What the watcher answers belongs to what it was asked: the
    response carries the request id and the position of the query, the chain
    of the watcher, and as payload the expected result at that position.
    The test stops instead exactly when the query names another chain than
    the watcher's, or when the query is not to be ignored and there is no
    expected result at its position. *)
Theorem watcher_answers_the_query c pcqr md :
  (forall md' response,
     watcher c pcqr md = Some (md', Some response) ->
     query.RespRequestID response = query.RequestID_ pcqr
     /\ query.RespRequestIdx response = query.RequestIdx_ pcqr
     /\ query.RespChain response = c
     /\ exists expected,
          expectedResults md !! query.RequestIdx_ pcqr = Some expected
          /\ query.RespPayload response = query.Response expected)
  /\ (watcher c pcqr md = None
      <-> c <> query.ChainId (query.Request pcqr)
          \/ (retriesPerChain md !! c <> Some ignoreQuery
              /\ expectedResults md !! query.RequestIdx_ pcqr = None)).
Proof.
  unfold watcher.
  destruct (N.eqb_spec c (query.ChainId (query.Request pcqr))) as [Hc|Hc]; simpl.
  2:{ split; [discriminate|]. split; [by left|done]. }
  unfold shouldIgnoreAlreadyLocked. simpl.
  destruct (retriesPerChain md !! c) as [val|] eqn:Hr.
  - destruct (Z.eqb_spec val ignoreQuery) as [Hi|Hi].
    + split; [discriminate|]. split; [discriminate|].
      intros [?|[Hne _]]; [done|]. destruct Hne. by rewrite Hi.
    + simpl.
      destruct (expectedResults md !! query.RequestIdx_ pcqr) as [e|] eqn:He.
      * destruct (getStatusAlreadyLocked c _) as [st md1]. split.
        -- intros md' response [= <- <-]. simpl. repeat split; [done|]. by exists e.
        -- split; [discriminate|]. intros [?|[_ ?]]; done.
      * split; [discriminate|]. split; [|done]. intros _. right. split; [|done].
        intros [= ->]. done.
  - simpl.
    destruct (expectedResults md !! query.RequestIdx_ pcqr) as [e|] eqn:He.
    * destruct (getStatusAlreadyLocked c _) as [st md1]. split.
      -- intros md' response [= <- <-]. simpl. repeat split; [done|]. by exists e.
      -- split; [discriminate|]. intros [?|[_ ?]]; done.
    * split; [discriminate|]. split; [|done]. intros _. right. split; done.
Qed.

(** X21.  An ignored query is ignored once: after
    [setRetries(chainId, ignoreQuery)] the watcher of the chain takes the
    next query without answering it, counts it, and drops the entry; the
    query after that is answered with the expected result and
    [QuerySuccess]. *)
Theorem watcher_ignores_once c pcqr pcqr' md expected :
  c = query.ChainId (query.Request pcqr) ->
  c = query.ChainId (query.Request pcqr') ->
  expectedResults md !! query.RequestIdx_ pcqr' = Some expected ->
  exists md1 md2,
    watcher c pcqr (setRetries c ignoreQuery md) = Some (md1, None)
    /\ retriesPerChain md1 = delete c (retriesPerChain md)
    /\ watcher c pcqr' md1
       = Some (md2, Some (query.CreatePerChainQueryResponseInternal
                            (query.RequestID_ pcqr') (query.RequestIdx_ pcqr') c
                            query.QuerySuccess (query.Response expected)))
    /\ getRequestsPerChain c md2 = wrapInt (wrapInt (getRequestsPerChain c md + 1) + 1).
Proof.
  intros Hc Hc' He.
  assert (watcher c pcqr (setRetries c ignoreQuery md)
          = Some (withRetries (delete c (retriesPerChain md))
                    (incrementRequestsPerChainAlreadyLocked c md), None)) as H1.
  { unfold watcher. rewrite <- Hc, N.eqb_refl. simpl.
    unfold shouldIgnoreAlreadyLocked. simpl.
    rewrite lookup_insert_eq, Z.eqb_refl. simpl. by rewrite delete_insert_eq. }
  destruct (watcher c pcqr' (withRetries (delete c (retriesPerChain md))
                               (incrementRequestsPerChainAlreadyLocked c md)))
    as [[md2 r]|] eqn:H2.
  2:{ exfalso. revert H2. unfold watcher. rewrite <- Hc', N.eqb_refl. simpl.
      unfold shouldIgnoreAlreadyLocked. simpl. rewrite lookup_delete_eq. simpl.
      rewrite He. unfold getStatusAlreadyLocked. simpl. by rewrite lookup_delete_eq. }
  exists (withRetries (delete c (retriesPerChain md))
            (incrementRequestsPerChainAlreadyLocked c md)), md2.
  split; [done|]. split; [done|].
  pose proof H2 as Hw. revert Hw. unfold watcher at 1. rewrite <- Hc', N.eqb_refl. simpl.
  unfold shouldIgnoreAlreadyLocked. simpl. rewrite lookup_delete_eq. simpl.
  rewrite He. unfold getStatusAlreadyLocked. simpl. rewrite lookup_delete_eq.
  intros [= <- <-]. split; [done|].
  unfold getRequestsPerChain. simpl.
  destruct (requestsPerChain md !! c) as [val|]; simpl;
    rewrite lookup_insert_eq; simpl; rewrite lookup_insert_eq; reflexivity.
Qed.

(** X22.  [validateResponseForTest] passes exactly when there is a
    publication, it carries the signed request as sent, its per-chain
    responses are the expected results, and there is one expected result for
    each query of the request. *)
Theorem validateResponseForTest_passes_exactly response signedRequest queryRequest expected :
  validateResponseForTest response signedRequest queryRequest expected = true
  <-> exists pub,
        response = Some pub
        /\ query.PubRequest pub = signedRequest
        /\ query.PerChainResponses pub = expected
        /\ length (query.PerChainQueries queryRequest) = length expected.
Proof.
  split.
  - unfold validateResponseForTest. destruct response as [pub|]; [|discriminate].
    rewrite !andb_true_iff.
    intros ((((Hreq%bool_decide_eq_true_1 & Hlen%Nat.eqb_eq) & _) & Hlen'%Nat.eqb_eq) & Hall).
    exists pub. split; [done|]. split; [done|].
    assert (query.PerChainResponses pub = expected) as Heq.
    { apply list_eq. intros i.
      destruct (decide (i < length (query.PerChainResponses pub))%nat) as [Hi|Hi].
      - rewrite forallb_forall in Hall.
        eapply bool_decide_eq_true_1, Hall. apply in_seq. lia.
      - rewrite !lookup_ge_None_2 by lia. done. }
    split; [done|]. by rewrite <- Heq.
  - intros (pub & -> & <- & <- & Hlen). destruct pub as [req resps]. simpl in *.
    by apply validateResponseForTest_passes.
Qed.

(** *** The further validator statements on the sample data *)

Lemma validateRequest_names_first_unauthorized_witness :
  exists p req pre post,
    GetUserEntry Sample.perms "key-alice" = Some p
    /\ Sample.Unmarshal [Byte.x01] = inl req
    /\ requestCallKeys Sample.PublicKeyString req = pre ++ "solAccount:1:B" :: post
    /\ Forall (fun k => k ∈ allowedCalls p) pre
    /\ ("solAccount:1:B" ∉ allowedCalls p).
Proof.
  apply (validateRequest_names_first_unauthorized
    Sample.QueryRequestDigest Sample.Sign Sample.Unmarshal Sample.Validate
    Sample.PublicKeyString Sample.ChainIDString
    GoTest Sample.perms None "key-alice" (Sample.signed Byte.x01) Sample.noMetrics
    "solAccount:1:B").
  vm_compute. reflexivity.
Defined.

Lemma validateRequest_monotone_witness :
  let v := Sample.validate None "key-alice" (Sample.signed Byte.x00) Sample.noMetrics in
  let v' := validateRequest Sample.QueryRequestDigest Sample.Sign Sample.Unmarshal
              Sample.Validate Sample.PublicKeyString Sample.ChainIDString
              GoTest Reordered.perms None "key-alice" (Sample.signed Byte.x00)
              Sample.noMetrics in
  err v' = None /\ queryRequest v' = queryRequest v.
Proof.
  cbv zeta. unfold Sample.validate.
  apply (validateRequest_monotone
    Sample.QueryRequestDigest Sample.Sign Sample.Unmarshal Sample.Validate
    Sample.PublicKeyString Sample.ChainIDString
    GoTest Sample.perms Reordered.perms None "key-alice" (Sample.signed Byte.x00)
    Sample.noMetrics Sample.noMetrics Sample.alice Reordered.alice).
  - reflexivity.
  - reflexivity.
  - reflexivity.
  - refine (bool_decide_unpack _ _). vm_compute. exact I.
  - vm_compute. reflexivity.
Defined.

Lemma validateRequest_again_witness :
  let v := Sample.validate (Some 7%N) "key-alice" (Sample.unsigned Byte.x01)
             Sample.noMetrics in
  let v2 := Sample.validate (Some 7%N) "key-alice" (signedRequest v) (metrics v) in
  status v = StatusForbidden
  /\ status v2 = status v /\ queryRequest v2 = queryRequest v /\ err v2 = err v
  /\ signedRequest v2 = signedRequest v.
Proof.
  cbv zeta. split; [reflexivity|]. unfold Sample.validate.
  apply (validateRequest_again
    Sample.QueryRequestDigest Sample.Sign Sample.Unmarshal Sample.Validate
    Sample.PublicKeyString Sample.ChainIDString
    GoTest Sample.perms (Some 7%N) "key-alice" (Sample.unsigned Byte.x01)
    Sample.noMetrics).
  vm_compute. discriminate.
Defined.

Lemma validateRequest_set_of_calls_witness :
  let validate b :=
    validateRequest Sample.QueryRequestDigest Sample.Sign Reordered.Unmarshal
      Sample.Validate Sample.PublicKeyString Sample.ChainIDString
      GoTest Sample.perms None "key-alice" (Sample.signed b) Sample.noMetrics in
  err (validate Byte.x00) = None <-> err (validate Byte.x01) = None.
Proof.
  cbv zeta.
  apply (validateRequest_set_of_calls
    Sample.QueryRequestDigest Sample.Sign Reordered.Unmarshal Sample.Validate
    Sample.PublicKeyString Sample.ChainIDString
    GoTest Sample.perms None "key-alice" (Sample.signed Byte.x00) (Sample.signed Byte.x01)
    Sample.noMetrics Sample.noMetrics
    (Sample.request [Sample.solAccount [Sample.acctA]; Sample.solPda [Sample.acctA]])
    (Sample.request [Sample.solPda [Sample.acctA];
                     Sample.solAccount [Sample.acctA; Sample.acctA]])).
  - discriminate.
  - discriminate.
  - reflexivity.
  - reflexivity.
  - reflexivity.
  - reflexivity.
  - reflexivity.
  - intros k. rewrite !list_elem_of_In. vm_compute. tauto.
Defined.

(** *** The forwarders on the sample data *)

Lemma forwardAll_in_order_witness :
  let answer c := query.CreatePerChainQueryResponseInternal "request" 0 c
                    query.QuerySuccess [Byte.x0a] in
  let pre := [(5%N, answer 5%N); (4%N, answer 4%N)] in
  forwardAll pre nodeStart = {| queryResponseC := pre.*2; exited := false |}
  /\ forall channel response post,
       query.RespChain response <> channel ->
       forwardAll (pre ++ (channel, response) :: post) nodeStart
       = {| queryResponseC := pre.*2; exited := true |}.
Proof.
  cbv zeta.
  apply (forwardAll_in_order
    [(5%N, query.CreatePerChainQueryResponseInternal "request" 0 5%N
             query.QuerySuccess [Byte.x0a]);
     (4%N, query.CreatePerChainQueryResponseInternal "request" 0 4%N
             query.QuerySuccess [Byte.x0a])]).
  repeat constructor.
Defined.

Lemma forwardMessages_stops_at_first_ill_originated_witness :
  let run := forwardMessages Messages.GovernanceEmitter Messages.GovernanceChain MainNet in
  (halted (run Messages.good forwarderStart) = false
   /\ msgC (run Messages.good forwarderStart)
      = (filter (forwardable Messages.GovernanceEmitter Messages.GovernanceChain)
           Messages.good).*2)
  /\ forall bad post,
       ~ wellOriginated bad ->
       halted (run (Messages.good ++ bad :: post) forwarderStart) = true
       /\ msgC (run (Messages.good ++ bad :: post) forwarderStart)
          = (filter (forwardable Messages.GovernanceEmitter Messages.GovernanceChain)
               Messages.good).*2.
Proof.
  cbv zeta.
  apply (forwardMessages_stops_at_first_ill_originated
    Messages.GovernanceEmitter Messages.GovernanceChain MainNet Messages.good).
  - discriminate.
  - refine (bool_decide_unpack _ _). vm_compute. exact I.
Defined.

(** *** The watcher set-up on the sample configurations *)

Lemma sample_watchers_configured :
  Networks.configure Networks.watcherConfigs
  = Configured (Networks.configured Networks.watcherConfigs).
Proof. vm_compute. reflexivity. Qed.

Lemma configureWatchers_networks_and_channels_witness :
  let s' := Networks.configured Networks.watcherConfigs in
  NoDup (watchers.GetNetworkID <$> Networks.watcherConfigs)
  /\ (forall id, is_Some (watchersMap s' !! id)
                 <-> id ∈ watchers.GetNetworkID <$> Networks.watcherConfigs)
  /\ chainQueryReqC s'
     = list_to_set (watchers.GetChainID
                      <$> filter (fun wc => watchers.GetNetworkID wc <> "solana-confirmed")
                            Networks.watcherConfigs) ∪ ∅
  /\ chainObsvReqC s'
     = list_to_set (watchers.GetChainID
                      <$> filter (fun wc => watchers.GetNetworkID wc <> "solana-confirmed")
                            Networks.watcherConfigs).
Proof.
  cbv zeta.
  apply (configureWatchers_networks_and_channels Networks.MustRegisterReadinessSyncing
    GoTest Networks.watcherConfigs ∅ ∅ []).
  vm_compute. reflexivity.
Defined.

Lemma configureWatchers_runnables_witness :
  let s' := Networks.configured Networks.watcherConfigs in
  (forall wc, wc ∈ Networks.watcherConfigs ->
     exists l1 l1finalizer runnable,
       watchers.Create wc l1 GoTest = inl (l1finalizer, runnable)
       /\ watchersMap s' !! watchers.GetNetworkID wc = Some l1finalizer
       /\ runnablesWithScissors s' !! (watchers.GetNetworkID wc +:+ "_watch")
          = Some runnable)
  /\ (forall name,
        (forall wc, wc ∈ Networks.watcherConfigs ->
           name <> watchers.GetNetworkID wc +:+ "_watch") ->
        runnablesWithScissors s' !! name = (∅ : gmap string string) !! name).
Proof.
  cbv zeta.
  apply (configureWatchers_runnables Networks.MustRegisterReadinessSyncing
    GoTest Networks.watcherConfigs ∅ ∅ []).
  vm_compute. reflexivity.
Defined.

Lemma configureWatchers_l1_before_witness :
  exists j l1wc l1 l1watcher l1runnable l1finalizer runnable,
    (j < 3)%nat /\ Networks.watcherConfigs !! j = Some l1wc
    /\ watchers.GetNetworkID l1wc = "ethereum"
    /\ watchers.Create l1wc l1 GoTest = inl (Some l1watcher, l1runnable)
    /\ watchers.Create Networks.arbitrum (Some l1watcher) GoTest = inl (l1finalizer, runnable).
Proof.
  apply (configureWatchers_l1_before Networks.MustRegisterReadinessSyncing
    GoTest Networks.watcherConfigs ∅ ∅ []
    (Networks.configured Networks.watcherConfigs) 3 Networks.arbitrum).
  - vm_compute. reflexivity.
  - reflexivity.
  - discriminate.
Defined.

Lemma configureWatchers_duplicate_witness :
  let pre := [Networks.solanaConfirmed; Networks.ethereum] in
  Networks.configure (pre ++ Networks.ethereum :: [Networks.arbitrum])
  = SetupError "NetworkID already configured: ethereum" (Networks.configured pre).
Proof.
  cbv zeta.
  apply (configureWatchers_duplicate Networks.MustRegisterReadinessSyncing
    GoTest [Networks.solanaConfirmed; Networks.ethereum] Networks.ethereum
    [Networks.arbitrum] ∅ ∅ []).
  - vm_compute. reflexivity.
  - refine (bool_decide_unpack _ _). vm_compute. exact I.
Defined.

Lemma configureWatchers_missing_l1_witness :
  let pre := [Networks.solanaFinalized] in
  let result := Networks.configure (pre ++ Networks.arbitrum :: [Networks.ethereum]) in
  ("arbitrum" ∈ watchers.GetNetworkID <$> pre
   /\ result = SetupError "NetworkID already configured: arbitrum" (Networks.configured pre))
  \/ (("arbitrum" ∉ watchers.GetNetworkID <$> pre)
      /\ (result = SetupPanic
          \/ exists s1, result = SetupFatal s1
                        /\ watchersMap s1 = watchersMap (Networks.configured pre)
                        /\ runnablesWithScissors s1
                           = runnablesWithScissors (Networks.configured pre))).
Proof.
  cbv zeta.
  apply (configureWatchers_missing_l1 Networks.MustRegisterReadinessSyncing
    GoTest [Networks.solanaFinalized] Networks.arbitrum [Networks.ethereum] ∅ ∅ []).
  - vm_compute. reflexivity.
  - discriminate.
  - refine (bool_decide_unpack _ _). vm_compute. exact I.
Defined.

(** *** The mock watchers on the sample data *)

Lemma setRetries_retries_then_success_witness :
  statusSequence 4 5%N (setRetries 5%N 3 Mock.md)
  = [query.QueryRetryNeeded; query.QueryRetryNeeded; query.QueryRetryNeeded;
     query.QuerySuccess].
Proof.
  apply (setRetries_retries_then_success 5%N 3 Mock.md). vm_compute. split; reflexivity.
Defined.

Lemma watcher_counts_requests_witness :
  let md' := incrementRequestsPerChainAlreadyLocked 5%N Mock.md in
  getRequestsPerChain 5%N md' = wrapInt (getRequestsPerChain 5%N Mock.md + 1)
  /\ (forall c', c' <> 5%N -> getRequestsPerChain c' md' = getRequestsPerChain c' Mock.md)
  /\ expectedResults md' = expectedResults Mock.md
  /\ queryResponsePublication md' = queryResponsePublication Mock.md.
Proof.
  cbv zeta.
  apply (watcher_counts_requests 5%N (Mock.pcqr 0 5%N) Mock.md
    (incrementRequestsPerChainAlreadyLocked 5%N Mock.md)
    (Some (query.CreatePerChainQueryResponseInternal "request" 0 5%N
             query.QuerySuccess [Byte.x0a]))).
  vm_compute. reflexivity.
Defined.

Lemma watcher_ignores_once_witness :
  exists md1 md2,
    watcher 5%N (Mock.pcqr 0 5%N) (setRetries 5%N ignoreQuery Mock.md) = Some (md1, None)
    /\ retriesPerChain md1 = delete 5%N (retriesPerChain Mock.md)
    /\ watcher 5%N (Mock.pcqr 0 5%N) md1
       = Some (md2, Some (query.CreatePerChainQueryResponseInternal "request" 0 5%N
                            query.QuerySuccess [Byte.x0a]))
    /\ getRequestsPerChain 5%N md2
       = wrapInt (wrapInt (getRequestsPerChain 5%N Mock.md + 1) + 1).
Proof.
  apply (watcher_ignores_once 5%N (Mock.pcqr 0 5%N) (Mock.pcqr 0 5%N) Mock.md
    {| query.RespChainId := 5%N; query.Response := [Byte.x0a] |}); reflexivity.
Defined.
